(** * WebStreamer byte-delivery engine: a shallow embedding of
      [WebStreamer/utils/custom_dl.py] (class [ByteStreamer]).

    The Python code is asynchronous, stateful and talks to an upstream
    service.  It is embedded as a state-and-exception monad over an explicit
    program state; every upstream call is answered by an [Upstream] oracle
    that sees the whole interaction history, and every observable step (an
    upstream call with its answer, a yielded chunk) is appended to a trace.
    Loops of the form [while True] run on a fuel budget; [Diverge] is the
    outcome of a run that needs more iterations than the budget. *)

From Stdlib Require Import ZArith List Lia Bool String Sorted DecimalString.
From Stdlib.Strings Require Import Byte.
From stdpp Require Import base gmap strings list sorting.

Open Scope Z_scope.

(** ** Bytes and Python slicing *)

Definition bytes := list byte.

#[global] Instance byte_eq_dec : EqDecision byte := Byte.byte_eq_dec.

(** Python normalises a slice bound [i] on a sequence of length [n]:
    a negative bound counts from the end, then the bound is clamped
    into [0..n]. *)
Definition clamp_index (n i : Z) : Z :=
  if i <? 0 then Z.max 0 (i + n) else Z.min i n.

(** [py_slice lo hi l] is [l[lo:hi]]; [None] is an omitted bound. *)
Definition py_slice {A : Type} (lo hi : option Z) (l : list A) : list A :=
  let n := Z.of_nat (length l) in
  let a := match lo with Some i => clamp_index n i | None => 0 end in
  let b := match hi with Some i => clamp_index n i | None => n end in
  take (Z.to_nat (b - a)) (drop (Z.to_nat a) l).

(** [not chunk] on a bytes object. *)
Definition is_empty {A : Type} (l : list A) : bool :=
  match l with [] => true | _ :: _ => false end.

(** [(v).to_bytes(4, "big")]: the four big-endian bytes of [v], or
    [None] where Python raises OverflowError (negative or too large). *)
Definition byte_of_Z (v : Z) : byte :=
  match Byte.of_N (Z.to_N (v mod 256)) with Some b => b | None => x00 end.

Definition to_bytes_4_big (v : Z) : option bytes :=
  if (0 <=? v) && (v <? 2 ^ 32)
  then Some [byte_of_Z (v / 2 ^ 24); byte_of_Z (v / 2 ^ 16);
             byte_of_Z (v / 2 ^ 8); byte_of_Z v]
  else None.

(** ** Insertion-ordered dictionaries with integer keys

    [work_loads] is a Python [dict]; [min] iterates it in insertion order,
    so the order of the entries is part of the model. *)

Definition dict (V : Type) := list (Z * V).

Fixpoint dict_get {V : Type} (d : dict V) (k : Z) : option V :=
  match d with
  | [] => None
  | (k', v) :: d' => if k' =? k then Some v else dict_get d' k
  end.

(** [d[k] = v]: an existing key keeps its position, a new key goes last. *)
Fixpoint dict_set {V : Type} (d : dict V) (k : Z) (v : V) : dict V :=
  match d with
  | [] => [(k, v)]
  | (k', v') :: d' =>
      if k' =? k then (k, v) :: d' else (k', v') :: dict_set d' k v
  end.

Definition dict_keys {V : Type} (d : dict V) : list Z := map fst d.

(** ** Exceptions *)

Inductive exn : Type :=
| TimeoutError
| AttributeError
| OSError
| ConnectionResetError
| OverflowError
| KeyError
| ValueError
| AuthBytesInvalid
| VolumeLocNotFound
| CDNFileHashMismatch
| FloodWait
| GeneratorExit
| CancelledError.

#[global] Instance exn_eq_dec : EqDecision exn.
Proof. solve_decision. Defined.

(** [isinstance(e, OSError)]: [TimeoutError] and [ConnectionResetError]
    are subclasses of [OSError]. *)
Definition isinstance_OSError (e : exn) : bool :=
  match e with
  | OSError | TimeoutError | ConnectionResetError => true
  | _ => false
  end.

(** [isinstance(e, Exception)]: [GeneratorExit] and [CancelledError]
    derive from [BaseException] only. *)
Definition isinstance_Exception (e : exn) : bool :=
  match e with
  | GeneratorExit | CancelledError => false
  | _ => true
  end.

(** The outcome of a computation. *)
Inductive result (A : Type) : Type :=
| Return (a : A)
| Raise (e : exn)
| Diverge.
Arguments Return {A} a.
Arguments Raise {A} e.
Arguments Diverge {A}.

#[global] Instance result_eq_dec {A : Type} `{EqDecision A}
  : EqDecision (result A).
Proof. solve_decision. Defined.

(** ** Data model *)

(** [hydrogram.file_id.FileType] and [ThumbnailSource]. *)
Inductive FileType : Type :=
| THUMBNAIL | CHAT_PHOTO | PHOTO | VOICE | VIDEO | DOCUMENT | ENCRYPTED
| TEMP | STICKER | AUDIO | ANIMATION | ENCRYPTED_THUMBNAIL | WALLPAPER
| VIDEO_NOTE | SECURE_RAW | SECURE | BACKGROUND | DOCUMENT_AS_FILE.

Inductive ThumbnailSource : Type :=
| LEGACY | THUMBNAIL_SOURCE | CHAT_PHOTO_SMALL | CHAT_PHOTO_BIG
| STICKER_SET_THUMBNAIL.

#[global] Instance FileType_eq_dec : EqDecision FileType.
Proof. solve_decision. Defined.
#[global] Instance ThumbnailSource_eq_dec : EqDecision ThumbnailSource.
Proof. solve_decision. Defined.

(** The descriptor: a [FileId] with the [index] of the client that
    resolved it. *)
Record FileId : Type := mkFileId {
  file_type : FileType;
  dc_id : Z;
  media_id : Z;
  access_hash : Z;
  file_reference : bytes;
  thumbnail_size : string;
  thumbnail_source : ThumbnailSource;
  chat_id : Z;
  chat_access_hash : Z;
  index : Z }.

Inductive InputPeer : Type :=
| InputPeerUser (user_id access_hash : Z)
| InputPeerChat (chat_id : Z)
| InputPeerChannel (channel_id access_hash : Z).

Inductive Location : Type :=
| InputPeerPhotoFileLocation (peer : InputPeer) (photo_id : Z) (big : bool)
| InputPhotoFileLocation (id access_hash : Z) (file_reference : bytes)
    (thumb_size : string)
| InputDocumentFileLocation (id access_hash : Z) (file_reference : bytes)
    (thumb_size : string).

(** A [Session] object; [session_id] is its identity. *)
Record Session : Type := mkSession {
  session_id : nat;
  session_client : Z;
  session_dc_id : Z;
  session_auth_key : bytes;
  session_test_mode : bool;
  session_is_media : bool;
  session_is_cdn : bool }.

(** A client: its table of media sessions by data center, and what its
    storage holds.  Clients are shared mutable objects; they are reached
    through their key in [multi_clients] only. *)
Record Client : Type := mkClient {
  media_sessions : gmap Z Session;
  storage_dc_id : Z;
  storage_test_mode : bool;
  storage_auth_key : bytes }.

(** Answers of the upstream service. *)
Inductive upload_File : Type :=
| File (content : bytes)
| FileCdnRedirect (cdn_dc_id : Z)
    (file_token encryption_key encryption_iv : bytes).

Inductive upload_CdnFile : Type :=
| CdnFileReuploadNeeded (request_token : bytes)
| CdnFile (content : bytes).

Record FileHash : Type := mkFileHash {
  fh_offset : Z;
  fh_limit : Z;
  fh_hash : bytes }.

Record ExportedAuthorization : Type := mkExportedAuthorization {
  ea_id : Z;
  ea_bytes : bytes }.

(** One observable step of a run: an upstream call with its answer, a
    session stopped, or a chunk handed to the consumer. *)
Inductive event : Type :=
| EvGetFileIds (client : Z) (db_id : string) (r : result FileId)
| EvAuthCreate (client dc : Z) (test_mode : bool) (r : result bytes)
| EvSessionStart (s : Session) (r : result unit)
| EvSessionStop (s : Session)
| EvExportAuthorization (client dc : Z) (r : result ExportedAuthorization)
| EvImportAuthorization (s : Session) (id : Z) (b : bytes) (r : result unit)
| EvGetFile (s : Session) (loc : Location) (offset limit : Z)
    (r : result upload_File)
| EvGetCdnFile (s : Session) (token : bytes) (offset limit : Z)
    (r : result upload_CdnFile)
| EvReuploadCdnFile (s : Session) (token request_token : bytes)
    (r : result unit)
| EvGetCdnFileHashes (s : Session) (token : bytes) (offset : Z)
    (r : result (list FileHash))
| EvYield (chunk : bytes).

(** The upstream collaborators, as functions of the interaction so far:
    [get_file_ids] of [WebStreamer/utils/file_properties.py], and the
    remote protocol client ([Auth.create], [Session.start],
    [Session.invoke] per request kind). *)
Record Upstream : Type := mkUpstream {
  up_get_file_ids : list event -> Z -> string -> result FileId;
  up_auth_create : list event -> Z -> Z -> bool -> result bytes;
  up_session_start : list event -> Session -> result unit;
  up_export_authorization :
    list event -> Z -> Z -> result ExportedAuthorization;
  up_import_authorization :
    list event -> Session -> Z -> bytes -> result unit;
  up_get_file :
    list event -> Session -> Location -> Z -> Z -> result upload_File;
  up_get_cdn_file :
    list event -> Session -> bytes -> Z -> Z -> result upload_CdnFile;
  up_reupload_cdn_file :
    list event -> Session -> bytes -> bytes -> result unit;
  up_get_cdn_file_hashes :
    list event -> Session -> bytes -> Z -> result (list FileHash) }.

(** Pure library functions the code calls: [utils.get_channel_id],
    [aes.ctr256_decrypt] and [sha256(...).digest()]. *)
Record Primitives : Type := mkPrimitives {
  get_channel_id : Z -> Z;
  ctr256_decrypt : bytes -> bytes -> bytes -> bytes;
  sha256 : bytes -> bytes }.

(** The program state: the module globals [work_loads], [cdn_count] and
    [multi_clients], the cache of the [ByteStreamer], the sessions whose
    [is_started] flag is set, the next fresh session identity, the trace,
    and how many more chunks the consumer takes before it closes the
    generator ([None]: it reads to the end). *)
Record state : Type := mkState {
  trace : list event;
  work_loads : dict Z;
  cdn_count : dict Z;
  multi_clients : gmap Z Client;
  cached_file_ids : gmap string FileId;
  started : gset nat;
  next_session_id : nat;
  demand : option nat }.

Definition set_trace (t : list event) (st : state) : state :=
  mkState t (work_loads st) (cdn_count st) (multi_clients st)
    (cached_file_ids st) (started st) (next_session_id st) (demand st).
Definition set_work_loads (w : dict Z) (st : state) : state :=
  mkState (trace st) w (cdn_count st) (multi_clients st)
    (cached_file_ids st) (started st) (next_session_id st) (demand st).
Definition set_cdn_count (c : dict Z) (st : state) : state :=
  mkState (trace st) (work_loads st) c (multi_clients st)
    (cached_file_ids st) (started st) (next_session_id st) (demand st).
Definition set_multi_clients (m : gmap Z Client) (st : state) : state :=
  mkState (trace st) (work_loads st) (cdn_count st) m
    (cached_file_ids st) (started st) (next_session_id st) (demand st).
Definition set_cached_file_ids (c : gmap string FileId) (st : state) : state :=
  mkState (trace st) (work_loads st) (cdn_count st) (multi_clients st)
    c (started st) (next_session_id st) (demand st).
Definition set_started (s : gset nat) (st : state) : state :=
  mkState (trace st) (work_loads st) (cdn_count st) (multi_clients st)
    (cached_file_ids st) s (next_session_id st) (demand st).
Definition set_next_session_id (n : nat) (st : state) : state :=
  mkState (trace st) (work_loads st) (cdn_count st) (multi_clients st)
    (cached_file_ids st) (started st) n (demand st).
Definition set_demand (d : option nat) (st : state) : state :=
  mkState (trace st) (work_loads st) (cdn_count st) (multi_clients st)
    (cached_file_ids st) (started st) (next_session_id st) d.

(** ** The monad of the embedding: state, exceptions and divergence *)

Definition M (A : Type) : Type := state -> result A * state.

Definition ret {A : Type} (a : A) : M A := fun st => (Return a, st).
Definition raise {A : Type} (e : exn) : M A := fun st => (Raise e, st).
Definition diverge {A : Type} : M A := fun st => (Diverge, st).

Definition bind {A B : Type} (m : M A) (k : A -> M B) : M B :=
  fun st =>
    match m st with
    | (Return a, st') => k a st'
    | (Raise e, st') => (Raise e, st')
    | (Diverge, st') => (Diverge, st')
    end.

Notation "'let*' x ':=' m 'in' k" := (bind m (fun x => k))
  (at level 10, x name, m at level 100, k at level 200).
Notation "'do*' m 'in' k" := (bind m (fun _ => k))
  (at level 10, m at level 100, k at level 200).

Definition gets {A : Type} (f : state -> A) : M A :=
  fun st => (Return (f st), st).
Definition modify (f : state -> state) : M unit :=
  fun st => (Return tt, f st).

(** [try: body except ...: handler]: [handler e] is [None] when no
    [except] clause matches [e]. *)
Definition try_except {A : Type} (body : M A) (handler : exn -> option (M A))
  : M A :=
  fun st =>
    match body st with
    | (Raise e, st') =>
        match handler e with
        | Some h => h st'
        | None => (Raise e, st')
        end
    | other => other
    end.

(** [try: body finally: fin]: [fin] runs on return and on raise; what it
    raises replaces the outcome of [body].  A body that never finishes
    never reaches it. *)
Definition try_finally {A : Type} (body : M A) (fin : M unit) : M A :=
  fun st =>
    match body st with
    | (Diverge, st') => (Diverge, st')
    | (r, st') =>
        match fin st' with
        | (Return _, st'') => (r, st'')
        | (Raise e, st'') => (Raise e, st'')
        | (Diverge, st'') => (Diverge, st'')
        end
    end.

(** [while True: body] with [break] and [continue], on a fuel budget. *)
Inductive control (S : Type) : Type :=
| Break
| Continue (s : S).
Arguments Break {S}.
Arguments Continue {S} s.

Fixpoint while_true {S : Type} (fuel : nat) (body : S -> M (control S))
  (s : S) : M unit :=
  match fuel with
  | O => diverge
  | Datatypes.S fuel' =>
      let* c := body s in
      match c with
      | Break => ret tt
      | Continue s' => while_true fuel' body s'
      end
  end.

Definition log (e : event) (st : state) : state :=
  set_trace (trace st ++ [e]) st.

(** An awaited upstream call: the oracle answers from the history, and
    the call and its answer enter the trace. *)
Definition upstream_call {A : Type} (ask : list event -> result A)
  (ev : result A -> event) : M A :=
  fun st => let r := ask (trace st) in (r, log (ev r) st).

(** [yield chunk]: the chunk is handed to the consumer.  A consumer that
    wanted exactly this many chunks closes the generator, which raises
    [GeneratorExit] at the [yield]. *)
Definition yield_ (chunk : bytes) : M unit :=
  fun st =>
    match demand st with
    | None => (Return tt, log (EvYield chunk) st)
    | Some O => (Raise GeneratorExit, st)
    | Some (Datatypes.S O) =>
        (Raise GeneratorExit, set_demand (Some O) (log (EvYield chunk) st))
    | Some (Datatypes.S n) =>
        (Return tt, set_demand (Some n) (log (EvYield chunk) st))
    end.

(** The chunks a trace hands to the consumer, in order. *)
Fixpoint yielded (t : list event) : list bytes :=
  match t with
  | [] => []
  | EvYield c :: t' => c :: yielded t'
  | _ :: t' => yielded t'
  end.

(** ** Shared objects *)

(** Reading an attribute of the client object with key [ci].  Clients are
    named by their key in [multi_clients]; [multi_clients[ci]] raises
    [KeyError] for a missing key. *)
Definition client_attr {A : Type} (ci : Z) (f : Client -> A) : M A :=
  fun st =>
    match multi_clients st !! ci with
    | Some c => (Return (f c), st)
    | None => (Raise KeyError, st)
    end.

(** In-place update of [client.media_sessions]. *)
Definition update_media_sessions (ci : Z)
  (f : gmap Z Session -> gmap Z Session) : M unit :=
  modify (fun st =>
    set_multi_clients
      (alter (fun c => mkClient (f (media_sessions c)) (storage_dc_id c)
                         (storage_test_mode c) (storage_auth_key c))
         ci (multi_clients st)) st).

(** [work_loads[k] += delta]. *)
Definition work_loads_add (k delta : Z) : M unit :=
  fun st =>
    match dict_get (work_loads st) k with
    | Some v => (Return tt, set_work_loads (dict_set (work_loads st) k (v + delta)) st)
    | None => (Raise KeyError, st)
    end.

(** [cdn_count[k] = cdn_count[k]+1 if k in cdn_count else 1]. *)
Definition cdn_count_incr (k : Z) : M unit :=
  modify (fun st =>
    set_cdn_count
      (dict_set (cdn_count st) k
         (match dict_get (cdn_count st) k with Some v => v + 1 | None => 1 end))
      st).

(** [self.cached_file_ids[db_id]]. *)
Definition cache_lookup (db_id : string) : M FileId :=
  fun st =>
    match cached_file_ids st !! db_id with
    | Some f => (Return f, st)
    | None => (Raise KeyError, st)
    end.

(** [Session(client, dc, auth_key, test_mode, is_media, is_cdn)]: a fresh
    object. *)
Definition new_Session (ci dc : Z) (auth_key : bytes)
  (test_mode is_media is_cdn : bool) : M Session :=
  fun st =>
    (Return (mkSession (next_session_id st) ci dc auth_key test_mode
               is_media is_cdn),
     set_next_session_id (Datatypes.S (next_session_id st)) st).

(** [session.stop()] clears [is_started]; it is taken to return
    normally, as the library's [Session.stop] logs its own failures. *)
Definition Session_stop (s : Session) : M unit :=
  modify (fun st =>
    log (EvSessionStop s) (set_started (started st ∖ {[session_id s]}) st)).

(** [session.is_started.is_set()]. *)
Definition is_started (s : Session) : M bool :=
  gets (fun st => bool_decide (session_id s ∈ started st)).

(** ** The methods of [ByteStreamer] *)

Section ByteStreamer.

Context (P : Primitives) (U : Upstream).

(** [await session.start()]: on success [is_started] is set. *)
Definition Session_start (s : Session) : M unit :=
  do* upstream_call (fun h => up_session_start U h s) (EvSessionStart s) in
  modify (fun st => set_started ({[session_id s]} ∪ started st) st).

(** [await Auth(client, dc, test_mode).create()]. *)
Definition Auth_create (ci dc : Z) (test_mode : bool) : M bytes :=
  upstream_call (fun h => up_auth_create U h ci dc test_mode)
    (EvAuthCreate ci dc test_mode).

(** [await session.invoke(raw.functions....)], per request. *)
Definition invoke_ExportAuthorization (ci dc : Z) : M ExportedAuthorization :=
  upstream_call (fun h => up_export_authorization U h ci dc)
    (EvExportAuthorization ci dc).

Definition invoke_ImportAuthorization (s : Session) (id : Z) (b : bytes)
  : M unit :=
  upstream_call (fun h => up_import_authorization U h s id b)
    (EvImportAuthorization s id b).

Definition invoke_GetFile (s : Session) (location : Location)
  (offset limit : Z) : M upload_File :=
  upstream_call (fun h => up_get_file U h s location offset limit)
    (EvGetFile s location offset limit).

Definition invoke_GetCdnFile (s : Session) (token : bytes)
  (offset limit : Z) : M upload_CdnFile :=
  upstream_call (fun h => up_get_cdn_file U h s token offset limit)
    (EvGetCdnFile s token offset limit).

Definition invoke_ReuploadCdnFile (s : Session) (token request_token : bytes)
  : M unit :=
  upstream_call (fun h => up_reupload_cdn_file U h s token request_token)
    (EvReuploadCdnFile s token request_token).

Definition invoke_GetCdnFileHashes (s : Session) (token : bytes) (offset : Z)
  : M (list FileHash) :=
  upstream_call (fun h => up_get_cdn_file_hashes U h s token offset)
    (EvGetCdnFileHashes s token offset).

(** *** [get_file_properties] and [generate_file_properties] *)

(** [min(l, key=key)]: the first element whose key is smallest;
    [ValueError] on an empty sequence. *)
Fixpoint min_by {A : Type} (key : A -> Z) (best : A) (rest : list A) : A :=
  match rest with
  | [] => best
  | x :: rest' =>
      if key x <? key best then min_by key x rest' else min_by key best rest'
  end.

Definition py_min {A : Type} (key : A -> Z) (l : list A) : result A :=
  match l with
  | [] => Raise ValueError
  | x :: l' => Return (min_by key x l')
  end.

(** [work_loads.get], on the keys of [work_loads] itself. *)
Definition load_of (w : dict Z) (k : Z) : Z := default 0 (dict_get w k).

(** [min(work_loads, key=work_loads.get)]. *)
Definition least_loaded (w : dict Z) : result Z :=
  py_min (load_of w) (dict_keys w).

Definition generate_file_properties (db_id : string) : M FileId :=
  let* index := (fun st => (least_loaded (work_loads st), st)) in
  do* client_attr index (fun c => c) in
  let* file_id :=
    upstream_call (fun h => up_get_file_ids U h index db_id)
      (EvGetFileIds index db_id) in
  do* modify (fun st =>
        set_cached_file_ids (<[db_id := file_id]> (cached_file_ids st)) st) in
  cache_lookup db_id.

Definition get_file_properties (db_id : string) : M FileId :=
  let* cached := gets (fun st => bool_decide (is_Some (cached_file_ids st !! db_id))) in
  do* (if negb cached
       then do* generate_file_properties db_id in ret tt
       else ret tt) in
  cache_lookup db_id.

(** One round of [clean_cache], after its sleep. *)
Definition clean_cache : M unit :=
  modify (set_cached_file_ids ∅).

(** *** [generate_media_session] *)

(** [for _ in range(n): ... else: ...] of the import of the
    authorization: [break] on a successful import, [continue] on
    [AuthBytesInvalid], and the [else] branch once the range is used up. *)
Fixpoint import_authorization_loop (n : nat) (ci : Z) (file_id : FileId)
  (media_session : Session) : M unit :=
  match n with
  | O =>
      do* Session_stop media_session in
      raise AuthBytesInvalid
  | Datatypes.S n' =>
      let* exported_auth := invoke_ExportAuthorization ci (dc_id file_id) in
      let* imported :=
        try_except
          (do* invoke_ImportAuthorization media_session
                 (ea_id exported_auth) (ea_bytes exported_auth) in
           ret true)
          (fun e =>
             match e with
             | AuthBytesInvalid => Some (ret false)
             | _ => None
             end) in
      if imported then ret tt
      else import_authorization_loop n' ci file_id media_session
  end.

(** The first part of [generate_media_session]: the session the client
    has for the data center, if any; one that is found disconnected is
    removed from the table and stopped, and counts as none. *)
Definition lookup_media_session (ci : Z) (file_id : FileId)
  : M (option Session) :=
  let* media_session :=
    client_attr ci (fun c => media_sessions c !! dc_id file_id) in
  match media_session with
  | Some s =>
      let* up := is_started s in
      if negb up then
        do* update_media_sessions ci (delete (dc_id file_id)) in
        do* Session_stop s in
        ret None
      else ret (Some s)
  | None => ret None
  end.

(** The two branches under [if media_session is None]: a new session for
    the data center of the file, started, and with the authorization
    imported when that is not the home data center of the client. *)
Definition create_media_session (ci : Z) (file_id : FileId) : M Session :=
  let* home := client_attr ci storage_dc_id in
  if bool_decide (dc_id file_id <> home) then
    let* test_mode := client_attr ci storage_test_mode in
    let* auth_key := Auth_create ci (dc_id file_id) test_mode in
    let* test_mode := client_attr ci storage_test_mode in
    let* s := new_Session ci (dc_id file_id) auth_key test_mode true false in
    do* Session_start s in
    do* import_authorization_loop 6 ci file_id s in
    ret s
  else
    let* auth_key := client_attr ci storage_auth_key in
    let* test_mode := client_attr ci storage_test_mode in
    let* s := new_Session ci (dc_id file_id) auth_key test_mode true false in
    do* Session_start s in
    ret s.

Definition generate_media_session (ci : Z) (file_id : FileId) : M Session :=
  let* media_session := lookup_media_session ci file_id in
  match media_session with
  | None =>
      let* media_session := create_media_session ci file_id in
      do* update_media_sessions ci (<[dc_id file_id := media_session]>) in
      ret media_session
  | Some s => ret s
  end.

(** *** [get_location] *)

Definition get_location (file_id : FileId) : Location :=
  match file_type file_id with
  | CHAT_PHOTO =>
      let peer :=
        if chat_id file_id >? 0 then
          InputPeerUser (chat_id file_id) (chat_access_hash file_id)
        else if chat_access_hash file_id =? 0 then
          InputPeerChat (- chat_id file_id)
        else
          InputPeerChannel (get_channel_id P (chat_id file_id))
            (chat_access_hash file_id) in
      InputPeerPhotoFileLocation peer (media_id file_id)
        (bool_decide (thumbnail_source file_id = CHAT_PHOTO_BIG))
  | PHOTO =>
      InputPhotoFileLocation (media_id file_id) (access_hash file_id)
        (file_reference file_id) (thumbnail_size file_id)
  | _ =>
      InputDocumentFileLocation (media_id file_id) (access_hash file_id)
        (file_reference file_id) (thumbnail_size file_id)
  end.

(** *** [yield_file] *)

(** The [elif] chain that slices and yields one non-empty chunk; the
    source writes it out once for fetched chunks and once for decrypted
    CDN chunks. *)
Definition yield_part (first_part_cut last_part_cut part_count current_part : Z)
  (chunk : bytes) : M unit :=
  if part_count =? 1 then
    yield_ (py_slice (Some first_part_cut) (Some last_part_cut) chunk)
  else if current_part =? 1 then
    yield_ (py_slice (Some first_part_cut) None chunk)
  else if current_part =? part_count then
    yield_ (py_slice None (Some last_part_cut) chunk)
  else
    yield_ chunk.

(** [r.bytes]: a redirect has no such attribute. *)
Definition getattr_bytes (r : upload_File) : M bytes :=
  match r with
  | File b => ret b
  | FileCdnRedirect _ _ _ _ => raise AttributeError
  end.

(** One iteration of the loop over a direct [upload.File]; the loop
    variables are [r], [current_part] and [offset]. *)
Definition file_loop_body (media_session : Session) (location : Location)
  (first_part_cut last_part_cut part_count chunk_size : Z)
  (s : upload_File * Z * Z) : M (control (upload_File * Z * Z)) :=
  let '(r, current_part, offset) := s in
  let* chunk := getattr_bytes r in
  if is_empty chunk then ret Break
  else
    do* yield_part first_part_cut last_part_cut part_count current_part chunk in
    let current_part := current_part + 1 in
    let offset := offset + chunk_size in
    if current_part >? part_count then ret Break
    else
      let* r := invoke_GetFile media_session location offset chunk_size in
      ret (Continue (r, current_part, offset)).

(** [CDNFileHashMismatch.check(cond, msg)] raises the error when [cond]
    is false. *)
Definition CDNFileHashMismatch_check (cond : bool) : M unit :=
  if cond then ret tt else raise CDNFileHashMismatch.

(** [for i, h in enumerate(hashes): ...], from index [i] on. *)
Fixpoint check_hashes (i : Z) (hashes : list FileHash)
  (decrypted_chunk : bytes) : M unit :=
  match hashes with
  | [] => ret tt
  | h :: hashes' =>
      let cdn_chunk :=
        py_slice (Some (fh_limit h * i)) (Some (fh_limit h * (i + 1)))
          decrypted_chunk in
      do* CDNFileHashMismatch_check
            (bool_decide (fh_hash h = sha256 P cdn_chunk)) in
      check_hashes (i + 1) hashes' decrypted_chunk
  end.

(** [(offset // 16).to_bytes(4, "big")]. *)
Definition counter_bytes (offset : Z) : M bytes :=
  match to_bytes_4_big (offset / 16) with
  | Some b => ret b
  | None => raise OverflowError
  end.

(** [aes.ctr256_decrypt(chunk, key, bytearray(iv[:-4] + counter))]. *)
Definition decrypt_chunk (encryption_key encryption_iv counter chunk : bytes)
  : bytes :=
  ctr256_decrypt P chunk encryption_key
    (py_slice None (Some (-4)) encryption_iv ++ counter).

(** One iteration of the loop over a CDN redirect; the loop variables are
    [current_part] and [offset]. *)
Definition cdn_loop_body (media_session cdn_session : Session)
  (file_token encryption_key encryption_iv : bytes)
  (first_part_cut last_part_cut part_count chunk_size : Z)
  (s : Z * Z) : M (control (Z * Z)) :=
  let '(current_part, offset) := s in
  let* r2 := invoke_GetCdnFile cdn_session file_token offset chunk_size in
  match r2 with
  | CdnFileReuploadNeeded request_token =>
      let* reuploaded :=
        try_except
          (do* invoke_ReuploadCdnFile media_session file_token request_token in
           ret true)
          (fun e =>
             match e with
             | VolumeLocNotFound => Some (ret false)
             | _ => None
             end) in
      if reuploaded then ret (Continue (current_part, offset))
      else ret Break
  | CdnFile chunk =>
      let* counter := counter_bytes offset in
      let decrypted_chunk :=
        decrypt_chunk encryption_key encryption_iv counter chunk in
      let* hashes := invoke_GetCdnFileHashes media_session file_token offset in
      do* check_hashes 0 hashes decrypted_chunk in
      if is_empty decrypted_chunk then ret Break
      else
        do* yield_part first_part_cut last_part_cut part_count current_part
              decrypted_chunk in
        let current_part := current_part + 1 in
        let offset := offset + chunk_size in
        if current_part >? part_count then ret Break
        else ret (Continue (current_part, offset))
  end.

(** The branch taken on an [upload.FileCdnRedirect]. *)
Definition cdn_branch (fuel : nat) (ci : Z) (media_session : Session)
  (file_id : FileId) (cdn_dc_id : Z)
  (file_token encryption_key encryption_iv : bytes)
  (offset first_part_cut last_part_cut part_count chunk_size current_part : Z)
  : M unit :=
  do* cdn_count_incr (index file_id) in
  let* test_mode := client_attr ci storage_test_mode in
  let* auth_key := Auth_create ci cdn_dc_id test_mode in
  let* test_mode := client_attr ci storage_test_mode in
  let* cdn_session := new_Session ci cdn_dc_id auth_key test_mode true true in
  try_finally
    (try_except
       (do* Session_start cdn_session in
        while_true fuel
          (cdn_loop_body media_session cdn_session file_token encryption_key
             encryption_iv first_part_cut last_part_cut part_count chunk_size)
          (current_part, offset))
       (fun e => if isinstance_Exception e then Some (raise e) else None))
    (Session_stop cdn_session).

(** The body of the outer [try]: the first fetch and the loop it selects. *)
Definition stream_body (fuel : nat) (ci : Z) (media_session : Session)
  (file_id : FileId) (location : Location)
  (offset first_part_cut last_part_cut part_count chunk_size current_part : Z)
  : M unit :=
  let* r := invoke_GetFile media_session location offset chunk_size in
  match r with
  | File _ =>
      while_true fuel
        (file_loop_body media_session location first_part_cut last_part_cut
           part_count chunk_size)
        (r, current_part, offset)
  | FileCdnRedirect cdn_dc_id file_token encryption_key encryption_iv =>
      cdn_branch fuel ci media_session file_id cdn_dc_id file_token
        encryption_key encryption_iv offset first_part_cut last_part_cut
        part_count chunk_size current_part
  end.

(** The [except] clauses of the outer [try], in their order. *)
Definition stream_handler (ci : Z) (media_session : Session)
  (file_id : FileId) (e : exn) : option (M unit) :=
  match e with
  | TimeoutError | AttributeError => Some (ret tt)
  | _ =>
      if isinstance_OSError e then
        Some (do* update_media_sessions ci (delete (dc_id file_id)) in
              do* Session_stop media_session in
              raise e)
      else None
  end.

(** [yield_file].  The body of an async generator starts when the
    consumer asks for the first chunk: a consumer that asks for none
    ([demand] is [Some 0]) runs nothing. *)
Definition yield_file (fuel : nat) (file_id : FileId)
  (offset first_part_cut last_part_cut part_count chunk_size : Z) : M unit :=
  fun st =>
    match demand st with
    | Some O => (Return tt, st)
    | _ =>
        (let ci := index file_id in
         do* client_attr ci (fun c => c) in
         do* work_loads_add ci 1 in
         let* media_session := generate_media_session ci file_id in
         let current_part := 1 in
         let location := get_location file_id in
         try_finally
           (try_except
              (stream_body fuel ci media_session file_id location offset
                 first_part_cut last_part_cut part_count chunk_size
                 current_part)
              (stream_handler ci media_session file_id))
           (work_loads_add ci (-1))) st
    end.

End ByteStreamer.

(** ** Describing runs

    The definitions below are not part of the program: they name what a
    run leaves in the trace, so that the properties can speak about
    it. *)

(** A call that did not return. *)
Definition failed {A : Type} (r : result A) : Prop :=
  match r with Return _ => False | _ => True end.

(** The outcome of a computation that stops at a failed call. *)
Definition recast {A B : Type} (r : result A) : result B :=
  match r with Raise e => Raise e | _ => Diverge end.

(** [m] relates every state it starts in to the state it ends in by [R]. *)
Definition preserves {A : Type} (R : state -> state -> Prop) (m : M A) : Prop :=
  forall st r st', m st = (r, st') -> R st st'.

(** The run appended a trace whose events all satisfy [K]. *)
Definition extends_by (K : event -> Prop) (st st' : state) : Prop :=
  exists t, trace st' = trace st ++ t /\ Forall K t.

(** The events of session management, and the events of streaming. *)
Definition session_event (e : event) : Prop :=
  match e with
  | EvAuthCreate _ _ _ _ | EvSessionStart _ _ | EvSessionStop _
  | EvExportAuthorization _ _ _ | EvImportAuthorization _ _ _ _ => True
  | _ => False
  end.

(** The events of session management other than the export and the
    import of an authorization. *)
Definition setup_event (e : event) : Prop :=
  match e with
  | EvAuthCreate _ _ _ _ | EvSessionStart _ _ | EvSessionStop _ => True
  | _ => False
  end.

Definition stream_event (e : event) : Prop :=
  match e with
  | EvGetFileIds _ _ _ | EvExportAuthorization _ _ _
  | EvImportAuthorization _ _ _ _ => False
  | _ => True
  end.

(** Nothing but sessions, the trace, the consumer and [cdn_count]
    changed: [work_loads] and the cache are the same, and every client is
    still there with the same storage. *)
Definition clients_kept (st st' : state) : Prop :=
  forall ci c,
    multi_clients st !! ci = Some c ->
    exists c',
      multi_clients st' !! ci = Some c'
      /\ storage_dc_id c' = storage_dc_id c
      /\ storage_test_mode c' = storage_test_mode c
      /\ storage_auth_key c' = storage_auth_key c.

Definition same_globals (st st' : state) : Prop :=
  work_loads st' = work_loads st
  /\ cached_file_ids st' = cached_file_ids st
  /\ clients_kept st st'.

(** The consumer and [cdn_count] are as they were. *)
Definition same_consumer (st st' : state) : Prop :=
  demand st' = demand st /\ cdn_count st' = cdn_count st.

(** How [yield_file] ends once the body of its [try] has ended with
    outcome [rb] in state [st2]: the [except] clauses, then the [finally]
    clause that sets [work_loads] back to [w]. *)
Definition stream_finish (ci : Z) (media_session : Session)
  (file_id : FileId) (w : dict Z) (rb : result unit) (st2 : state)
  : result unit * state :=
  match rb with
  | Diverge => (Diverge, st2)
  | Return _ => (Return tt, set_work_loads w st2)
  | Raise e =>
      match e with
      | TimeoutError | AttributeError => (Return tt, set_work_loads w st2)
      | _ =>
          if isinstance_OSError e then
            (Raise e,
             set_work_loads w
               (log (EvSessionStop media_session)
                  (set_started (started st2 ∖ {[session_id media_session]})
                     (set_multi_clients
                        (alter
                           (fun c =>
                              mkClient
                                (delete (dc_id file_id) (media_sessions c))
                                (storage_dc_id c) (storage_test_mode c)
                                (storage_auth_key c))
                           ci (multi_clients st2)) st2))))
          else (Raise e, set_work_loads w st2)
      end
  end.

(** The slicing policy in the words of the specification: the slice of
    part number [current_part] out of [part_count]. *)
Definition part_slice (first_part_cut last_part_cut part_count current_part : Z)
  (chunk : bytes) : bytes :=
  if part_count =? 1 then
    py_slice (Some first_part_cut) (Some last_part_cut) chunk
  else if current_part =? 1 then py_slice (Some first_part_cut) None chunk
  else if current_part =? part_count then
    py_slice None (Some last_part_cut) chunk
  else chunk.

(** Every declared hash, from index [i] on, is the SHA-256 of its slice of
    the decrypted chunk. *)
Fixpoint hashes_verified (P : Primitives) (i : Z) (hashes : list FileHash)
  (decrypted_chunk : bytes) : bool :=
  match hashes with
  | [] => true
  | h :: hashes' =>
      bool_decide
        (fh_hash h =
         sha256 P (py_slice (Some (fh_limit h * i))
                     (Some (fh_limit h * (i + 1))) decrypted_chunk))
      && hashes_verified P (i + 1) hashes' decrypted_chunk
  end.

(** The results of the [ImportAuthorization] calls of a trace, in order. *)
Fixpoint import_outcomes (t : list event) : list (result unit) :=
  match t with
  | [] => []
  | EvImportAuthorization _ _ _ r :: t' => r :: import_outcomes t'
  | _ :: t' => import_outcomes t'
  end.

(** Every [ImportAuthorization] call of a trace comes right after an
    [ExportAuthorization] call that returned, and imports what that call
    exported. *)
Fixpoint imports_follow_exports (t : list event) : Prop :=
  match t with
  | [] => True
  | EvExportAuthorization _ _ (Return ex) :: EvImportAuthorization _ id b _ :: t' =>
      id = ea_id ex /\ b = ea_bytes ex /\ imports_follow_exports t'
  | EvImportAuthorization _ _ _ _ :: _ => False
  | _ :: t' => imports_follow_exports t'
  end.

(** What [n] rounds of the import loop can leave in the trace, with the
    outcome of the loop. *)
Inductive import_run (ci : Z) (file_id : FileId) (s : Session)
  : nat -> list event -> result unit -> Prop :=
| import_run_exhausted :
    import_run ci file_id s O [EvSessionStop s] (Raise AuthBytesInvalid)
| import_run_export_failed n rx :
    failed rx ->
    import_run ci file_id s (Datatypes.S n)
      [EvExportAuthorization ci (dc_id file_id) rx] (recast rx)
| import_run_imported n ex :
    import_run ci file_id s (Datatypes.S n)
      [EvExportAuthorization ci (dc_id file_id) (Return ex);
       EvImportAuthorization s (ea_id ex) (ea_bytes ex) (Return tt)]
      (Return tt)
| import_run_import_failed n ex ri :
    failed ri -> ri <> Raise AuthBytesInvalid ->
    import_run ci file_id s (Datatypes.S n)
      [EvExportAuthorization ci (dc_id file_id) (Return ex);
       EvImportAuthorization s (ea_id ex) (ea_bytes ex) ri]
      (recast ri)
| import_run_retry n ex t r :
    import_run ci file_id s n t r ->
    import_run ci file_id s (Datatypes.S n)
      (EvExportAuthorization ci (dc_id file_id) (Return ex)
       :: EvImportAuthorization s (ea_id ex) (ea_bytes ex)
            (Raise AuthBytesInvalid)
       :: t)
      r.

(** Rounds of the import loop in which the import is refused: each
    exports the authorization and imports what it exported on session
    [s], which answers [AuthBytesInvalid]; one round for each exported
    authorization of [exs]. *)
Fixpoint refused_rounds (ci : Z) (file_id : FileId) (s : Session)
  (exs : list ExportedAuthorization) : list event :=
  match exs with
  | [] => []
  | ex :: exs' =>
      EvExportAuthorization ci (dc_id file_id) (Return ex)
      :: EvImportAuthorization s (ea_id ex) (ea_bytes ex)
           (Raise AuthBytesInvalid)
      :: refused_rounds ci file_id s exs'
  end.

(** What a [while True] loop leaves in the trace, from what one iteration
    ([iter]) can leave. *)
Inductive loop_run {S : Type}
  (iter : S -> list event -> result (control S) -> Prop)
  : S -> list event -> result unit -> Prop :=
| loop_run_fuel s : loop_run iter s [] Diverge
| loop_run_break s t :
    iter s t (Return Break) -> loop_run iter s t (Return tt)
| loop_run_raise s t e :
    iter s t (Raise e) -> loop_run iter s t (Raise e)
| loop_run_diverge s t :
    iter s t Diverge -> loop_run iter s t Diverge
| loop_run_continue s t s' t' r :
    iter s t (Return (Continue s')) -> loop_run iter s' t' r ->
    loop_run iter s (t ++ t') r.

Section CdnRuns.

Context (P : Primitives) (media_session cdn_session : Session)
  (file_token encryption_key encryption_iv : bytes)
  (first_part_cut last_part_cut part_count chunk_size : Z).

(** The rest of an iteration of the CDN loop once the hashes [hs] of the
    decrypted chunk [dec] have arrived: the check of the hashes, and the
    slice that is yielded. *)
Inductive cdn_checked (cp off : Z) (hs : list FileHash) (dec : bytes)
  : list event -> result (control (Z * Z)) -> Prop :=
| cdn_checked_mismatch :
    hashes_verified P 0 hs dec = false ->
    cdn_checked cp off hs dec [] (Raise CDNFileHashMismatch)
| cdn_checked_empty :
    hashes_verified P 0 hs dec = true -> dec = [] ->
    cdn_checked cp off hs dec [] (Return Break)
| cdn_checked_closed :
    hashes_verified P 0 hs dec = true -> dec <> [] ->
    cdn_checked cp off hs dec [] (Raise GeneratorExit)
| cdn_checked_yield_closed :
    hashes_verified P 0 hs dec = true -> dec <> [] ->
    cdn_checked cp off hs dec
      [EvYield (part_slice first_part_cut last_part_cut part_count cp dec)]
      (Raise GeneratorExit)
| cdn_checked_yield_last :
    hashes_verified P 0 hs dec = true -> dec <> [] ->
    part_count < cp + 1 ->
    cdn_checked cp off hs dec
      [EvYield (part_slice first_part_cut last_part_cut part_count cp dec)]
      (Return Break)
| cdn_checked_yield_next :
    hashes_verified P 0 hs dec = true -> dec <> [] ->
    cp + 1 <= part_count ->
    cdn_checked cp off hs dec
      [EvYield (part_slice first_part_cut last_part_cut part_count cp dec)]
      (Return (Continue (cp + 1, off + chunk_size))).

(** What one iteration of the CDN loop can leave in the trace, from the
    loop variables [(current_part, offset)]. *)
Inductive cdn_iter
  : Z * Z -> list event -> result (control (Z * Z)) -> Prop :=
| cdn_iter_fetch_failed cp off rg :
    failed rg ->
    cdn_iter (cp, off)
      [EvGetCdnFile cdn_session file_token off chunk_size rg] (recast rg)
| cdn_iter_reuploaded cp off rt :
    cdn_iter (cp, off)
      [EvGetCdnFile cdn_session file_token off chunk_size
         (Return (CdnFileReuploadNeeded rt));
       EvReuploadCdnFile media_session file_token rt (Return tt)]
      (Return (Continue (cp, off)))
| cdn_iter_volume_not_found cp off rt :
    cdn_iter (cp, off)
      [EvGetCdnFile cdn_session file_token off chunk_size
         (Return (CdnFileReuploadNeeded rt));
       EvReuploadCdnFile media_session file_token rt
         (Raise VolumeLocNotFound)]
      (Return Break)
| cdn_iter_reupload_failed cp off rt rr :
    failed rr -> rr <> Raise VolumeLocNotFound ->
    cdn_iter (cp, off)
      [EvGetCdnFile cdn_session file_token off chunk_size
         (Return (CdnFileReuploadNeeded rt));
       EvReuploadCdnFile media_session file_token rt rr]
      (recast rr)
| cdn_iter_overflow cp off b :
    to_bytes_4_big (off / 16) = None ->
    cdn_iter (cp, off)
      [EvGetCdnFile cdn_session file_token off chunk_size (Return (CdnFile b))]
      (Raise OverflowError)
| cdn_iter_hashes_failed cp off b counter rh :
    to_bytes_4_big (off / 16) = Some counter ->
    failed rh ->
    cdn_iter (cp, off)
      [EvGetCdnFile cdn_session file_token off chunk_size (Return (CdnFile b));
       EvGetCdnFileHashes media_session file_token off rh]
      (recast rh)
| cdn_iter_checked cp off b counter hs t r :
    to_bytes_4_big (off / 16) = Some counter ->
    cdn_checked cp off hs
      (decrypt_chunk P encryption_key encryption_iv counter b) t r ->
    cdn_iter (cp, off)
      (EvGetCdnFile cdn_session file_token off chunk_size (Return (CdnFile b))
       :: EvGetCdnFileHashes media_session file_token off (Return hs)
       :: t)
      r.

End CdnRuns.

(** The chunks a stream of at most [n] parts fetches from [offset] on,
    when the upstream holds [content] at every offset: the fetch of an
    empty chunk ends the stream. *)
Fixpoint fetched_chunks (content : Z -> bytes) (chunk_size : Z) (n : nat)
  (offset : Z) : list bytes :=
  match n with
  | O => []
  | Datatypes.S n' =>
      if is_empty (content offset) then []
      else content offset
           :: fetched_chunks content chunk_size n' (offset + chunk_size)
  end.

(** The slices of the parts from number [current_part] on. *)
Fixpoint sliced_from (first_part_cut last_part_cut part_count current_part : Z)
  (chunks : list bytes) : list bytes :=
  match chunks with
  | [] => []
  | c :: chunks' =>
      part_slice first_part_cut last_part_cut part_count current_part c
      :: sliced_from first_part_cut last_part_cut part_count
           (current_part + 1) chunks'
  end.

(** The offsets of the [GetFile] calls of a trace, and of its
    [GetCdnFile] calls, in order. *)
Fixpoint file_offsets (t : list event) : list Z :=
  match t with
  | [] => []
  | EvGetFile _ _ offset _ _ :: t' => offset :: file_offsets t'
  | _ :: t' => file_offsets t'
  end.

Fixpoint cdn_offsets (t : list event) : list Z :=
  match t with
  | [] => []
  | EvGetCdnFile _ _ offset _ _ :: t' => offset :: cdn_offsets t'
  | _ :: t' => cdn_offsets t'
  end.

(** The slicing claim, for a stream of [part_count] parts from [offset]
    over an upstream that holds [content] at every offset: what was
    yielded ([yields]) and where the chunks were fetched ([offsets]).
    The yields are the slices of the chunks fetched up to the first empty
    one; the [k]-th fetch is at [offset + k * chunk_size]; an empty chunk
    at part [j] leaves at most [j] yields; and when none of the
    [part_count] chunks at these offsets is empty there are [part_count]
    yields: the one chunk cut on both sides, or the first chunk cut at
    the front, the middle chunks as they are, and the last chunk cut at
    the end. *)
Definition sliced_stream (content : Z -> bytes)
  (offset first_part_cut last_part_cut part_count chunk_size : Z)
  (yields : list bytes) (offsets : list Z) : Prop :=
  yields =
    sliced_from first_part_cut last_part_cut part_count 1
      (fetched_chunks content chunk_size (Z.to_nat part_count) offset)
  /\ (forall k o, offsets !! k = Some o -> o = offset + Z.of_nat k * chunk_size)
  /\ (forall j : nat,
        content (offset + Z.of_nat j * chunk_size) = [] ->
        (length yields <= j)%nat)
  /\ ((forall k : nat,
         (k < Z.to_nat part_count)%nat ->
         content (offset + Z.of_nat k * chunk_size) <> []) ->
      length yields = Z.to_nat part_count
      /\ (part_count = 1 ->
          yields =
            [py_slice (Some first_part_cut) (Some last_part_cut)
               (content offset)])
      /\ (1 < part_count ->
          yields =
            py_slice (Some first_part_cut) None (content offset)
            :: map (fun k => content (offset + Z.of_nat k * chunk_size))
                 (seq 1 (Z.to_nat part_count - 2))
            ++ [py_slice None (Some last_part_cut)
                  (content (offset + (part_count - 1) * chunk_size))])).

(** The plain text of the CDN chunk at [offset], when the CDN node holds
    [cipher] at every offset. *)
Definition cdn_plain (P : Primitives) (encryption_key encryption_iv : bytes)
  (cipher : Z -> bytes) (offset : Z) : bytes :=
  match to_bytes_4_big (offset / 16) with
  | Some counter =>
      decrypt_chunk P encryption_key encryption_iv counter (cipher offset)
  | None => []
  end.

(** Kinds of events. *)
Definition cdn_fetch (e : event) : Prop :=
  match e with EvGetCdnFile _ _ _ _ _ => True | _ => False end.

Definition file_fetch (e : event) : Prop :=
  match e with EvGetFile _ _ _ _ _ => True | _ => False end.

Definition direct_event (e : event) : Prop :=
  match e with EvGetFile _ _ _ _ _ | EvYield _ => True | _ => False end.

(** The part of a run that goes through the CDN loop, when there is one:
    the events before the loop hold no CDN fetch, the redirect that
    opened the branch is the only one in the trace, and the events after
    the loop ([t_end]) are the stop of the CDN session and what the
    outcome [rl] of the loop leads to. *)
Definition cdn_run_shape (P : Primitives) (fc lc pc cs offset : Z)
  (ms : Session) (t : list event) (r : result unit)
  (finish : result unit -> list event -> result unit -> Prop) : Prop :=
  Forall (fun e => ~ cdn_fetch e) t
  \/ exists t0 tok key iv cdn t_loop rl t_end,
       t = t0 ++ t_loop ++ t_end
       /\ Forall (fun e => ~ cdn_fetch e) t0
       /\ (forall ms' loc' o' l' dc' tok' key' iv',
             In (EvGetFile ms' loc' o' l'
                   (Return (FileCdnRedirect dc' tok' key' iv'))) t ->
             ms' = ms /\ tok' = tok /\ key' = key /\ iv' = iv)
       /\ loop_run (cdn_iter P ms cdn tok key iv fc lc pc cs)
            (1, offset) t_loop rl
       /\ ((rl = Diverge /\ t_end = [] /\ r = Diverge)
           \/ (rl <> Diverge
               /\ exists t_fin,
                    t_end = EvSessionStop cdn :: t_fin
                    /\ finish rl t_fin r)).


(** How the [except] clauses of [yield_file] end a run whose body ended
    with [rb]: the events they add and the outcome of the generator. *)
Definition stream_end (media_session : Session) (rb : result unit)
  (t_fin : list event) (r : result unit) : Prop :=
  match rb with
  | Return _ => t_fin = [] /\ r = Return tt
  | Raise e =>
      match e with
      | TimeoutError | AttributeError => t_fin = [] /\ r = Return tt
      | _ =>
          if isinstance_OSError e
          then t_fin = [EvSessionStop media_session] /\ r = Raise e
          else t_fin = [] /\ r = Raise e
      end
  | Diverge => t_fin = [] /\ r = Diverge
  end.

(** ** Interleaved calls

    The methods are coroutines: a call runs until it awaits an upstream
    answer, and other calls run meanwhile.  A call is a task that is
    stepped from one await to the next; a schedule says which task runs
    next. *)



Section Tasks.

Context (U : Upstream).



End Tasks.




(** The session that client [ci] has registered for data center [dc]:
    [multi_clients[ci].media_sessions.get(dc)]. *)
Definition session_of (st : state) (ci dc : Z) : option Session :=
  match multi_clients st !! ci with
  | Some c => media_sessions c !! dc
  | None => None
  end.

(** The answer to the first [GetFile] call of a trace, and whether it
    is a redirect to a CDN. *)
Fixpoint first_fetch (t : list event) : option (result upload_File) :=
  match t with
  | [] => None
  | EvGetFile _ _ _ _ r :: _ => Some r
  | _ :: t' => first_fetch t'
  end.

Definition is_redirect (r : option (result upload_File)) : bool :=
  match r with
  | Some (Return (FileCdnRedirect _ _ _ _)) => true
  | _ => false
  end.

(** From [a] to [b] the trace grew and [cdn_count] stayed. *)
Definition counted (a b : state) : Prop :=
  cdn_count b = cdn_count a /\ exists t, trace b = trace a ++ t.

(** [int.from_bytes(b, "big")]: the number a big-endian byte string
    stands for. *)
Definition from_bytes_big (b : bytes) : Z :=
  fold_left (fun acc x => acc * 256 + Z.of_N (Byte.to_N x)) b 0.

Section FileRuns.

Context (media_session : Session) (location : Location)
  (first_part_cut last_part_cut part_count chunk_size : Z).

(** What one iteration of the loop over a direct download can leave in
    the trace, from the loop variables [(r, current_part, offset)]. *)
Inductive file_iter
  : upload_File * Z * Z -> list event
    -> result (control (upload_File * Z * Z)) -> Prop :=
| file_iter_redirect dc tok key iv cp off :
    file_iter (FileCdnRedirect dc tok key iv, cp, off) []
      (Raise AttributeError)
| file_iter_empty cp off :
    file_iter (File [], cp, off) [] (Return Break)
| file_iter_closed b cp off :
    b <> [] ->
    file_iter (File b, cp, off) [] (Raise GeneratorExit)
| file_iter_yield_closed b cp off :
    b <> [] ->
    file_iter (File b, cp, off)
      [EvYield (part_slice first_part_cut last_part_cut part_count cp b)]
      (Raise GeneratorExit)
| file_iter_last b cp off :
    b <> [] -> part_count < cp + 1 ->
    file_iter (File b, cp, off)
      [EvYield (part_slice first_part_cut last_part_cut part_count cp b)]
      (Return Break)
| file_iter_fetch_failed b cp off rg :
    b <> [] -> cp + 1 <= part_count -> failed rg ->
    file_iter (File b, cp, off)
      [EvYield (part_slice first_part_cut last_part_cut part_count cp b);
       EvGetFile media_session location (off + chunk_size) chunk_size rg]
      (recast rg)
| file_iter_next b cp off r' :
    b <> [] -> cp + 1 <= part_count ->
    file_iter (File b, cp, off)
      [EvYield (part_slice first_part_cut last_part_cut part_count cp b);
       EvGetFile media_session location (off + chunk_size) chunk_size
         (Return r')]
      (Return (Continue (r', cp + 1, off + chunk_size))).

End FileRuns.

(** What the body of the [try] of [yield_file] leaves in the trace after
    its first fetch, answered by [rg], with the outcome of the body: the
    loop over a direct download, or the CDN branch (the setup of the CDN
    session, the CDN loop, the stop of the session), or nothing when the
    fetch failed. *)
Definition body_shape (P : Primitives) (fc lc pc cs offset : Z)
  (ms : Session) (loc : Location) (rg : result upload_File)
  (t : list event) (rb : result unit) : Prop :=
  match rg with
  | Return (File b) =>
      loop_run (file_iter ms loc fc lc pc cs) (File b, 1, offset) t rb
  | Return (FileCdnRedirect dc tok key iv) =>
      Forall setup_event t
      \/ exists t0 cdn t_loop rl t_end,
           t = t0 ++ t_loop ++ t_end
           /\ Forall setup_event t0
           /\ loop_run (cdn_iter P ms cdn tok key iv fc lc pc cs)
                (1, offset) t_loop rl
           /\ ((rl = Diverge /\ t_end = [] /\ rb = Diverge)
               \/ (rl <> Diverge /\ t_end = [EvSessionStop cdn] /\ rb = rl))
  | _ => t = [] /\ rb = recast rg
  end.

(** What a run of [yield_file] leaves in the trace, with its outcome:
    calls of session management only, when the stream was not reached;
    or those, the first fetch, the body of the [try] and what the
    [except] clauses add. *)
Definition stream_shape (P : Primitives) (file_id : FileId)
  (offset fc lc pc cs : Z) (t : list event) (r : result unit) : Prop :=
  Forall session_event t
  \/ exists ms ts rg t_body rb t_fin,
       t = ts
           ++ EvGetFile ms (get_location P file_id) offset cs rg
              :: t_body ++ t_fin
       /\ Forall session_event ts
       /\ body_shape P fc lc pc cs offset ms (get_location P file_id) rg
            t_body rb
       /\ stream_end ms rb t_fin r.

(** The [GetFile] requests of a trace: session, location, offset and
    limit. *)
Fixpoint file_requests (t : list event)
  : list (Session * Location * Z * Z) :=
  match t with
  | [] => []
  | EvGetFile s loc offset limit _ :: t' =>
      (s, loc, offset, limit) :: file_requests t'
  | _ :: t' => file_requests t'
  end.

(** * The upload handler: [private_receive_handler] of
      [WebStreamer/bot/plugins/stream.py]

    The handler is a coroutine without state of its own: it calls its
    collaborators one after the other and decides on their answers.  It
    is embedded in an exception monad over the history of its calls; the
    collaborators answer from that history. *)

(** What a call can raise: [FloodWait], with its [value], or another
    exception, by the name of its class. *)
Inductive bot_exn : Type :=
| FloodWaitOf (value : Z)
| OtherError (name : string).

Inductive outcome (A : Type) : Type :=
| Done (a : A)
| Failed (e : bot_exn).
Arguments Done {A} a.
Arguments Failed {A} e.

(** The values of a file-info dict. *)
Inductive pyval : Type :=
| PyNone
| PyBool (b : bool)
| PyInt (z : Z)
| PyStr (s : string).

Definition file_info_dict : Type := gmap string pyval.

Record User : Type := mkUser {
  user_id : Z;
  first_name : string }.

(** A message, as far as the handler reads it. *)
Record Message : Type := mkMessage {
  message_id : Z;
  from_user : User }.

Inductive ParseMode : Type := HTML | MARKDOWN.

(** The [Language] object of a message, and a reply markup: the handler
    passes them on as they are. *)
Inductive Lang : Type := LangOf (code : string).
Inductive Markup : Type := MarkupOf (repr : string).

(** One call of the handler, with its answer. *)
Inductive bot_event : Type :=
| BIsUserBanned (m : Message) (lang : Lang) (r : outcome bool)
| BIsUserExist (m : Message) (r : outcome unit)
| BIsUserAcceptedTos (m : Message) (r : outcome bool)
| BIsUserJoined (m : Message) (lang : Lang) (r : outcome bool)
| BGetFileInfo (m : Message) (r : outcome file_info_dict)
| BAddFile (file_info : file_info_dict) (r : outcome string)
| BGetFileIds (client : bool) (db_id : string) (r : outcome FileId)
| BGenLink (m : Message) (_id : string) (name : list string)
    (r : outcome (Markup * string))
| BReplyText (m : Message) (text : string) (parse_mode : ParseMode)
    (disable_web_page_preview : bool) (reply_markup : Markup) (quote : bool)
    (r : outcome unit)
| BPrint (text : string)
| BSleep (seconds : Z) (r : outcome unit)
| BSendMessage (chat_id : Z) (text : string)
    (disable_web_page_preview : bool) (parse_mode : ParseMode)
    (r : outcome unit).

(** The settings and constants the handler reads: [Var.TOS],
    [Var.FORCE_UPDATES_CHANNEL], [Var.BIN_CHANNEL], [StreamBot.username],
    [StreamBot.fname], and the constructor [Language]. *)
Record Config : Type := mkConfig {
  Var_TOS : bool;
  Var_FORCE_UPDATES_CHANNEL : bool;
  Var_BIN_CHANNEL : Z;
  StreamBot_username : string;
  StreamBot_fname : string;
  Language : Message -> Lang }.

(** The collaborators, as functions of the calls so far. *)
Record Collaborators : Type := mkCollaborators {
  co_is_user_banned : list bot_event -> Message -> Lang -> outcome bool;
  co_is_user_exist : list bot_event -> Message -> outcome unit;
  co_is_user_accepted_tos : list bot_event -> Message -> outcome bool;
  co_is_user_joined : list bot_event -> Message -> Lang -> outcome bool;
  co_get_file_info : list bot_event -> Message -> outcome file_info_dict;
  co_add_file : list bot_event -> file_info_dict -> outcome string;
  co_get_file_ids : list bot_event -> bool -> string -> outcome FileId;
  co_gen_link :
    list bot_event -> Message -> string -> list string
    -> outcome (Markup * string);
  co_reply_text :
    list bot_event -> Message -> string -> ParseMode -> bool -> Markup
    -> bool -> outcome unit;
  co_sleep : list bot_event -> Z -> outcome unit;
  co_send_message :
    list bot_event -> Z -> string -> bool -> ParseMode -> outcome unit }.

Definition B (A : Type) : Type :=
  list bot_event -> outcome A * list bot_event.

Definition bot_ret {A : Type} (a : A) : B A := fun h => (Done a, h).

Definition bot_bind {A B' : Type} (m : B A) (k : A -> B B') : B B' :=
  fun h =>
    match m h with
    | (Done a, h') => k a h'
    | (Failed e, h') => (Failed e, h')
    end.

Notation "'let!' x ':=' m 'in' k" := (bot_bind m (fun x => k))
  (at level 10, x name, m at level 100, k at level 200).
Notation "'do!' m 'in' k" := (bot_bind m (fun _ => k))
  (at level 10, m at level 100, k at level 200).

(** A call: the collaborator answers from the history, and the call with
    its answer is appended to it. *)
Definition call {A : Type} (ask : list bot_event -> outcome A)
  (ev : outcome A -> bot_event) : B A :=
  fun h => let r := ask h in (r, h ++ [ev r]).

(** [try: body except FloodWait as e: handler(e.value)]. *)
Definition try_except_FloodWait {A : Type} (body : B A) (handler : Z -> B A)
  : B A :=
  fun h =>
    match body h with
    | (Failed (FloodWaitOf value), h') => handler value h'
    | other => other
    end.

(** [str(n)] of an integer. *)
Definition str_of_Z (n : Z) : string := NilZero.string_of_int (Z.to_int n).

Section Handler.

Context (V : Config) (C : Collaborators).

(** The body of the [try]. *)
Definition store_and_reply (message : Message) : B unit :=
  let! file_info :=
    call (fun h => co_get_file_info C h message) (BGetFileInfo message) in
  let file_info := <["ads" := PyBool true]> file_info in
  let! inserted_id :=
    call (fun h => co_add_file C h file_info) (BAddFile file_info) in
  do! call (fun h => co_get_file_ids C h false inserted_id)
        (BGetFileIds false inserted_id) in
  let! link :=
    call (fun h => co_gen_link C h message inserted_id
                     [StreamBot_username V; StreamBot_fname V])
      (BGenLink message inserted_id
         [StreamBot_username V; StreamBot_fname V]) in
  let '(reply_markup, Stream_Text) := link in
  call (fun h => co_reply_text C h message Stream_Text HTML true reply_markup
                   true)
    (BReplyText message Stream_Text HTML true reply_markup true).

(** The text sent to the bin channel. *)
Definition flood_notice (value : Z) (message : Message) : string :=
  "Gᴏᴛ FʟᴏᴏᴅWᴀɪᴛ ᴏғ " ++ str_of_Z value ++ "s from ["
  ++ first_name (from_user message) ++ "](tg://user?id="
  ++ str_of_Z (user_id (from_user message)) ++ ")

**𝚄𝚜𝚎𝚛 𝙸𝙳 :** `" ++ str_of_Z (user_id (from_user message)) ++ "`".

(** The [except FloodWait as e] clause. *)
Definition on_FloodWait (message : Message) (value : Z) : B unit :=
  do! (fun h =>
         (Done tt, h ++ [BPrint ("Sleeping for " ++ str_of_Z value ++ "s")])) in
  do! call (fun h => co_sleep C h value) (BSleep value) in
  call (fun h => co_send_message C h (Var_BIN_CHANNEL V)
                   (flood_notice value message) true MARKDOWN)
    (BSendMessage (Var_BIN_CHANNEL V) (flood_notice value message) true
       MARKDOWN).

Definition serve (message : Message) : B unit :=
  try_except_FloodWait (store_and_reply message) (on_FloodWait message).

(** From [if Var.FORCE_UPDATES_CHANNEL:] on. *)
Definition check_joined (message : Message) (lang : Lang) : B unit :=
  if Var_FORCE_UPDATES_CHANNEL V then
    let! joined :=
      call (fun h => co_is_user_joined C h message lang)
        (BIsUserJoined message lang) in
    if negb joined then bot_ret tt else serve message
  else serve message.

(** From [if Var.TOS:] on. *)
Definition check_tos (message : Message) (lang : Lang) : B unit :=
  if Var_TOS V then
    let! accepted :=
      call (fun h => co_is_user_accepted_tos C h message)
        (BIsUserAcceptedTos message) in
    if negb accepted then bot_ret tt else check_joined message lang
  else check_joined message lang.

Definition private_receive_handler (message : Message) : B unit :=
  let lang := Language V message in
  let! banned :=
    call (fun h => co_is_user_banned C h message lang)
      (BIsUserBanned message lang) in
  if banned then bot_ret tt
  else
    do! call (fun h => co_is_user_exist C h message) (BIsUserExist message) in
    check_tos message lang.

End Handler.

(** What an event of the handler raised, if it did, and whether it is a
    call of the body of the [try]. *)
Definition raised_of {A : Type} (r : outcome A) : option bot_exn :=
  match r with Done _ => None | Failed e => Some e end.

Definition raised (e : bot_event) : option bot_exn :=
  match e with
  | BIsUserBanned _ _ r => raised_of r
  | BIsUserExist _ r => raised_of r
  | BIsUserAcceptedTos _ r => raised_of r
  | BIsUserJoined _ _ r => raised_of r
  | BGetFileInfo _ r => raised_of r
  | BAddFile _ r => raised_of r
  | BGetFileIds _ _ r => raised_of r
  | BGenLink _ _ _ r => raised_of r
  | BReplyText _ _ _ _ _ _ r => raised_of r
  | BPrint _ => None
  | BSleep _ r => raised_of r
  | BSendMessage _ _ _ _ r => raised_of r
  end.

Definition in_try (e : bot_event) : bool :=
  match e with
  | BGetFileInfo _ _ | BAddFile _ _ | BGetFileIds _ _ _ | BGenLink _ _ _ _
  | BReplyText _ _ _ _ _ _ _ => true
  | _ => false
  end.

Section HandlerRuns.

Context (V : Config) (m : Message).

(** What the body of the [try] can leave in the history, with its
    outcome: its five calls in order, up to the first that fails, the id
    of the stored file passed on to [get_file_ids] and [gen_link], and
    the link and markup passed on to the reply. *)
Inductive try_run : list bot_event -> outcome unit -> Prop :=
| try_run_info e :
    try_run [BGetFileInfo m (Failed e)] (Failed e)
| try_run_add info e :
    try_run
      [BGetFileInfo m (Done info);
       BAddFile (<["ads" := PyBool true]> info) (Failed e)]
      (Failed e)
| try_run_ids info id e :
    try_run
      [BGetFileInfo m (Done info);
       BAddFile (<["ads" := PyBool true]> info) (Done id);
       BGetFileIds false id (Failed e)]
      (Failed e)
| try_run_link info id f e :
    try_run
      [BGetFileInfo m (Done info);
       BAddFile (<["ads" := PyBool true]> info) (Done id);
       BGetFileIds false id (Done f);
       BGenLink m id [StreamBot_username V; StreamBot_fname V] (Failed e)]
      (Failed e)
| try_run_reply info id f markup text rr :
    try_run
      [BGetFileInfo m (Done info);
       BAddFile (<["ads" := PyBool true]> info) (Done id);
       BGetFileIds false id (Done f);
       BGenLink m id [StreamBot_username V; StreamBot_fname V]
         (Done (markup, text));
       BReplyText m text HTML true markup true rr]
      rr.

(** What the [except FloodWait] clause leaves in the history. *)
Inductive flood_run (value : Z) : list bot_event -> outcome unit -> Prop :=
| flood_run_sleep e :
    flood_run value
      [BPrint ("Sleeping for " ++ str_of_Z value ++ "s");
       BSleep value (Failed e)]
      (Failed e)
| flood_run_notice rn :
    flood_run value
      [BPrint ("Sleeping for " ++ str_of_Z value ++ "s");
       BSleep value (Done tt);
       BSendMessage (Var_BIN_CHANNEL V) (flood_notice value m) true MARKDOWN
         rn]
      rn.

(** The [try] statement. *)
Inductive serve_run : list bot_event -> outcome unit -> Prop :=
| serve_run_plain t r :
    try_run t r -> (forall v, r <> Failed (FloodWaitOf v)) -> serve_run t r
| serve_run_flood t v tf r :
    try_run t (Failed (FloodWaitOf v)) -> flood_run v tf r ->
    serve_run (t ++ tf) r.

(** A check that a setting switches on or off: not called when off; when
    on, a failure or the answer no ends the run ([Some] of the outcome),
    and the answer yes lets it go on ([None]). *)
Inductive check_run (on : bool) (ev : outcome bool -> bot_event)
  : list bot_event -> option (outcome unit) -> Prop :=
| check_run_off : on = false -> check_run on ev [] None
| check_run_failed e :
    on = true -> check_run on ev [ev (Failed e)] (Some (Failed e))
| check_run_no :
    on = true -> check_run on ev [ev (Done false)] (Some (Done tt))
| check_run_yes : on = true -> check_run on ev [ev (Done true)] None.

(** What a run of the handler leaves in the history, with its outcome. *)
Inductive handler_run : list bot_event -> outcome unit -> Prop :=
| handler_run_ban_failed e :
    handler_run [BIsUserBanned m (Language V m) (Failed e)] (Failed e)
| handler_run_banned :
    handler_run [BIsUserBanned m (Language V m) (Done true)] (Done tt)
| handler_run_exist_failed e :
    handler_run
      [BIsUserBanned m (Language V m) (Done false);
       BIsUserExist m (Failed e)]
      (Failed e)
| handler_run_tos_stop t1 r :
    check_run (Var_TOS V) (BIsUserAcceptedTos m) t1 (Some r) ->
    handler_run
      (BIsUserBanned m (Language V m) (Done false)
       :: BIsUserExist m (Done tt) :: t1)
      r
| handler_run_join_stop t1 t2 r :
    check_run (Var_TOS V) (BIsUserAcceptedTos m) t1 None ->
    check_run (Var_FORCE_UPDATES_CHANNEL V)
      (BIsUserJoined m (Language V m)) t2 (Some r) ->
    handler_run
      (BIsUserBanned m (Language V m) (Done false)
       :: BIsUserExist m (Done tt) :: t1 ++ t2)
      r
| handler_run_served t1 t2 t3 r :
    check_run (Var_TOS V) (BIsUserAcceptedTos m) t1 None ->
    check_run (Var_FORCE_UPDATES_CHANNEL V)
      (BIsUserJoined m (Language V m)) t2 None ->
    serve_run t3 r ->
    handler_run
      (BIsUserBanned m (Language V m) (Done false)
       :: BIsUserExist m (Done tt) :: t1 ++ t2 ++ t3)
      r.

End HandlerRuns.

(** The four checks that come before the [try]. *)
Definition is_check (e : bot_event) : bool :=
  match e with
  | BIsUserBanned _ _ _ | BIsUserExist _ _ | BIsUserAcceptedTos _ _
  | BIsUserJoined _ _ _ => true
  | _ => false
  end.

(** ** Scenarios

    Concrete collaborators and states on which the properties are
    exercised.  The cipher of [demo_primitives] is the identity and its
    digest of a byte string is the string itself. *)

Definition demo_primitives : Primitives :=
  mkPrimitives (fun peer => -1000000000000 - peer)
    (fun chunk _ _ => chunk) (fun b => b).

(** A document in data center 4, resolved by client 0, whose home is
    data center 2. *)
Definition demo_file : FileId :=
  mkFileId DOCUMENT 4 77 88 [] "" LEGACY 0 0 0.

Definition demo_client : Client := mkClient ∅ 2 false [x01].

Definition idle : state :=
  mkState [] [(0, 0)] [] {[0 := demo_client]} ∅ ∅ O None.

(** The four bytes the upstream holds at [offset]. *)
Definition file_content (offset : Z) : bytes :=
  [byte_of_Z offset; x0a; x0b; x0c].

(** An upstream where every call returns. *)
Definition serving : Upstream :=
  mkUpstream
    (fun _ _ _ => Return demo_file)
    (fun _ _ _ _ => Return [x09])
    (fun _ _ => Return tt)
    (fun _ _ _ => Return (mkExportedAuthorization 1 [x05]))
    (fun _ _ _ _ => Return tt)
    (fun _ _ _ offset _ => Return (File (file_content offset)))
    (fun _ _ _ offset _ => Return (CdnFile (file_content offset)))
    (fun _ _ _ _ => Return tt)
    (fun _ _ _ offset => Return [mkFileHash offset 4 (file_content offset)]).

Definition with_get_file_ids (U : Upstream)
  (f : list event -> Z -> string -> result FileId) : Upstream :=
  mkUpstream f (up_auth_create U) (up_session_start U)
    (up_export_authorization U) (up_import_authorization U) (up_get_file U)
    (up_get_cdn_file U) (up_reupload_cdn_file U) (up_get_cdn_file_hashes U).

Definition with_import_authorization (U : Upstream)
  (f : list event -> Session -> Z -> bytes -> result unit) : Upstream :=
  mkUpstream (up_get_file_ids U) (up_auth_create U) (up_session_start U)
    (up_export_authorization U) f (up_get_file U)
    (up_get_cdn_file U) (up_reupload_cdn_file U) (up_get_cdn_file_hashes U).

Definition with_get_file (U : Upstream)
  (f : list event -> Session -> Location -> Z -> Z -> result upload_File)
  : Upstream :=
  mkUpstream (up_get_file_ids U) (up_auth_create U) (up_session_start U)
    (up_export_authorization U) (up_import_authorization U) f
    (up_get_cdn_file U) (up_reupload_cdn_file U) (up_get_cdn_file_hashes U).

Definition with_get_cdn_file (U : Upstream)
  (f : list event -> Session -> bytes -> Z -> Z -> result upload_CdnFile)
  : Upstream :=
  mkUpstream (up_get_file_ids U) (up_auth_create U) (up_session_start U)
    (up_export_authorization U) (up_import_authorization U) (up_get_file U)
    f (up_reupload_cdn_file U) (up_get_cdn_file_hashes U).


Definition with_get_cdn_file_hashes (U : Upstream)
  (f : list event -> Session -> bytes -> Z -> result (list FileHash))
  : Upstream :=
  mkUpstream (up_get_file_ids U) (up_auth_create U) (up_session_start U)
    (up_export_authorization U) (up_import_authorization U) (up_get_file U)
    (up_get_cdn_file U) (up_reupload_cdn_file U) f.

(** Every import of an authorization is refused. *)
Definition auth_rejecting : Upstream :=
  with_import_authorization serving (fun _ _ _ _ => Raise AuthBytesInvalid).

(** Every fetch times out. *)
Definition timing_out : Upstream :=
  with_get_file serving (fun _ _ _ _ _ => Raise TimeoutError).

(** The connection is reset on every fetch after the first chunk. *)
Definition resetting : Upstream :=
  with_get_file serving
    (fun _ _ _ offset _ =>
       if offset =? 0 then Return (File (file_content offset))
       else Raise ConnectionResetError).

(** The metadata lookup fails. *)
Definition lookup_failing : Upstream :=
  with_get_file_ids serving (fun _ _ _ => Raise FloodWait).

(** The file is served from a CDN node in data center 5. *)
Definition cdn_redirecting : Upstream :=
  with_get_file serving
    (fun _ _ _ _ _ =>
       Return (FileCdnRedirect 5 [x07] [x08]
                 [x00; x00; x00; x00; x00; x00; x00; x00])).

(** The declared hash of every CDN chunk is wrong. *)
Definition cdn_corrupting : Upstream :=
  with_get_cdn_file_hashes cdn_redirecting
    (fun _ _ _ offset => Return [mkFileHash offset 4 [xff]]).

(** A reupload of the file was requested in the history. *)
Definition reupload_requested (h : list event) : bool :=
  existsb (fun e => match e with
                    | EvReuploadCdnFile _ _ _ _ => true
                    | _ => false
                    end) h.

(** The CDN node asks for a reupload until one was requested. *)
Definition cdn_reuploading : Upstream :=
  with_get_cdn_file cdn_redirecting
    (fun h _ _ offset _ =>
       if reupload_requested h then Return (CdnFile (file_content offset))
       else Return (CdnFileReuploadNeeded [x0d])).


(** After a first stream of [demo_file] from [idle]: client 0 has a
    started media session for data center 4. *)
Definition warm : state :=
  snd (generate_media_session serving 0 demo_file idle).







(** A file in the home data center of [demo_client]. *)
Definition home_file : FileId :=
  mkFileId DOCUMENT 2 77 88 [] "" LEGACY 0 0 0.

(** [warm] after the connection of its media session was lost: the
    session is still registered, its [is_started] flag is cleared. *)
Definition stale : state := set_started ∅ warm.

(** The first chunk is served directly; every later fetch is answered by
    a redirect to a CDN node. *)
Definition redirecting_late : Upstream :=
  with_get_file serving
    (fun _ _ _ offset _ =>
       if offset =? 0 then Return (File (file_content offset))
       else Return (FileCdnRedirect 5 [x07] [x08]
                      [x00; x00; x00; x00; x00; x00; x00; x00])).

(** A user, a message of theirs, settings with both checks enabled, and
    collaborators that let the message through and store it under
    ["id1"]. *)
Definition demo_message : Message := mkMessage 11 (mkUser 42 "Al").

Definition demo_config : Config :=
  mkConfig true true (-1001234) "bot" "Bot" (fun _ => LangOf "en").

Definition demo_info : file_info_dict :=
  {["file_name" := PyStr "a.bin"; "ads" := PyBool false]}.

Definition all_ok : Collaborators :=
  mkCollaborators
    (fun _ _ _ => Done false)
    (fun _ _ => Done tt)
    (fun _ _ => Done true)
    (fun _ _ _ => Done true)
    (fun _ _ => Done demo_info)
    (fun _ _ => Done "id1")
    (fun _ _ _ => Done demo_file)
    (fun _ _ _ _ => Done (MarkupOf "keyboard", "link"))
    (fun _ _ _ _ _ _ _ => Done tt)
    (fun _ _ => Done tt)
    (fun _ _ _ _ _ => Done tt).

(** The database answers with a flood wait of 7 seconds. *)
Definition flooding : Collaborators :=
  mkCollaborators (co_is_user_banned all_ok) (co_is_user_exist all_ok)
    (co_is_user_accepted_tos all_ok) (co_is_user_joined all_ok)
    (co_get_file_info all_ok) (fun _ _ => Failed (FloodWaitOf 7))
    (co_get_file_ids all_ok) (co_gen_link all_ok) (co_reply_text all_ok)
    (co_sleep all_ok) (co_send_message all_ok).

(** The check of the ban answers with a flood wait of 3 seconds. *)
Definition flooding_check : Collaborators :=
  mkCollaborators (fun _ _ _ => Failed (FloodWaitOf 3))
    (co_is_user_exist all_ok)
    (co_is_user_accepted_tos all_ok) (co_is_user_joined all_ok)
    (co_get_file_info all_ok) (co_add_file all_ok)
    (co_get_file_ids all_ok) (co_gen_link all_ok) (co_reply_text all_ok)
    (co_sleep all_ok) (co_send_message all_ok).

(** Three clients with the loads [{0: 3, 1: 1, 2: 1}], and two clients
    whose loads tie in a dictionary that iterates [1] before [0]. *)
Definition three_clients : state :=
  mkState [] [(0, 3); (1, 1); (2, 1)] []
    {[0 := demo_client; 1 := demo_client; 2 := demo_client]} ∅ ∅ O None.

Definition unordered : state :=
  mkState [] [(1, 1); (0, 1)] [] {[0 := demo_client; 1 := demo_client]}
    ∅ ∅ O None.

(** * Properties *)

(** ** The resolver: [get_file_properties], [generate_file_properties] *)

Lemma min_by_first_minimum {A : Type} (key : A -> Z) (rest : list A) :
  forall best,
    exists before after,
      best :: rest = before ++ min_by key best rest :: after
      /\ (forall k, In k before -> key (min_by key best rest) < key k)
      /\ (forall k, In k after -> key (min_by key best rest) <= key k).
Proof.
  induction rest as [|x rest IH]; intros best.
  - exists [], []. simpl. repeat split; intros k [].
  - simpl. destruct (key x <? key best) eqn:Hlt.
    + apply Z.ltb_lt in Hlt.
      destruct (IH x) as (b & a & Heq & Hb & Ha).
      exists (best :: b), a. split; [simpl; congruence|].
      split; [|exact Ha].
      intros k [<-|Hk]; [|now apply Hb].
      assert (Hx : In x (b ++ min_by key x rest :: a))
        by (rewrite <- Heq; now left).
      apply in_app_or in Hx as [Hx|[Hx|Hx]].
      * specialize (Hb _ Hx). lia.
      * rewrite Hx. lia.
      * specialize (Ha _ Hx). lia.
    + apply Z.ltb_ge in Hlt.
      destruct (IH best) as (b & a & Heq & Hb & Ha).
      destruct b as [|b0 b].
      * simpl in Heq. injection Heq as Hm Hrest.
        exists [], (x :: rest). rewrite <- Hm. simpl.
        repeat split; [intros k []|].
        intros k [<-|Hk]; [lia|]. rewrite Hm. apply Ha. now rewrite <- Hrest.
      * simpl in Heq. injection Heq as Hb0 Hrest. subst b0.
        exists (best :: x :: b), a. split; [simpl; congruence|].
        split; [|exact Ha].
        intros k [<-|[<-|Hk]].
        -- apply Hb. now left.
        -- assert (key (min_by key best rest) < key best) by (apply Hb; now left).
           lia.
        -- apply Hb. now right.
Qed.

Lemma get_file_properties_hit (U : Upstream) (db_id : string) (st : state)
  (f : FileId) :
  cached_file_ids st !! db_id = Some f ->
  get_file_properties U db_id st = (Return f, st).
Proof.
  intros H. unfold get_file_properties, bind, gets, cache_lookup, ret.
  rewrite H. simpl. now rewrite H.
Qed.

Lemma get_file_properties_returns_cached (U : Upstream) (db_id : string)
  (st st' : state) (f : FileId) :
  get_file_properties U db_id st = (Return f, st') ->
  cached_file_ids st' !! db_id = Some f.
Proof.
  unfold get_file_properties, bind, gets. simpl.
  destruct (negb _).
  - destruct (generate_file_properties U db_id st) as [[a|e|] s]; simpl;
      try discriminate.
    unfold cache_lookup. destruct (cached_file_ids s !! db_id) eqn:E;
      intros [= <- <-]; assumption.
  - unfold ret, cache_lookup. destruct (cached_file_ids st !! db_id) eqn:E;
      intros [= <- <-]; assumption.
Qed.

(** C3.  A descriptor that is in the cache is returned as it is, and the
    call changes nothing: the trace gets no upstream lookup and the cache
    is not written.  So a resolution that follows a successful one for
    the same id is a read of the cache. *)
Theorem get_file_properties_cache_hit (U : Upstream) (db_id : string)
  (st : state) :
  (forall f, cached_file_ids st !! db_id = Some f ->
             get_file_properties U db_id st = (Return f, st))
  /\ (forall st0 f, get_file_properties U db_id st0 = (Return f, st) ->
                    get_file_properties U db_id st = (Return f, st)).
Proof.
  split.
  - intros f. apply get_file_properties_hit.
  - intros st0 f H. apply get_file_properties_hit.
    eapply get_file_properties_returns_cached, H.
Qed.

Lemma generate_file_properties_lookup (U : Upstream) (db_id : string)
  (st : state) (i : Z) :
  least_loaded (work_loads st) = Return i ->
  is_Some (multi_clients st !! i) ->
  generate_file_properties U db_id st =
    match up_get_file_ids U (trace st) i db_id with
    | Return f =>
        (Return f,
         set_cached_file_ids (<[db_id := f]> (cached_file_ids st))
           (log (EvGetFileIds i db_id (Return f)) st))
    | Raise e => (Raise e, log (EvGetFileIds i db_id (Raise e)) st)
    | Diverge => (Diverge, log (EvGetFileIds i db_id Diverge) st)
    end.
Proof.
  intros Hi [c Hc].
  unfold generate_file_properties, bind, client_attr, upstream_call.
  rewrite Hi, Hc.
  destruct (up_get_file_ids U (trace st) i db_id) as [f|e|]; try reflexivity.
  unfold modify, cache_lookup. simpl. now rewrite lookup_insert_eq.
Qed.

Lemma generate_file_properties_raise (U : Upstream) (db_id : string)
  (st st' : state) (e : exn) :
  generate_file_properties U db_id st = (Raise e, st') ->
  cached_file_ids st' = cached_file_ids st.
Proof.
  unfold generate_file_properties, bind, client_attr, upstream_call.
  destruct (least_loaded (work_loads st)) as [i|e0|]; try (now intros [= <- <-]).
  destruct (multi_clients st !! i); [|now intros [= <- <-]].
  destruct (up_get_file_ids U (trace st) i db_id) as [f|e1|];
    try (now intros [= <- <-]).
  unfold modify, cache_lookup. simpl. now rewrite lookup_insert_eq.
Qed.

(** C10.  When the metadata lookup of a resolution raises, the resolution
    raises the same error and the cache is as it was, so the failure is
    not cached; and when the id was not cached before, resolving it again
    asks the upstream again. *)
Theorem generate_file_properties_failure_not_cached (U : Upstream)
  (db_id : string) (st : state) (i : Z) (e : exn) :
  least_loaded (work_loads st) = Return i ->
  is_Some (multi_clients st !! i) ->
  up_get_file_ids U (trace st) i db_id = Raise e ->
  exists st',
    generate_file_properties U db_id st = (Raise e, st')
    /\ cached_file_ids st' = cached_file_ids st
    /\ (cached_file_ids st !! db_id = None ->
        exists r2 st2,
          get_file_properties U db_id st' = (r2, st2)
          /\ trace st2 =
               trace st' ++
               [EvGetFileIds i db_id (up_get_file_ids U (trace st') i db_id)]).
Proof.
  intros Hi Hc He.
  exists (log (EvGetFileIds i db_id (Raise e)) st).
  rewrite (generate_file_properties_lookup U db_id st i Hi Hc), He.
  split; [reflexivity|]. split; [reflexivity|].
  intros Hmiss.
  set (st' := log (EvGetFileIds i db_id (Raise e)) st).
  assert (Hgen := generate_file_properties_lookup U db_id st' i Hi Hc).
  assert (Hmiss' : cached_file_ids st' !! db_id = None) by exact Hmiss.
  clearbody st'.
  unfold get_file_properties, bind, gets. rewrite Hmiss'. simpl. rewrite Hgen.
  destruct (up_get_file_ids U (trace st') i db_id) as [f|e1|]; simpl.
  - unfold cache_lookup. simpl. rewrite lookup_insert_eq.
    eexists _, _. split; reflexivity.
  - eexists _, _. split; reflexivity.
  - eexists _, _. split; reflexivity.
Qed.

(** What [min(work_loads, key=work_loads.get)] selects: a key of least
    load, the first of them in the iteration order of the dictionary,
    which is the lowest of them when the keys iterate in ascending
    order. *)
Lemma least_loaded_spec (w : dict Z) (i : Z) :
  least_loaded w = Return i ->
  In i (dict_keys w)
  /\ (forall k, In k (dict_keys w) -> load_of w i <= load_of w k)
  /\ (exists before after,
        dict_keys w = before ++ i :: after
        /\ forall k, In k before -> load_of w i < load_of w k)
  /\ (StronglySorted Z.lt (dict_keys w) ->
      forall k, In k (dict_keys w) -> load_of w k = load_of w i -> i <= k).
Proof.
  unfold least_loaded, py_min. intros H.
  destruct (dict_keys w) as [|k0 ks] eqn:Hk; [discriminate|].
  injection H as <-.
  destruct (min_by_first_minimum (load_of w) ks k0) as (b & a & Heq & Hb & Ha).
  set (m := min_by (load_of w) k0 ks) in *.
  assert (Hmin : forall k, In k (k0 :: ks) -> load_of w m <= load_of w k).
  { intros k Hin. rewrite Heq in Hin.
    apply in_app_or in Hin as [Hin|[<-|Hin]].
    - specialize (Hb _ Hin). lia.
    - lia.
    - now apply Ha. }
  split; [rewrite Heq; apply in_or_app; right; now left|].
  split; [exact Hmin|]. split; [exists b, a; split; assumption|].
  intros Hs k Hin Htie. rewrite Heq in Hin, Hs.
  apply in_app_or in Hin as [Hin|[<-|Hin]].
  - specialize (Hb _ Hin). lia.
  - lia.
  - apply StronglySorted_app_1_r in Hs.
    apply StronglySorted_inv in Hs as [_ Hs].
    rewrite List.Forall_forall in Hs. specialize (Hs _ Hin). lia.
Qed.

(** What a resolution that misses the cache adds to the trace: the
    lookup through the selected client, or nothing when there is no
    client to select. *)
Lemma get_file_properties_miss_trace (U : Upstream) (db_id : string)
  (st : state) (r : result FileId) (st' : state) :
  cached_file_ids st !! db_id = None ->
  get_file_properties U db_id st = (r, st') ->
  (exists i,
     least_loaded (work_loads st) = Return i
     /\ is_Some (multi_clients st !! i)
     /\ trace st' =
        trace st
        ++ [EvGetFileIds i db_id (up_get_file_ids U (trace st) i db_id)])
  \/ (trace st' = trace st
      /\ forall i,
           least_loaded (work_loads st) = Return i ->
           multi_clients st !! i = None).
Proof.
  intros Hmiss. unfold get_file_properties, bind at 1, gets.
  rewrite Hmiss. simpl. unfold bind at 1, bind at 1.
  destruct (least_loaded (work_loads st)) as [i|e|] eqn:Hi.
  - destruct (multi_clients st !! i) as [c|] eqn:Hc.
    + rewrite (generate_file_properties_lookup U db_id st i Hi)
        by (rewrite Hc; eauto).
      intros H. left. exists i. split; [reflexivity|].
      split; [rewrite Hc; eauto|].
      destruct (up_get_file_ids U (trace st) i db_id) as [f|e|]; simpl in H.
      * unfold ret, cache_lookup in H. simpl in H.
        rewrite lookup_insert_eq in H. injection H as _ <-. reflexivity.
      * injection H as _ <-. reflexivity.
      * injection H as _ <-. reflexivity.
    + unfold generate_file_properties, bind, client_attr.
      rewrite Hi, Hc. intros [= _ <-]. right.
      split; [reflexivity|]. intros j [= <-]. exact Hc.
  - unfold generate_file_properties, bind. rewrite Hi.
    intros [= _ <-]. right. split; [reflexivity|]. discriminate.
  - unfold generate_file_properties, bind. rewrite Hi.
    intros [= _ <-]. right. split; [reflexivity|]. discriminate.
Qed.

(** C4, as the code has it.  A resolution that misses the cache sends
    its lookup through the key that [min(work_loads, key=work_loads.get)]
    selects.  When [work_loads] is not empty and its keys are clients,
    the resolution sends exactly one call, the lookup of its id; and the
    client of a lookup it sends is a key of [work_loads] of least load,
    and of the keys of least load the one that comes first in the
    iteration order of the dictionary.  That is the lowest index among
    ties when the dictionary iterates in ascending order of index, as
    [{0:3, 1:1, 2:1}] does, where the lookup goes through index [1]. *)
Theorem least_loaded_first_minimum (U : Upstream) (db_id : string)
  (st : state) (r : result FileId) (st' : state) :
  cached_file_ids st !! db_id = None ->
  get_file_properties U db_id st = (r, st') ->
  exists t,
    trace st' = trace st ++ t
    /\ (dict_keys (work_loads st) <> [] ->
        (forall k, In k (dict_keys (work_loads st)) ->
                   is_Some (multi_clients st !! k)) ->
        exists i,
          t = [EvGetFileIds i db_id (up_get_file_ids U (trace st) i db_id)])
    /\ (forall i id rl,
          In (EvGetFileIds i id rl) t ->
          id = db_id
          /\ least_loaded (work_loads st) = Return i
          /\ In i (dict_keys (work_loads st))
          /\ (forall k, In k (dict_keys (work_loads st)) ->
                load_of (work_loads st) i <= load_of (work_loads st) k)
          /\ (exists before after,
                dict_keys (work_loads st) = before ++ i :: after
                /\ forall k, In k before ->
                     load_of (work_loads st) i < load_of (work_loads st) k)
          /\ (StronglySorted Z.lt (dict_keys (work_loads st)) ->
              forall k, In k (dict_keys (work_loads st)) ->
                load_of (work_loads st) k = load_of (work_loads st) i ->
                i <= k))
    /\ (work_loads st = [(0, 3); (1, 1); (2, 1)] ->
        is_Some (multi_clients st !! 1) ->
        t = [EvGetFileIds 1 db_id (up_get_file_ids U (trace st) 1 db_id)]).
Proof.
  intros Hmiss H.
  destruct (get_file_properties_miss_trace U db_id st r st' Hmiss H)
    as [(i & Hi & Hc & Ht)|(Ht & Hnone)].
  - exists [EvGetFileIds i db_id (up_get_file_ids U (trace st) i db_id)].
    split; [exact Ht|]. split; [intros _ _; now exists i|]. split.
    + intros j id rl [[= <- <- <-]|[]]. split; [reflexivity|].
      split; [exact Hi|]. apply least_loaded_spec, Hi.
    + intros Hw _. rewrite Hw in Hi. injection Hi as <-. reflexivity.
  - exists []. rewrite app_nil_r. split; [exact Ht|]. split; [|split].
    + intros Hne Hall. exfalso.
      destruct (least_loaded (work_loads st)) as [i|e|] eqn:Hi.
      * destruct (least_loaded_spec _ _ Hi) as (Hin & _).
        destruct (Hall _ Hin) as (c & Hc).
        rewrite (Hnone i eq_refl) in Hc. discriminate.
      * unfold least_loaded, py_min in Hi.
        destruct (dict_keys (work_loads st)); [congruence|discriminate].
      * unfold least_loaded, py_min in Hi.
        destruct (dict_keys (work_loads st)); discriminate.
    + intros i id rl [].
    + intros Hw (c & Hc). rewrite Hw in Hnone.
      rewrite (Hnone 1 eq_refl) in Hc. discriminate.
Qed.

(** ** Frame rules: what the pieces of the program leave unchanged *)

Section Frame.

Context (P : Primitives) (U : Upstream).
Variable R : state -> state -> Prop.
Variable K : event -> Prop.

Hypothesis R_refl : forall st, R st st.
Hypothesis R_trans : forall a b c, R a b -> R b c -> R a c.
Hypothesis R_log : forall e st, K e -> R st (log e st).
Hypothesis R_started : forall s st, R st (set_started s st).
Hypothesis R_next : forall n st, R st (set_next_session_id n st).
Hypothesis R_sessions : forall f ci st,
  R st (set_multi_clients
          (alter (fun c => mkClient (f (media_sessions c)) (storage_dc_id c)
                             (storage_test_mode c) (storage_auth_key c))
             ci (multi_clients st)) st).
Hypothesis R_demand : forall d st, R st (set_demand d st).
Hypothesis R_cdn_count : forall c st, R st (set_cdn_count c st).
Hypothesis K_session : forall e, session_event e -> K e.
Hypothesis K_stream : forall e, stream_event e -> K e.
Hypothesis K_get_file : forall s loc offset limit r,
  K (EvGetFile s loc offset limit r).
Hypothesis K_yield : forall c, K (EvYield c).

Lemma preserves_ret {A : Type} (a : A) : preserves R (ret a).
Proof. intros st r st' [= <- <-]. apply R_refl. Qed.

Lemma preserves_raise {A : Type} (e : exn) : preserves R (@raise A e).
Proof. intros st r st' [= <- <-]. apply R_refl. Qed.

Lemma preserves_diverge {A : Type} : preserves R (@diverge A).
Proof. intros st r st' [= <- <-]. apply R_refl. Qed.

Lemma preserves_gets {A : Type} (f : state -> A) : preserves R (gets f).
Proof. intros st r st' [= <- <-]. apply R_refl. Qed.

Lemma preserves_bind {A B : Type} (m : M A) (k : A -> M B) :
  preserves R m -> (forall a, preserves R (k a)) -> preserves R (bind m k).
Proof.
  intros Hm Hk st r st'. unfold bind.
  destruct (m st) as [[a|e|] s1] eqn:E; specialize (Hm _ _ _ E).
  - intros H. eapply R_trans; [exact Hm|]. eapply Hk, H.
  - now intros [= <- <-].
  - now intros [= <- <-].
Qed.

Lemma preserves_try_except {A : Type} (body : M A)
  (handler : exn -> option (M A)) :
  preserves R body ->
  (forall e h, handler e = Some h -> preserves R h) ->
  preserves R (try_except body handler).
Proof.
  intros Hb Hh st r st'. unfold try_except.
  destruct (body st) as [[a|e|] s1] eqn:E; specialize (Hb _ _ _ E).
  - now intros [= <- <-].
  - destruct (handler e) as [h|] eqn:Eh.
    + intros H. eapply R_trans; [exact Hb|]. eapply Hh; eassumption.
    + now intros [= <- <-].
  - now intros [= <- <-].
Qed.

Lemma preserves_try_finally {A : Type} (body : M A) (fin : M unit) :
  preserves R body -> preserves R fin -> preserves R (try_finally body fin).
Proof.
  intros Hb Hf st r st'. unfold try_finally.
  destruct (body st) as [[a|e|] s1] eqn:E; specialize (Hb _ _ _ E);
    try (now intros [= <- <-]);
    destruct (fin s1) as [[u|e'|] s2] eqn:E'; specialize (Hf _ _ _ E');
    intros [= <- <-]; eapply R_trans; eassumption.
Qed.

Lemma preserves_while_true {S : Type} (body : S -> M (control S)) :
  (forall s, preserves R (body s)) ->
  forall fuel s, preserves R (while_true fuel body s).
Proof.
  intros Hb fuel. induction fuel as [|fuel IH]; intros s; simpl.
  - apply preserves_diverge.
  - apply preserves_bind; [apply Hb|].
    intros [|s']; [apply preserves_ret|apply IH].
Qed.

Lemma preserves_modify (f : state -> state) :
  (forall st, R st (f st)) -> preserves R (modify f).
Proof. intros Hf st r st' [= <- <-]. apply Hf. Qed.

Lemma preserves_upstream_call {A : Type} (ask : list event -> result A)
  (ev : result A -> event) :
  (forall r, K (ev r)) -> preserves R (upstream_call ask ev).
Proof. intros HK st r st' [= <- <-]. apply R_log, HK. Qed.

Lemma preserves_client_attr {A : Type} (ci : Z) (f : Client -> A) :
  preserves R (client_attr ci f).
Proof.
  intros st r st'. unfold client_attr.
  destruct (multi_clients st !! ci); intros [= <- <-]; apply R_refl.
Qed.

Lemma preserves_update_media_sessions (ci : Z)
  (f : gmap Z Session -> gmap Z Session) :
  preserves R (update_media_sessions ci f).
Proof. apply preserves_modify. intros st. apply R_sessions. Qed.

Lemma preserves_new_Session (ci dc : Z) (k : bytes) (tm im ic : bool) :
  preserves R (new_Session ci dc k tm im ic).
Proof. intros st r st' [= <- <-]. apply R_next. Qed.

Lemma preserves_Session_stop (s : Session) :
  K (EvSessionStop s) -> preserves R (Session_stop s).
Proof.
  intros HK. apply preserves_modify. intros st.
  eapply R_trans; [apply R_started|apply R_log, HK].
Qed.

Lemma preserves_yield_ (c : bytes) : K (EvYield c) -> preserves R (yield_ c).
Proof.
  intros HK st r st'. unfold yield_.
  destruct (demand st) as [[|[|n]]|]; intros [= <- <-];
    try apply R_refl; try (apply R_log, HK);
    (eapply R_trans; [apply R_log, HK|apply R_demand]).
Qed.

Lemma preserves_cdn_count_incr (k : Z) : preserves R (cdn_count_incr k).
Proof. apply preserves_modify. intros st. apply R_cdn_count. Qed.

Ltac frame_step kind :=
  match goal with
  | |- preserves _ (bind _ _) => apply preserves_bind
  | |- preserves _ (ret _) => apply preserves_ret
  | |- preserves _ (raise _) => apply preserves_raise
  | |- preserves _ (gets _) => apply preserves_gets
  | |- preserves _ (try_except _ _) => apply preserves_try_except
  | |- preserves _ (try_finally _ _) => apply preserves_try_finally
  | |- preserves _ (while_true _ _ _) => apply preserves_while_true
  | |- preserves _ (upstream_call _ _) => apply preserves_upstream_call
  | |- preserves _ (client_attr _ _) => apply preserves_client_attr
  | |- preserves _ (update_media_sessions _ _) =>
      apply preserves_update_media_sessions
  | |- preserves _ (new_Session _ _ _ _ _ _) => apply preserves_new_Session
  | |- preserves _ (Session_stop _) => apply preserves_Session_stop
  | |- preserves _ (yield_ _) => apply preserves_yield_
  | |- preserves _ (cdn_count_incr _) => apply preserves_cdn_count_incr
  | |- preserves _ (if ?b then _ else _) => destruct b
  | |- preserves _ (match ?x with _ => _ end) => destruct x
  | |- forall _, _ => intro
  | H : match ?e with _ => _ end = Some _ |- _ => destruct e; simpl in H
  | H : _ = Some _ |- _ => first [discriminate H | injection H as <-]
  | |- K _ => kind
  | |- _ => assumption
  end.

Ltac frame_session := repeat frame_step ltac:(apply K_session; exact I).
Ltac frame := repeat frame_step ltac:(apply K_stream; exact I).
Ltac frame_direct :=
  repeat frame_step ltac:(first [apply K_get_file | apply K_yield]).

Lemma preserves_Session_start (s : Session) : preserves R (Session_start U s).
Proof. unfold Session_start. frame_session. apply preserves_modify. intro. apply R_started. Qed.

Lemma preserves_import_authorization_loop (ci : Z) (file_id : FileId)
  (s : Session) (n : nat) :
  preserves R (import_authorization_loop U n ci file_id s).
Proof.
  induction n as [|n IH]; simpl;
    unfold invoke_ExportAuthorization, invoke_ImportAuthorization; frame_session.
Qed.

Lemma preserves_generate_media_session (ci : Z) (file_id : FileId) :
  preserves R (generate_media_session U ci file_id).
Proof.
  unfold generate_media_session, lookup_media_session, create_media_session,
    is_started, Auth_create.
  frame_session; first [apply preserves_Session_start
                       |apply preserves_import_authorization_loop].
Qed.

Lemma preserves_Session_start_stream (s : Session) :
  preserves R (Session_start U s).
Proof. unfold Session_start. frame. apply preserves_modify. intro. apply R_started. Qed.

Lemma preserves_yield_part (fc lc pc cp : Z) (chunk : bytes) :
  preserves R (yield_part fc lc pc cp chunk).
Proof. unfold yield_part. frame. Qed.

Lemma preserves_file_loop_body (ms : Session) (loc : Location)
  (fc lc pc cs : Z) (s : upload_File * Z * Z) :
  preserves R (file_loop_body U ms loc fc lc pc cs s).
Proof.
  destruct s as [[r cp] off].
  unfold file_loop_body, getattr_bytes, invoke_GetFile.
  frame; apply preserves_yield_part.
Qed.

Lemma preserves_file_loop (ms : Session) (loc : Location)
  (fc lc pc cs : Z) (fuel : nat) (s : upload_File * Z * Z) :
  preserves R (while_true fuel (file_loop_body U ms loc fc lc pc cs) s).
Proof.
  apply preserves_while_true. intros [[r cp] off].
  unfold file_loop_body, getattr_bytes, invoke_GetFile, yield_part.
  frame_direct.
Qed.

Lemma preserves_check_hashes (hashes : list FileHash) (dec : bytes) :
  forall i, preserves R (check_hashes P i hashes dec).
Proof.
  induction hashes as [|h hs IH]; intros i; simpl;
    unfold CDNFileHashMismatch_check; frame. apply IH.
Qed.

Lemma preserves_cdn_loop_body (ms cdn : Session) (tok key iv : bytes)
  (fc lc pc cs : Z) (s : Z * Z) :
  preserves R (cdn_loop_body P U ms cdn tok key iv fc lc pc cs s).
Proof.
  destruct s as [cp off].
  unfold cdn_loop_body, invoke_GetCdnFile, invoke_ReuploadCdnFile,
    invoke_GetCdnFileHashes, counter_bytes.
  frame; first [apply preserves_check_hashes|apply preserves_yield_part].
Qed.

Lemma preserves_cdn_branch (fuel : nat) (ci : Z) (ms : Session)
  (file_id : FileId) (dc : Z) (tok key iv : bytes)
  (offset fc lc pc cs cp : Z) :
  preserves R
    (cdn_branch P U fuel ci ms file_id dc tok key iv offset fc lc pc cs cp).
Proof.
  unfold cdn_branch, Auth_create.
  frame; first [apply preserves_Session_start_stream
               |apply preserves_cdn_loop_body].
Qed.

(** The CDN branch past the count of the redirect. *)
Lemma preserves_cdn_session (fuel : nat) (ci : Z) (ms : Session) (dc : Z)
  (tok key iv : bytes) (offset fc lc pc cs cp : Z) :
  preserves R
    (let* test_mode := client_attr ci storage_test_mode in
     let* auth_key := Auth_create U ci dc test_mode in
     let* test_mode := client_attr ci storage_test_mode in
     let* cdn_session := new_Session ci dc auth_key test_mode true true in
     try_finally
       (try_except
          (do* Session_start U cdn_session in
           while_true fuel
             (cdn_loop_body P U ms cdn_session tok key iv fc lc pc cs)
             (cp, offset))
          (fun e => if isinstance_Exception e then Some (raise e) else None))
       (Session_stop cdn_session)).
Proof.
  unfold Auth_create.
  frame; first [apply preserves_Session_start_stream
               |apply preserves_cdn_loop_body].
Qed.

Lemma preserves_stream_body (fuel : nat) (ci : Z) (ms : Session)
  (file_id : FileId) (loc : Location) (offset fc lc pc cs cp : Z) :
  preserves R (stream_body P U fuel ci ms file_id loc offset fc lc pc cs cp).
Proof.
  unfold stream_body, invoke_GetFile.
  frame; first [apply preserves_file_loop_body|apply preserves_cdn_branch].
Qed.

Lemma preserves_stream_handler (ci : Z) (ms : Session) (file_id : FileId)
  (e : exn) (h : M unit) :
  stream_handler ci ms file_id e = Some h -> preserves R h.
Proof. unfold stream_handler. intros H. destruct e; simpl in H; frame. Qed.

End Frame.

(** ** Runs of the monad, step by step *)

Lemma bind_inv {A B : Type} (m : M A) (k : A -> M B) (st : state)
  (r : result B) (st' : state) :
  bind m k st = (r, st') ->
  (exists a s1, m st = (Return a, s1) /\ k a s1 = (r, st'))
  \/ (exists x, m st = (x, st') /\ failed x /\ r = recast x).
Proof.
  unfold bind. destruct (m st) as [[a|e|] s1].
  - intros H. left. eauto.
  - intros [= <- <-]. right. exists (Raise e). simpl. auto.
  - intros [= <- <-]. right. exists Diverge. simpl. auto.
Qed.

Lemma trace_log (e : event) (st : state) : trace (log e st) = trace st ++ [e].
Proof. reflexivity. Qed.

(** ** The import loop of [generate_media_session] *)

Lemma import_authorization_loop_run (U : Upstream) (ci : Z) (file_id : FileId)
  (s : Session) (n : nat) :
  forall st r st',
    import_authorization_loop U n ci file_id s st = (r, st') ->
    exists t,
      trace st' = trace st ++ t
      /\ import_run ci file_id s n t r
      /\ multi_clients st' = multi_clients st
      /\ (r = Return tt -> started st' = started st)
      /\ (In (EvSessionStop s) t -> session_id s ∉ started st').
Proof.
  induction n as [|n IH]; intros st r st'; simpl.
  - intros [= <- <-]. exists [EvSessionStop s]. simpl.
    split; [reflexivity|]. split; [constructor|]. split; [reflexivity|].
    split; [discriminate|]. intros _ Hin.
    apply elem_of_difference in Hin as [_ Hn]. apply Hn, elem_of_singleton.
    reflexivity.
  - unfold bind at 1, invoke_ExportAuthorization, upstream_call.
    destruct (up_export_authorization U (trace st) ci (dc_id file_id))
      as [ex|e|] eqn:Ex.
    + unfold bind at 1, try_except, bind at 1, invoke_ImportAuthorization,
        upstream_call. simpl.
      destruct (up_import_authorization U _ s (ea_id ex) (ea_bytes ex))
        as [[]|e|] eqn:Ei; simpl.
      * intros [= <- <-]. eexists [_; _]. simpl.
        rewrite <- app_assoc. split; [reflexivity|].
        split; [constructor|]. split; [reflexivity|]. split; [reflexivity|].
        intros [H|[H|[]]]; discriminate.
      * destruct (decide (e = AuthBytesInvalid)) as [->|Hne].
        -- simpl. intros H. apply IH in H as (t & Ht & Hrun & Hc & Hs & Hstop).
           simpl in *. eexists (_ :: _ :: t).
           split; [rewrite Ht, <- !app_assoc; reflexivity|].
           split; [now constructor|]. split; [exact Hc|]. split; [exact Hs|].
           intros [H|[H|H]]; try discriminate. now apply Hstop.
        -- assert (Hh : forall st1,
                     match match e with
                           | AuthBytesInvalid => Some (ret false)
                           | _ => None
                           end with
                     | Some h => h st1
                     | None => (Raise e, st1)
                     end = (Raise e, st1)) by (destruct e; congruence).
           rewrite Hh. intros [= <- <-]. eexists [_; _]. simpl.
           rewrite <- app_assoc. split; [reflexivity|].
           split; [apply (import_run_import_failed ci file_id s n ex (Raise e));
                   [exact I|congruence]|].
           split; [reflexivity|]. split; [discriminate|].
           intros [H|[H|[]]]; discriminate.
      * intros [= <- <-]. eexists [_; _]. simpl.
        rewrite <- app_assoc. split; [reflexivity|].
        split; [apply (import_run_import_failed ci file_id s n ex Diverge);
                [exact I|discriminate]|].
        split; [reflexivity|]. split; [discriminate|].
        intros [H|[H|[]]]; discriminate.
    + intros [= <- <-]. eexists [_]. simpl. split; [reflexivity|].
      split; [apply (import_run_export_failed ci file_id s n (Raise e)); exact I|].
      split; [reflexivity|]. split; [discriminate|].
      intros [H|[]]; discriminate.
    + intros [= <- <-]. eexists [_]. simpl. split; [reflexivity|].
      split; [apply (import_run_export_failed ci file_id s n Diverge); exact I|].
      split; [reflexivity|]. split; [discriminate|].
      intros [H|[]]; discriminate.
Qed.

(** ** The session manager *)

Lemma lookup_media_session_run (ci : Z) (file_id : FileId) (st : state)
  (r : result (option Session)) (st' : state) :
  lookup_media_session ci file_id st = (r, st') ->
  (multi_clients st !! ci = None /\ r = Raise KeyError /\ st' = st)
  \/ exists c,
       multi_clients st !! ci = Some c
       /\ ((media_sessions c !! dc_id file_id = None
            /\ r = Return None /\ st' = st)
           \/ exists s,
                media_sessions c !! dc_id file_id = Some s
                /\ (((session_id s ∈ started st)
                     /\ r = Return (Some s) /\ st' = st)
                    \/ ((session_id s ∉ started st)
                        /\ r = Return None
                        /\ st' =
                           log (EvSessionStop s)
                             (set_started (started st ∖ {[session_id s]})
                                (set_multi_clients
                                   (alter
                                      (fun c =>
                                         mkClient
                                           (delete (dc_id file_id)
                                              (media_sessions c))
                                           (storage_dc_id c)
                                           (storage_test_mode c)
                                           (storage_auth_key c))
                                      ci (multi_clients st)) st))))).
Proof.
  unfold lookup_media_session, bind, client_attr.
  destruct (multi_clients st !! ci) as [c|] eqn:Hc;
    [|intros [= <- <-]; left; auto].
  intros H. right. exists c. split; [reflexivity|].
  destruct (media_sessions c !! dc_id file_id) as [s|] eqn:Hs;
    [|injection H as <- <-; left; auto].
  right. exists s. split; [reflexivity|].
  unfold is_started, gets in H.
  destruct (decide (session_id s ∈ started st)) as [Hin|Hout].
  - rewrite bool_decide_true in H by assumption. simpl in H.
    injection H as <- <-. left. auto.
  - rewrite bool_decide_false in H by assumption. simpl in H.
    injection H as <- <-. right. auto.
Qed.

#[local] Arguments import_authorization_loop : simpl never.
#[local] Arguments while_true : simpl never.

Lemma Session_start_run (U : Upstream) (s : Session) (st : state) :
  Session_start U s st =
    match up_session_start U (trace st) s with
    | Return _ =>
        (Return tt,
         set_started ({[session_id s]} ∪ started (log (EvSessionStart s (Return tt)) st))
           (log (EvSessionStart s (Return tt)) st))
    | Raise e => (Raise e, log (EvSessionStart s (Raise e)) st)
    | Diverge => (Diverge, log (EvSessionStart s Diverge) st)
    end.
Proof.
  unfold Session_start, bind, upstream_call, modify.
  destruct (up_session_start U (trace st) s) as [[]|e|]; reflexivity.
Qed.

Lemma create_media_session_run (U : Upstream) (ci : Z) (file_id : FileId)
  (st : state) (r : result Session) (st' : state) :
  create_media_session U ci file_id st = (r, st') ->
  multi_clients st' = multi_clients st
  /\ exists t_pre t_imp,
       trace st' = trace st ++ t_pre ++ t_imp
       /\ Forall setup_event t_pre
       /\ ((t_imp = [] /\ forall s, r = Return s -> session_id s ∈ started st')
           \/ exists s rl,
                import_run ci file_id s 6 t_imp rl
                /\ (rl = Return tt ->
                    r = Return s /\ (session_id s ∈ started st'))
                /\ (rl <> Return tt ->
                    r = recast rl
                    /\ (In (EvSessionStop s) t_imp ->
                        session_id s ∉ started st'))).
Proof.
  unfold create_media_session, bind at 1, client_attr at 1.
  destruct (multi_clients st !! ci) as [c|] eqn:Hc.
  2:{ intros [= <- <-]. split; [reflexivity|]. exists [], [].
      rewrite !app_nil_r. repeat split; auto. left. split; [reflexivity|].
      discriminate. }
  destruct (bool_decide (dc_id file_id <> storage_dc_id c)).
  - unfold bind at 1, client_attr at 1. rewrite Hc.
    unfold bind at 1, Auth_create, upstream_call.
    destruct (up_auth_create U (trace st) ci (dc_id file_id)
                (storage_test_mode c)) as [key|e|] eqn:Ea.
    2,3: intros [= <- <-]; (split; [reflexivity|]); eexists [_], [];
      simpl; (split; [reflexivity|]); (split; [repeat constructor|]);
      left; (split; [reflexivity|discriminate]).
    unfold bind at 1, client_attr at 1. simpl. rewrite Hc.
    unfold bind at 1, new_Session.
    set (s := mkSession (next_session_id _) ci (dc_id file_id) key
                (storage_test_mode c) true false).
    unfold bind at 1. rewrite Session_start_run. simpl.
    destruct (up_session_start U _ s) as [[]|e|] eqn:Es.
    2,3: intros [= <- <-]; (split; [reflexivity|]); eexists [_; _], [];
      simpl; rewrite <- !app_assoc;
      (split; [reflexivity|]); (split; [repeat constructor|]);
      left; (split; [reflexivity|discriminate]).
    unfold bind at 1.
    match goal with
    | |- context [import_authorization_loop U 6 ci file_id s ?x] =>
        destruct (import_authorization_loop U 6 ci file_id s x)
          as [rl sl] eqn:El
    end.
    apply import_authorization_loop_run in El
      as (t & Ht & Hrun & Hcl & Hst & Hstop).
    simpl in Ht, Hcl, Hst.
    intros H. assert (Hfin : st' = sl /\ r = match rl with
                                           | Return _ => Return s
                                           | Raise e => Raise e
                                           | Diverge => Diverge
                                           end).
    { destruct rl; injection H as <- <-; auto. }
    clear H. destruct Hfin as [-> ->]. split; [exact Hcl|].
    eexists [_; _], t. rewrite Ht, <- !app_assoc. simpl.
    split; [reflexivity|]. split; [repeat constructor|].
    right. exists s, rl. split; [exact Hrun|]. split.
    + intros ->. split; [reflexivity|]. rewrite Hst by reflexivity.
      apply elem_of_union_l, elem_of_singleton. reflexivity.
    + intros Hne. split; [destruct rl as [[]|e|]; [congruence|reflexivity|reflexivity]|exact Hstop].
  - unfold bind at 1, client_attr at 1. rewrite Hc.
    unfold bind at 1, client_attr at 1. rewrite Hc.
    unfold bind at 1, new_Session.
    set (s := mkSession (next_session_id _) ci (dc_id file_id)
                (storage_auth_key c) (storage_test_mode c) true false).
    unfold bind at 1. rewrite Session_start_run. simpl.
    destruct (up_session_start U _ s) as [[]|e|] eqn:Es;
      intros [= <- <-]; (split; [reflexivity|]); eexists [_], [];
      simpl; (split; [reflexivity|]); (split; [repeat constructor|]);
      left; (split; [reflexivity|]); try discriminate.
    intros s' [= <-]. simpl.
    apply elem_of_union_l, elem_of_singleton. reflexivity.
Qed.

(** A session is the one registered for the data center of [file_id] in
    the table of client [ci], and its [is_started] flag is set. *)
Lemma generate_media_session_run (U : Upstream) (ci : Z) (file_id : FileId)
  (st : state) (r : result Session) (st' : state) :
  generate_media_session U ci file_id st = (r, st') ->
  exists t_pre t_imp,
    trace st' = trace st ++ t_pre ++ t_imp
    /\ Forall setup_event t_pre
    /\ ((t_imp = []
         /\ forall s, r = Return s ->
              (session_id s ∈ started st')
              /\ exists c', multi_clients st' !! ci = Some c'
                            /\ media_sessions c' !! dc_id file_id = Some s)
        \/ exists s rl,
             import_run ci file_id s 6 t_imp rl
             /\ (rl = Return tt ->
                 r = Return s /\ (session_id s ∈ started st')
                 /\ exists c', multi_clients st' !! ci = Some c'
                               /\ media_sessions c' !! dc_id file_id = Some s)
             /\ (rl <> Return tt ->
                 r = recast rl
                 /\ (In (EvSessionStop s) t_imp ->
                     session_id s ∉ started st'))).
Proof.
  unfold generate_media_session. intros H.
  apply bind_inv in H as [(ms & s1 & Hl & H)|(x & Hl & Hx & ->)].
  2:{ apply lookup_media_session_run in Hl
        as [(_ & -> & ->)|(c & Hc & [(_ & -> & ->)|(s & _ & [(_ & -> & ->)|(_ & -> & ->)])])];
        try contradiction.
      exists [], []. rewrite !app_nil_r. repeat split; auto.
      left. split; [reflexivity|discriminate]. }
  assert (Hpre : exists c t0,
             multi_clients s1 !! ci = Some c
             /\ trace s1 = trace st ++ t0 /\ Forall setup_event t0
             /\ (forall s, ms = Some s ->
                   t0 = [] /\ (session_id s ∈ started s1)
                   /\ media_sessions c !! dc_id file_id = Some s)).
  { apply lookup_media_session_run in Hl
      as [(_ & ? & _)|(c & Hc & [(? & [= ->] & ->)|(s & Hs & [(? & [= ->] & ->)|(? & [= ->] & ->)])])];
      try discriminate.
    - exists c, []. rewrite app_nil_r.
      split; [exact Hc|]. split; [reflexivity|]. split; [constructor|].
      discriminate.
    - exists c, []. rewrite app_nil_r.
      split; [exact Hc|]. split; [reflexivity|]. split; [constructor|].
      intros s' [= <-]. auto.
    - eexists _, [_]. simpl. rewrite lookup_alter_eq, Hc. simpl.
      split; [reflexivity|]. split; [reflexivity|].
      split; [repeat constructor|]. discriminate. }
  destruct Hpre as (c & t0 & Hc & Ht0 & Hk0 & Hhit).
  destruct ms as [s|].
  - injection H as <- <-. destruct (Hhit s eq_refl) as (-> & Hin & Hs).
    exists [], []. rewrite !app_nil_r in *. repeat split; auto.
    left. split; [reflexivity|]. intros s' [= <-]. split; [exact Hin|].
    exists c. auto.
  - clear Hhit.
    apply bind_inv in H as [(s & s2 & Hcr & H)|(x & Hcr & Hx & ->)].
    + apply create_media_session_run in Hcr
        as (Hcl & t_pre & t_imp & Ht & Hk & Hcases).
      unfold bind, update_media_sessions, modify, ret in H.
      injection H as <- <-. simpl.
      exists (t0 ++ t_pre), t_imp.
      split; [rewrite Ht, Ht0, <- !app_assoc; reflexivity|].
      split; [apply Forall_app; auto|].
      assert (Hreg : exists c',
                 alter (fun c0 => mkClient
                                    (<[dc_id file_id:=s]> (media_sessions c0))
                                    (storage_dc_id c0) (storage_test_mode c0)
                                    (storage_auth_key c0))
                   ci (multi_clients s2) !! ci = Some c'
                 /\ media_sessions c' !! dc_id file_id = Some s).
      { rewrite lookup_alter_eq, Hcl, Hc. simpl. eexists. split; [reflexivity|].
        simpl. apply lookup_insert_eq. }
      destruct Hcases as [(-> & Hst)|(s' & rl & Hrun & Hok & Hko)].
      * left. split; [reflexivity|]. intros s' [= <-].
        split; [now apply Hst|exact Hreg].
      * right. exists s', rl. split; [exact Hrun|].
        destruct (decide (rl = Return tt)) as [->|Hne].
        -- destruct (Hok eq_refl) as ([= <-] & Hin).
           split; [auto|]. intros Hne. contradiction.
        -- destruct (Hko Hne) as (Hr & _). destruct rl as [[]|e|];
             try congruence; discriminate.
    + apply create_media_session_run in Hcr
        as (Hcl & t_pre & t_imp & Ht & Hk & Hcases).
      exists (t0 ++ t_pre), t_imp.
      split; [rewrite Ht, Ht0, <- !app_assoc; reflexivity|].
      split; [apply Forall_app; auto|].
      destruct Hcases as [(-> & Hst)|(s' & rl & Hrun & Hok & Hko)].
      * left. split; [reflexivity|]. intros s' Hs'.
        destruct x; discriminate.
      * right. exists s', rl. split; [exact Hrun|].
        destruct (decide (rl = Return tt)) as [->|Hne].
        -- destruct (Hok eq_refl) as (-> & _). contradiction.
        -- split; [contradiction|]. intros _.
           destruct (Hko Hne) as (-> & Hstop). split; [|exact Hstop].
           destruct rl as [[]|e|]; reflexivity.
Qed.

Lemma import_outcomes_setup (t_pre t : list event) :
  Forall setup_event t_pre ->
  import_outcomes (t_pre ++ t) = import_outcomes t.
Proof.
  induction 1 as [|e t_pre He _ IH]; [reflexivity|].
  destruct e; try contradiction; exact IH.
Qed.

Lemma imports_follow_exports_setup (t_pre t : list event) :
  Forall setup_event t_pre ->
  imports_follow_exports t -> imports_follow_exports (t_pre ++ t).
Proof.
  induction 1 as [|e t_pre He _ IH]; [trivial|].
  intros H. destruct e; try contradiction; simpl; auto.
Qed.

Lemma import_run_bound ci file_id s n t r :
  import_run ci file_id s n t r -> (length (import_outcomes t) <= n)%nat.
Proof. induction 1; simpl; lia. Qed.

Lemma import_run_follow ci file_id s n t r :
  import_run ci file_id s n t r -> imports_follow_exports t.
Proof.
  induction 1; simpl; auto.
  destruct rx; exact I.
Qed.

Lemma import_run_retry_only ci file_id s n t r :
  import_run ci file_id s n t r ->
  forall k o,
    import_outcomes t !! k = Some o ->
    (S k < length (import_outcomes t))%nat ->
    o = Raise AuthBytesInvalid.
Proof.
  induction 1; simpl; intros k o Hk Hlt; try lia.
  destruct k as [|k]; simpl in Hk.
  - congruence.
  - eapply IHimport_run; [exact Hk|lia].
Qed.

Lemma import_run_success ci file_id s n t r :
  import_run ci file_id s n t r ->
  last (import_outcomes t) = Some (Return tt) -> r = Return tt.
Proof.
  induction 1; simpl; try discriminate; auto.
  - intros [= ->]. contradiction.
  - destruct (import_outcomes t) as [|o os] eqn:E; simpl; [discriminate|].
    exact IHimport_run.
Qed.

Lemma import_run_exhausted_run ci file_id s n t r :
  import_run ci file_id s n t r ->
  import_outcomes t = replicate n (Raise AuthBytesInvalid) ->
  r = Raise AuthBytesInvalid /\ exists t0, t = t0 ++ [EvSessionStop s].
Proof.
  induction 1; simpl; try discriminate.
  - intros _. split; [reflexivity|]. now exists [].
  - intros [= ->]. congruence.
  - intros [= Ht]. destruct (IHimport_run Ht) as (-> & t0 & ->).
    split; [reflexivity|]. now eexists (_ :: _ :: t0).
Qed.

Lemma import_run_session ci file_id s n t r :
  import_run ci file_id s n t r ->
  forall s' id b ri, In (EvImportAuthorization s' id b ri) t -> s' = s.
Proof.
  induction 1; simpl; intros s' id b ri' Hin;
    repeat match goal with
           | H : _ \/ _ |- _ => destruct H
           | H : False |- _ => destruct H
           end; try congruence; eauto.
Qed.

(** The creation of a session in the home data center of the client. *)
Lemma create_media_session_home (U : Upstream) (ci : Z) (file_id : FileId)
  (st : state) (c : Client) (r : result Session) (st' : state) :
  multi_clients st !! ci = Some c ->
  dc_id file_id = storage_dc_id c ->
  create_media_session U ci file_id st = (r, st') ->
  let s := mkSession (next_session_id st) ci (dc_id file_id)
             (storage_auth_key c) (storage_test_mode c) true false in
  exists rs,
    trace st' = trace st ++ [EvSessionStart s rs]
    /\ multi_clients st' = multi_clients st
    /\ match rs with
       | Return _ => r = Return s /\ (session_id s ∈ started st')
       | _ => r = recast rs /\ started st' = started st
       end.
Proof.
  intros Hc Hdc. unfold create_media_session, bind at 1, client_attr at 1.
  rewrite Hc.
  rewrite bool_decide_false by (intros Hne; apply Hne; exact Hdc).
  unfold bind at 1, client_attr at 1. rewrite Hc.
  unfold bind at 1, client_attr at 1. rewrite Hc.
  unfold bind at 1, new_Session.
  unfold bind at 1. rewrite Session_start_run. simpl.
  match goal with
  | |- context [up_session_start U ?h ?s] =>
      destruct (up_session_start U h s) as [[]|e|] eqn:Es
  end; intros [= <- <-]; simpl.
  - exists (Return tt). repeat split.
    apply elem_of_union_l, elem_of_singleton. reflexivity.
  - exists (Raise e). repeat split.
  - exists Diverge. repeat split.
Qed.

(** The creation of a session in another data center: the key comes
    from [Auth.create], then the session is started, then the
    authorization is imported. *)
Lemma create_media_session_cross (U : Upstream) (ci : Z) (file_id : FileId)
  (st : state) (c : Client) (r : result Session) (st' : state) :
  multi_clients st !! ci = Some c ->
  dc_id file_id <> storage_dc_id c ->
  create_media_session U ci file_id st = (r, st') ->
  multi_clients st' = multi_clients st
  /\ exists rk t,
       trace st' =
         trace st
         ++ EvAuthCreate ci (dc_id file_id) (storage_test_mode c) rk :: t
       /\ match rk with
          | Return key =>
              let s := mkSession (next_session_id st) ci (dc_id file_id) key
                         (storage_test_mode c) true false in
              exists rs t_imp,
                t = EvSessionStart s rs :: t_imp
                /\ match rs with
                   | Return _ =>
                       exists rl,
                         import_run ci file_id s 6 t_imp rl
                         /\ (rl = Return tt ->
                             r = Return s /\ (session_id s ∈ started st'))
                         /\ (rl <> Return tt -> r = recast rl)
                         /\ (In (EvSessionStop s) t_imp ->
                             session_id s ∉ started st')
                   | _ =>
                       t_imp = [] /\ r = recast rs
                       /\ started st' = started st
                   end
          | _ =>
              t = [] /\ r = recast rk /\ started st' = started st
              /\ next_session_id st' = next_session_id st
          end.
Proof.
  intros Hc Hdc. unfold create_media_session, bind at 1, client_attr at 1.
  rewrite Hc. rewrite bool_decide_true by exact Hdc.
  unfold bind at 1, client_attr at 1. rewrite Hc.
  unfold bind at 1, Auth_create, upstream_call.
  destruct (up_auth_create U (trace st) ci (dc_id file_id)
              (storage_test_mode c)) as [key|e|] eqn:Ea.
  2,3: intros [= <- <-]; (split; [reflexivity|]); eexists _, [];
    simpl; repeat split; reflexivity.
  unfold bind at 1, client_attr at 1. simpl. rewrite Hc.
  unfold bind at 1, new_Session.
  set (s := mkSession (next_session_id _) ci (dc_id file_id) key
              (storage_test_mode c) true false).
  unfold bind at 1. rewrite Session_start_run. simpl.
  destruct (up_session_start U _ s) as [[]|e|] eqn:Es.
  2,3: intros [= <- <-]; (split; [reflexivity|]);
    eexists (Return key), [_]; simpl; rewrite <- !app_assoc;
    (split; [reflexivity|]); eexists _, [];
    (split; [reflexivity|]); simpl; repeat split; reflexivity.
  unfold bind at 1.
  match goal with
  | |- context [import_authorization_loop U 6 ci file_id s ?x] =>
      destruct (import_authorization_loop U 6 ci file_id s x)
        as [rl sl] eqn:El
  end.
  apply import_authorization_loop_run in El
    as (t & Ht & Hrun & Hcl & Hst & Hstop).
  simpl in Ht, Hcl, Hst.
  intros H. assert (Hfin : st' = sl /\ r = match rl with
                                         | Return _ => Return s
                                         | Raise e => Raise e
                                         | Diverge => Diverge
                                         end).
  { destruct rl; injection H as <- <-; auto. }
  clear H. destruct Hfin as [-> ->]. split; [exact Hcl|].
  eexists (Return key), (_ :: t). rewrite Ht, <- !app_assoc. simpl.
  split; [reflexivity|]. eexists (Return tt), t. split; [reflexivity|].
  exists rl. split; [exact Hrun|]. split; [|split; [|exact Hstop]].
  - intros ->. split; [reflexivity|]. rewrite Hst by reflexivity.
    apply elem_of_union_l, elem_of_singleton. reflexivity.
  - intros Hne. destruct rl as [[]|e|]; [congruence|reflexivity|reflexivity].
Qed.

(** After a lookup that found no usable session the table of the client
    has no entry for the data center. *)
Lemma lookup_media_session_none (ci : Z) (file_id : FileId) (st s1 : state) :
  lookup_media_session ci file_id st = (Return None, s1) ->
  next_session_id s1 = next_session_id st
  /\ exists c c1,
       multi_clients st !! ci = Some c
       /\ multi_clients s1 !! ci = Some c1
       /\ media_sessions c1 !! dc_id file_id = None
       /\ storage_dc_id c1 = storage_dc_id c
       /\ storage_test_mode c1 = storage_test_mode c
       /\ storage_auth_key c1 = storage_auth_key c.
Proof.
  intros H. apply lookup_media_session_run in H
    as [(_ & ? & _)|(c & Hc & [(Hs & _ & ->)|(s & Hs & [(_ & ? & _)|(_ & _ & ->)])])];
    try discriminate.
  - split; [reflexivity|]. exists c, c. repeat split; auto.
  - split; [reflexivity|]. exists c. eexists. split; [exact Hc|]. simpl.
    rewrite lookup_alter_eq, Hc. simpl. split; [reflexivity|]. simpl.
    rewrite lookup_delete_eq. repeat split; auto.
Qed.

(** What [generate_media_session] does once the lookup has found no
    usable session. *)
Lemma generate_media_session_create (U : Upstream) (ci : Z)
  (file_id : FileId) (st s1 : state) (r : result Session) (st' : state) :
  lookup_media_session ci file_id st = (Return None, s1) ->
  generate_media_session U ci file_id st = (r, st') ->
  exists rc s2,
    create_media_session U ci file_id s1 = (rc, s2)
    /\ match rc with
       | Return s =>
           r = Return s
           /\ st' =
              set_multi_clients
                (alter
                   (fun c =>
                      mkClient (<[dc_id file_id := s]> (media_sessions c))
                        (storage_dc_id c) (storage_test_mode c)
                        (storage_auth_key c))
                   ci (multi_clients s2)) s2
       | _ => r = recast rc /\ st' = s2
       end.
Proof.
  intros Hl. unfold generate_media_session, bind at 1. rewrite Hl.
  unfold bind at 1.
  destruct (create_media_session U ci file_id s1) as [[s|e|] s2];
    simpl; unfold bind, update_media_sessions, modify, ret; simpl;
    intros [= <- <-]; eexists _, _; (split; [reflexivity|]); simpl; auto.
Qed.

Lemma lookup_media_session_absent (ci : Z) (file_id : FileId) (st : state)
  (c : Client) :
  multi_clients st !! ci = Some c ->
  media_sessions c !! dc_id file_id = None ->
  lookup_media_session ci file_id st = (Return None, st).
Proof.
  intros Hc Hs. unfold lookup_media_session, bind, client_attr.
  rewrite Hc. simpl. now rewrite Hs.
Qed.

Lemma registered_after_insert (ci : Z) (dc : Z) (s : Session) (s2 : state)
  (c : Client) :
  multi_clients s2 !! ci = Some c ->
  exists c',
    multi_clients
      (set_multi_clients
         (alter
            (fun c0 =>
               mkClient (<[dc := s]> (media_sessions c0)) (storage_dc_id c0)
                 (storage_test_mode c0) (storage_auth_key c0))
            ci (multi_clients s2)) s2) !! ci = Some c'
    /\ media_sessions c' !! dc = Some s.
Proof.
  intros Hc. simpl. rewrite lookup_alter_eq, Hc. simpl.
  eexists. split; [reflexivity|]. simpl. apply lookup_insert_eq.
Qed.

(** In every run of [generate_media_session], whatever the state it
    starts in, the authorization is imported at most 6 times; each
    import is the call right after an export that returned and imports
    what it exported; an import is followed by another attempt only when
    it failed with [AuthBytesInvalid]; after an import that returned, the
    session is registered and returned; and when 6 imports failed with
    [AuthBytesInvalid], the session they ran on is stopped, as the last
    step, and [AuthBytesInvalid] is raised. *)
Lemma generate_media_session_imports_bounded (U : Upstream) (ci : Z)
  (file_id : FileId) (st : state) (r : result Session) (st' : state) :
  generate_media_session U ci file_id st = (r, st') ->
  exists t,
    trace st' = trace st ++ t
    /\ (length (import_outcomes t) <= 6)%nat
    /\ imports_follow_exports t
    /\ (forall k o,
          import_outcomes t !! k = Some o ->
          (S k < length (import_outcomes t))%nat ->
          o = Raise AuthBytesInvalid)
    /\ (last (import_outcomes t) = Some (Return tt) ->
        exists s,
          r = Return s /\ (session_id s ∈ started st')
          /\ (forall s' id b ri,
                In (EvImportAuthorization s' id b ri) t -> s' = s)
          /\ exists c', multi_clients st' !! ci = Some c'
                        /\ media_sessions c' !! dc_id file_id = Some s)
    /\ (import_outcomes t = replicate 6 (Raise AuthBytesInvalid) ->
        r = Raise AuthBytesInvalid
        /\ exists s t0,
             t = t0 ++ [EvSessionStop s]
             /\ (session_id s ∉ started st')
             /\ forall s' id b ri,
                  In (EvImportAuthorization s' id b ri) t -> s' = s).
Proof.
  intros H. apply generate_media_session_run in H
    as (t_pre & t_imp & Ht & Hk & Hcases).
  exists (t_pre ++ t_imp). split; [exact Ht|].
  rewrite (import_outcomes_setup t_pre t_imp Hk).
  destruct Hcases as [(-> & _)|(s & rl & Hrun & Hok & Hko)].
  - simpl. split; [lia|]. split.
    { apply imports_follow_exports_setup; [exact Hk|exact I]. }
    split; [intros k o Hko; rewrite lookup_nil in Hko; discriminate|].
    split; discriminate.
  - split; [eapply import_run_bound, Hrun|].
    split; [apply imports_follow_exports_setup;
            [exact Hk|eapply import_run_follow, Hrun]|].
    split; [eapply import_run_retry_only, Hrun|].
    assert (Hsess : forall s' id b ri,
               In (EvImportAuthorization s' id b ri) (t_pre ++ t_imp) ->
               s' = s).
    { intros s' id b ri Hin. apply in_app_or in Hin as [Hin|Hin].
      - rewrite List.Forall_forall in Hk. apply Hk in Hin. contradiction.
      - eapply import_run_session; eassumption. }
    split.
    + intros Hlast. apply (import_run_success _ _ _ _ _ _ Hrun) in Hlast.
      destruct (Hok Hlast) as (-> & Hin & Hreg). exists s. auto.
    + intros Hall.
      destruct (import_run_exhausted_run _ _ _ _ _ _ Hrun Hall)
        as (-> & t0 & ->).
      destruct (Hko ltac:(discriminate)) as (-> & Hstop).
      split; [reflexivity|]. exists s, (t_pre ++ t0).
      split; [now rewrite app_assoc|]. split; [|exact Hsess].
      apply Hstop, in_or_app. right. now left.
Qed.

Lemma import_run_rounds (ci : Z) (file_id : FileId) (s : Session) (n : nat)
  (t : list event) (r : result unit) :
  import_run ci file_id s n t r ->
  exists exs tl,
    t = refused_rounds ci file_id s exs ++ tl
    /\ (((length exs < n)%nat
         /\ exists ex,
              tl = [EvExportAuthorization ci (dc_id file_id) (Return ex);
                    EvImportAuthorization s (ea_id ex) (ea_bytes ex)
                      (Return tt)]
              /\ r = Return tt)
        \/ ((length exs < n)%nat
            /\ exists ex ri,
                 failed ri /\ ri <> Raise AuthBytesInvalid
                 /\ tl = [EvExportAuthorization ci (dc_id file_id) (Return ex);
                          EvImportAuthorization s (ea_id ex) (ea_bytes ex) ri]
                 /\ r = recast ri)
        \/ ((length exs < n)%nat
            /\ exists rx,
                 failed rx
                 /\ tl = [EvExportAuthorization ci (dc_id file_id) rx]
                 /\ r = recast rx)
        \/ (length exs = n
            /\ tl = [EvSessionStop s]
            /\ r = Raise AuthBytesInvalid)).
Proof.
  induction 1 as [|n rx Hrx|n ex|n ex ri Hri Hne|n ex t r _ IH].
  - exists [], [EvSessionStop s]. split; [reflexivity|].
    right. right. right. auto.
  - exists [], [EvExportAuthorization ci (dc_id file_id) rx].
    split; [reflexivity|]. right. right. left.
    split; [simpl; lia|]. exists rx. auto.
  - eexists [], _. split; [reflexivity|]. left.
    split; [simpl; lia|]. exists ex. auto.
  - eexists [], _. split; [reflexivity|]. right. left.
    split; [simpl; lia|]. exists ex, ri. auto.
  - destruct IH as (exs & tl & -> & Hcase).
    exists (ex :: exs), tl. split; [reflexivity|]. simpl.
    destruct Hcase as [(Hl & H)|[(Hl & H)|[(Hl & H)|(Hl & H)]]].
    + left. split; [lia|exact H].
    + right. left. split; [lia|exact H].
    + right. right. left. split; [lia|exact H].
    + right. right. right. split; [lia|exact H].
Qed.

(** C7.  A session is created for a data center that is not the home
    of the client: none is registered for it, or the one that is has
    lost its [is_started] flag, which is stopped first.  After
    [Auth.create] and the start of the new session have returned, what
    follows is a number of rounds in which the authorization is exported
    and its import on the new session is refused with
    [AuthBytesInvalid], and then one of four ends.  After fewer than 6
    refusals: an export whose import returns, and the session is
    returned, started and registered; or an export whose import fails in
    another way, and that failure is the outcome, with no further
    attempt; or an export that fails, likewise.  After 6 refusals: the
    stop of the new session, and [AuthBytesInvalid] is the outcome.
    When the loop fails the client has no session for the data center. *)
Theorem generate_media_session_import_retries (U : Upstream) (ci : Z)
  (file_id : FileId) (st : state) (c : Client) (r : result Session)
  (st' : state) :
  multi_clients st !! ci = Some c ->
  dc_id file_id <> storage_dc_id c ->
  (forall s0, media_sessions c !! dc_id file_id = Some s0 ->
              session_id s0 ∉ started st) ->
  generate_media_session U ci file_id st = (r, st') ->
  exists rk t,
    trace st' =
      trace st
      ++ match media_sessions c !! dc_id file_id with
         | Some s0 => [EvSessionStop s0]
         | None => []
         end
      ++ EvAuthCreate ci (dc_id file_id) (storage_test_mode c) rk :: t
    /\ match rk with
       | Return key =>
           let s := mkSession (next_session_id st) ci (dc_id file_id) key
                      (storage_test_mode c) true false in
           exists rs t_imp,
             t = EvSessionStart s rs :: t_imp
             /\ match rs with
                | Return _ =>
                    exists exs tl,
                      t_imp = refused_rounds ci file_id s exs ++ tl
                      /\ (((length exs < 6)%nat
                           /\ exists ex,
                                tl = [EvExportAuthorization ci
                                        (dc_id file_id) (Return ex);
                                      EvImportAuthorization s (ea_id ex)
                                        (ea_bytes ex) (Return tt)]
                                /\ r = Return s
                                /\ (session_id s ∈ started st')
                                /\ session_of st' ci (dc_id file_id)
                                   = Some s)
                          \/ ((length exs < 6)%nat
                              /\ exists ex ri,
                                   failed ri
                                   /\ ri <> Raise AuthBytesInvalid
                                   /\ tl = [EvExportAuthorization ci
                                              (dc_id file_id) (Return ex);
                                            EvImportAuthorization s
                                              (ea_id ex) (ea_bytes ex) ri]
                                   /\ r = recast ri
                                   /\ session_of st' ci (dc_id file_id)
                                      = None)
                          \/ ((length exs < 6)%nat
                              /\ exists rx,
                                   failed rx
                                   /\ tl = [EvExportAuthorization ci
                                              (dc_id file_id) rx]
                                   /\ r = recast rx
                                   /\ session_of st' ci (dc_id file_id)
                                      = None)
                          \/ (length exs = 6%nat
                              /\ tl = [EvSessionStop s]
                              /\ r = Raise AuthBytesInvalid
                              /\ (session_id s ∉ started st')
                              /\ session_of st' ci (dc_id file_id) = None))
                | _ =>
                    t_imp = [] /\ r = recast rs
                    /\ session_of st' ci (dc_id file_id) = None
                end
       | _ =>
           t = [] /\ r = recast rk
           /\ session_of st' ci (dc_id file_id) = None
       end.
Proof.
  intros Hc Hdc Hstale H.
  destruct (lookup_media_session ci file_id st) as [rl0 s1] eqn:Hl.
  pose proof Hl as Hl'.
  apply lookup_media_session_run in Hl'
    as [(Hn & _)|(c0 & Hc0 & Hcase)]; [congruence|].
  rewrite Hc in Hc0. injection Hc0 as <-.
  assert (Hlook : rl0 = Return None
                  /\ trace s1 =
                     trace st
                     ++ match media_sessions c !! dc_id file_id with
                        | Some s0 => [EvSessionStop s0]
                        | None => []
                        end).
  { destruct Hcase as [(Hs0 & -> & ->)|(s0 & Hs0 & [(Hin & _)|(_ & -> & ->)])].
    - rewrite Hs0, app_nil_r. auto.
    - exfalso. exact (Hstale s0 Hs0 Hin).
    - rewrite Hs0. auto. }
  destruct Hlook as (-> & Ht1). clear Hcase.
  destruct (lookup_media_session_none ci file_id st s1 Hl)
    as (Hnext & c' & c1 & Hc' & Hc1 & Hnone & Hhome & Htm & _).
  rewrite Hc in Hc'. injection Hc' as <-.
  destruct (generate_media_session_create U ci file_id st s1 r st' Hl H)
    as (rc & s2 & Hcr & Hfin).
  assert (Hdc1 : dc_id file_id <> storage_dc_id c1) by now rewrite Hhome.
  destruct (create_media_session_cross U ci file_id s1 c1 rc s2 Hc1 Hdc1 Hcr)
    as (Hmc & rk & t & Ht & Hrk).
  rewrite Htm, Hnext in *.
  assert (Hfail : failed rc ->
                  r = recast rc /\ st' = s2
                  /\ session_of st' ci (dc_id file_id) = None).
  { destruct rc; simpl; [contradiction|..]; intros _;
      destruct Hfin as (-> & ->); unfold session_of;
      rewrite Hmc, Hc1; auto. }
  assert (Htr : trace st' = trace s2).
  { destruct rc; destruct Hfin as (_ & ->); reflexivity. }
  exists rk, t. split; [rewrite Htr, Ht, Ht1, <- app_assoc; reflexivity|].
  destruct rk as [key|e|].
  - cbv zeta in Hrk |- *. destruct Hrk as (rs & t_imp & -> & Hrs).
    exists rs, t_imp. split; [reflexivity|].
    destruct rs as [[]|e|].
    + destruct Hrs as (rl & Hrun & Hok & Hko & Hstop).
      destruct (import_run_rounds _ _ _ _ _ _ Hrun)
        as (exs & tl & -> & Hends).
      exists exs, tl. split; [reflexivity|].
      destruct Hends as [(Hlen & ex & -> & ->)|[(Hlen & ex & ri & Hri & Hne & -> & ->)|[(Hlen & rx & Hrx & -> & ->)|(Hlen & -> & ->)]]].
      * left. split; [exact Hlen|]. exists ex. split; [reflexivity|].
        destruct (Hok eq_refl) as (-> & Hin). destruct Hfin as (-> & ->).
        split; [reflexivity|]. split; [exact Hin|].
        unfold session_of.
        match goal with
        | |- context [<[dc_id file_id := ?s]> _] =>
            destruct (registered_after_insert ci (dc_id file_id) s s2 c1)
              as (cx & -> & Hx); [now rewrite Hmc|exact Hx]
        end.
      * right. left. split; [exact Hlen|]. exists ex, ri.
        split; [exact Hri|]. split; [exact Hne|]. split; [reflexivity|].
        assert (Hrc : rc = recast (recast ri : result unit)).
        { apply Hko. destruct ri; simpl in *; [contradiction|..];
            discriminate. }
        destruct Hfail as (-> & _ & Hno).
        { rewrite Hrc. destruct ri; simpl in *; auto. }
        split; [|exact Hno]. rewrite Hrc. destruct ri; reflexivity.
      * right. right. left. split; [exact Hlen|]. exists rx.
        split; [exact Hrx|]. split; [reflexivity|].
        assert (Hrc : rc = recast (recast rx : result unit)).
        { apply Hko. destruct rx; simpl in *; [contradiction|..];
            discriminate. }
        destruct Hfail as (-> & _ & Hno).
        { rewrite Hrc. destruct rx; simpl in *; auto. }
        split; [|exact Hno]. rewrite Hrc. destruct rx; reflexivity.
      * right. right. right. split; [exact Hlen|]. split; [reflexivity|].
        assert (Hrc : rc = Raise AuthBytesInvalid)
          by (apply Hko; discriminate).
        destruct Hfail as (-> & -> & Hno); [now rewrite Hrc|].
        split; [now rewrite Hrc|]. split; [|exact Hno].
        apply Hstop, in_or_app. right. now left.
    + destruct Hrs as (-> & -> & _). destruct Hfail as (-> & _ & Hno);
        [exact I|]. auto.
    + destruct Hrs as (-> & -> & _). destruct Hfail as (-> & _ & Hno);
        [exact I|]. auto.
  - destruct Hrk as (-> & -> & _). destruct Hfail as (-> & _ & Hno);
      [exact I|]. auto.
  - destruct Hrk as (-> & -> & _). destruct Hfail as (-> & _ & Hno);
      [exact I|]. auto.
Qed.

(** ** Frames of the session manager and of the stream *)

Lemma clients_kept_refl (st : state) : clients_kept st st.
Proof. intros ci c Hc. exists c. auto. Qed.

Lemma clients_kept_trans (a b c : state) :
  clients_kept a b -> clients_kept b c -> clients_kept a c.
Proof.
  intros Hab Hbc ci x Hx.
  destruct (Hab _ _ Hx) as (y & Hy & E1 & E2 & E3).
  destruct (Hbc _ _ Hy) as (z & Hz & F1 & F2 & F3).
  exists z. repeat split; congruence.
Qed.

Lemma clients_kept_sessions (f : gmap Z Session -> gmap Z Session) (ci : Z)
  (st : state) :
  clients_kept st
    (set_multi_clients
       (alter (fun c => mkClient (f (media_sessions c)) (storage_dc_id c)
                          (storage_test_mode c) (storage_auth_key c))
          ci (multi_clients st)) st).
Proof.
  intros cj c Hc. simpl. destruct (decide (ci = cj)) as [->|Hne].
  - rewrite lookup_alter_eq, Hc. simpl. eexists. split; [reflexivity|]. auto.
  - rewrite lookup_alter_ne by assumption. exists c. auto.
Qed.

Lemma same_globals_refl (st : state) : same_globals st st.
Proof. repeat split. apply clients_kept_refl. Qed.

Lemma same_globals_trans (a b c : state) :
  same_globals a b -> same_globals b c -> same_globals a c.
Proof.
  intros (A1 & A2 & A3) (B1 & B2 & B3).
  split; [congruence|]. split; [congruence|].
  eapply clients_kept_trans; eassumption.
Qed.

Lemma same_globals_field (st st' : state) :
  work_loads st' = work_loads st ->
  cached_file_ids st' = cached_file_ids st ->
  multi_clients st' = multi_clients st ->
  same_globals st st'.
Proof.
  intros Hw Hc Hm. split; [exact Hw|]. split; [exact Hc|].
  intros ci c H. exists c. rewrite Hm. auto.
Qed.

Lemma same_globals_sessions (f : gmap Z Session -> gmap Z Session) (ci : Z)
  (st : state) :
  same_globals st
    (set_multi_clients
       (alter (fun c => mkClient (f (media_sessions c)) (storage_dc_id c)
                          (storage_test_mode c) (storage_auth_key c))
          ci (multi_clients st)) st).
Proof. repeat split. apply clients_kept_sessions. Qed.

Lemma generate_media_session_same_globals (U : Upstream) (ci : Z)
  (file_id : FileId) :
  preserves same_globals (generate_media_session U ci file_id).
Proof.
  apply (preserves_generate_media_session U same_globals (fun _ => True)
           same_globals_refl same_globals_trans
           (fun e st _ => same_globals_field st (log e st)
                            eq_refl eq_refl eq_refl)
           (fun s st => same_globals_field st (set_started s st)
                          eq_refl eq_refl eq_refl)
           (fun n st => same_globals_field st (set_next_session_id n st)
                          eq_refl eq_refl eq_refl)
           same_globals_sessions
           (fun _ _ => I)).
Qed.

Lemma stream_body_same_globals (P : Primitives) (U : Upstream) (fuel : nat)
  (ci : Z) (ms : Session) (file_id : FileId) (loc : Location)
  (offset fc lc pc cs cp : Z) :
  preserves same_globals
    (stream_body P U fuel ci ms file_id loc offset fc lc pc cs cp).
Proof.
  apply (preserves_stream_body P U same_globals (fun _ => True)
           same_globals_refl same_globals_trans
           (fun e st _ => same_globals_field st (log e st)
                            eq_refl eq_refl eq_refl)
           (fun s st => same_globals_field st (set_started s st)
                          eq_refl eq_refl eq_refl)
           (fun n st => same_globals_field st (set_next_session_id n st)
                          eq_refl eq_refl eq_refl)
           (fun d st => same_globals_field st (set_demand d st)
                          eq_refl eq_refl eq_refl)
           (fun c st => same_globals_field st (set_cdn_count c st)
                          eq_refl eq_refl eq_refl)
           (fun _ _ => I)).
Qed.

Lemma same_consumer_trans (a b c : state) :
  same_consumer a b -> same_consumer b c -> same_consumer a c.
Proof. intros (A1 & A2) (B1 & B2). split; congruence. Qed.

Lemma generate_media_session_same_consumer (U : Upstream) (ci : Z)
  (file_id : FileId) :
  preserves same_consumer (generate_media_session U ci file_id).
Proof.
  apply (preserves_generate_media_session U same_consumer (fun _ => True)
           (fun st => conj eq_refl eq_refl) same_consumer_trans
           (fun e st _ => conj eq_refl eq_refl)
           (fun s st => conj eq_refl eq_refl)
           (fun n st => conj eq_refl eq_refl)
           (fun f ci st => conj eq_refl eq_refl)
           (fun _ _ => I)).
Qed.

Lemma extends_by_refl (K : event -> Prop) (st : state) : extends_by K st st.
Proof. exists []. now rewrite app_nil_r. Qed.

Lemma extends_by_trans (K : event -> Prop) (a b c : state) :
  extends_by K a b -> extends_by K b c -> extends_by K a c.
Proof.
  intros (t1 & E1 & F1) (t2 & E2 & F2). exists (t1 ++ t2).
  split; [now rewrite E2, E1, app_assoc|now apply Forall_app].
Qed.

Lemma extends_by_log (K : event -> Prop) (e : event) (st : state) :
  K e -> extends_by K st (log e st).
Proof. intros He. exists [e]. split; [reflexivity|]. now constructor. Qed.

Lemma extends_by_same_trace (K : event -> Prop) (st st' : state) :
  trace st' = trace st -> extends_by K st st'.
Proof. intros H. exists []. now rewrite app_nil_r. Qed.

Lemma generate_media_session_events (U : Upstream) (ci : Z)
  (file_id : FileId) :
  preserves (extends_by session_event) (generate_media_session U ci file_id).
Proof.
  apply (preserves_generate_media_session U (extends_by session_event)
           session_event
           (extends_by_refl _) (extends_by_trans _) (extends_by_log _)
           (fun s st => extends_by_same_trace _ st _ eq_refl)
           (fun n st => extends_by_same_trace _ st _ eq_refl)
           (fun f ci st => extends_by_same_trace _ st _ eq_refl)
           (fun _ H => H)).
Qed.

Lemma stream_body_events (P : Primitives) (U : Upstream) (fuel : nat)
  (ci : Z) (ms : Session) (file_id : FileId) (loc : Location)
  (offset fc lc pc cs cp : Z) :
  preserves (extends_by stream_event)
    (stream_body P U fuel ci ms file_id loc offset fc lc pc cs cp).
Proof.
  apply (preserves_stream_body P U (extends_by stream_event) stream_event
           (extends_by_refl _) (extends_by_trans _) (extends_by_log _)
           (fun s st => extends_by_same_trace _ st _ eq_refl)
           (fun n st => extends_by_same_trace _ st _ eq_refl)
           (fun d st => extends_by_same_trace _ st _ eq_refl)
           (fun c st => extends_by_same_trace _ st _ eq_refl)
           (fun _ H => H)).
Qed.

(** ** [work_loads] as a dictionary *)

Lemma dict_get_set {V : Type} (d : dict V) (k : Z) (v : V) :
  dict_get (dict_set d k v) k = Some v.
Proof.
  induction d as [|[k' v'] d IH]; simpl.
  - now rewrite Z.eqb_refl.
  - destruct (k' =? k) eqn:E; simpl; [now rewrite Z.eqb_refl|now rewrite E].
Qed.

Lemma dict_set_set {V : Type} (d : dict V) (k : Z) (v v' : V) :
  dict_set (dict_set d k v) k v' = dict_set d k v'.
Proof.
  induction d as [|[k' x] d IH]; simpl.
  - now rewrite Z.eqb_refl.
  - destruct (k' =? k) eqn:E; simpl; [now rewrite Z.eqb_refl|].
    now rewrite E, IH.
Qed.

Lemma dict_set_get {V : Type} (d : dict V) (k : Z) (v : V) :
  dict_get d k = Some v -> dict_set d k v = d.
Proof.
  induction d as [|[k' x] d IH]; simpl; [discriminate|].
  destruct (k' =? k) eqn:E.
  - apply Z.eqb_eq in E as ->. now intros [= ->].
  - intros H. now rewrite IH.
Qed.

(** ** The shape of a run of [yield_file] *)

Lemma stream_finish_run (P : Primitives) (U : Upstream) (fuel : nat)
  (file_id : FileId) (offset fc lc pc cs : Z) (ms : Session) (w : dict Z)
  (n : Z) (st1 : state) (rb : result unit) (st2 : state) :
  dict_get w (index file_id) = Some n ->
  work_loads st1 = dict_set w (index file_id) (n + 1) ->
  stream_body P U fuel (index file_id) ms file_id (get_location P file_id)
    offset fc lc pc cs 1 st1 = (rb, st2) ->
  try_finally
    (try_except
       (stream_body P U fuel (index file_id) ms file_id
          (get_location P file_id) offset fc lc pc cs 1)
       (stream_handler (index file_id) ms file_id))
    (work_loads_add (index file_id) (-1)) st1
  = stream_finish (index file_id) ms file_id w rb st2.
Proof.
  intros Hn Hw Hb.
  assert (Hw2 : work_loads st2 = dict_set w (index file_id) (n + 1)).
  { destruct (stream_body_same_globals _ _ _ _ _ _ _ _ _ _ _ _ _ _ _ _ Hb)
      as (E & _). congruence. }
  assert (Hdec : forall s, work_loads s = work_loads st2 ->
            work_loads_add (index file_id) (-1) s
            = (Return tt, set_work_loads w s)).
  { intros s Hs. unfold work_loads_add. rewrite Hs, Hw2, dict_get_set.
    rewrite dict_set_set. replace (n + 1 + -1) with n by lia.
    now rewrite (dict_set_get _ _ _ Hn). }
  unfold try_finally, try_except. rewrite Hb.
  destruct rb as [[]|e|]; simpl.
  - now rewrite Hdec.
  - unfold stream_handler.
    destruct e; simpl; try (now rewrite Hdec);
      unfold bind, update_media_sessions, Session_stop, modify, raise; simpl;
      now rewrite Hdec.
  - reflexivity.
Qed.

Lemma yield_file_run (P : Primitives) (U : Upstream) (fuel : nat)
  (file_id : FileId) (offset fc lc pc cs : Z) (st : state) (c : Client)
  (n : Z) :
  demand st <> Some O ->
  multi_clients st !! index file_id = Some c ->
  dict_get (work_loads st) (index file_id) = Some n ->
  yield_file P U fuel file_id offset fc lc pc cs st =
    match generate_media_session U (index file_id) file_id
            (set_work_loads
               (dict_set (work_loads st) (index file_id) (n + 1)) st) with
    | (Return ms, st1) =>
        let (rb, st2) :=
          stream_body P U fuel (index file_id) ms file_id
            (get_location P file_id) offset fc lc pc cs 1 st1 in
        stream_finish (index file_id) ms file_id (work_loads st) rb st2
    | (Raise e, st1) => (Raise e, st1)
    | (Diverge, st1) => (Diverge, st1)
    end.
Proof.
  intros Hd Hc Hn. unfold yield_file.
  assert (Hgo : forall (A : Type) (x y : A),
             match demand st with Some O => x | _ => y end = y).
  { intros A x y. destruct (demand st) as [[|k]|]; congruence. }
  rewrite Hgo.
  unfold bind at 1, client_attr at 1. rewrite Hc.
  unfold bind at 1, work_loads_add at 1. rewrite Hn.
  unfold bind at 1.
  destruct (generate_media_session U (index file_id) file_id _)
    as [[ms|e|] st1] eqn:Hg; try reflexivity.
  destruct (stream_body P U fuel (index file_id) ms file_id
              (get_location P file_id) offset fc lc pc cs 1 st1)
    as [rb st2] eqn:Hb.
  eapply stream_finish_run; [exact Hn| |exact Hb].
  destruct (generate_media_session_same_globals _ _ _ _ _ _ Hg) as (E & _).
  exact E.
Qed.

(** ** [work_loads] across [yield_file] *)

(** When the media session is obtained and the run ends, [work_loads] is
    what it was before the call, whatever the way the stream ends; when
    [generate_media_session] fails, the increment stays. *)
Lemma yield_file_work_loads (P : Primitives) (U : Upstream) (fuel : nat)
  (file_id : FileId) (offset fc lc pc cs : Z) (st : state)
  (r : result unit) (st' : state) :
  yield_file P U fuel file_id offset fc lc pc cs st = (r, st') ->
  r <> Diverge ->
  work_loads st' = work_loads st
  \/ exists n rg,
       dict_get (work_loads st) (index file_id) = Some n
       /\ generate_media_session U (index file_id) file_id
            (set_work_loads
               (dict_set (work_loads st) (index file_id) (n + 1)) st)
          = (rg, st')
       /\ failed rg
       /\ work_loads st' = dict_set (work_loads st) (index file_id) (n + 1).
Proof.
  intros H Hr.
  destruct (decide (demand st = Some O)) as [Hd|Hd].
  { unfold yield_file in H. rewrite Hd in H. injection H as <- <-. now left. }
  destruct (multi_clients st !! index file_id) as [c|] eqn:Hc.
  2:{ unfold yield_file, bind, client_attr in H. rewrite Hc in H.
      destruct (demand st) as [[|k]|]; try congruence;
        injection H as <- <-; now left. }
  destruct (dict_get (work_loads st) (index file_id)) as [n|] eqn:Hn.
  2:{ unfold yield_file, bind, client_attr, work_loads_add in H.
      rewrite Hc, Hn in H.
      destruct (demand st) as [[|k]|]; try congruence;
        injection H as <- <-; now left. }
  rewrite (yield_file_run P U fuel file_id offset fc lc pc cs st c n Hd Hc Hn)
    in H.
  destruct (generate_media_session U (index file_id) file_id _)
    as [[ms|e|] st1] eqn:Hg.
  - left.
    destruct (stream_body P U fuel (index file_id) ms file_id
                (get_location P file_id) offset fc lc pc cs 1 st1)
      as [rb st2].
    unfold stream_finish in H.
    destruct rb as [[]|e|]; [| |congruence].
    + now injection H as <- <-.
    + destruct e; simpl in H; now injection H as <- <-.
  - injection H as <- <-. right. exists n, (Raise e).
    destruct (generate_media_session_same_globals _ _ _ _ _ _ Hg) as (E & _).
    repeat split; auto.
  - injection H as <- <-. congruence.
Qed.

(** C2, where the code breaks it.  A file in a data center other than
    the home of its client, and an upstream that refuses every import of
    the authorization: [generate_media_session] raises
    [AuthBytesInvalid] after its 6 attempts, outside the [try] of
    [yield_file], so the [finally] clause does not run and
    [work_loads[0]] stays at 1 where it was 0. *)
Theorem yield_file_leaks_work_loads :
  work_loads idle = [(0, 0)]
  /\ fst (yield_file demo_primitives auth_rejecting 3 demo_file 0 0 4 1 4 idle)
     = Raise AuthBytesInvalid
  /\ work_loads
       (snd (yield_file demo_primitives auth_rejecting 3 demo_file 0 0 4 1 4
               idle))
     = [(0, 1)]
  /\ import_outcomes
       (trace
          (snd (yield_file demo_primitives auth_rejecting 3 demo_file 0 0 4 1
                  4 idle)))
     = replicate 6 (Raise AuthBytesInvalid).
Proof. vm_compute. repeat split. Qed.

(** ** Transport errors *)

(** C8, as the code has it.  When the media session was obtained and the
    body of the [try] raises an [OSError] that is not a [TimeoutError],
    [yield_file] raises that error again; before that it removes the
    media session from the table of the client, so that the next lookup
    finds none and a session is created anew, and stops it, as the last
    step of the run; [work_loads] is back at its value before the
    call. *)
Theorem yield_file_transport_error (P : Primitives) (U : Upstream)
  (fuel : nat) (file_id : FileId) (offset fc lc pc cs : Z) (st : state)
  (c : Client) (n : Z) (ms : Session) (st1 : state) (e : exn) (st2 : state) :
  demand st <> Some O ->
  multi_clients st !! index file_id = Some c ->
  dict_get (work_loads st) (index file_id) = Some n ->
  generate_media_session U (index file_id) file_id
    (set_work_loads (dict_set (work_loads st) (index file_id) (n + 1)) st)
  = (Return ms, st1) ->
  stream_body P U fuel (index file_id) ms file_id (get_location P file_id)
    offset fc lc pc cs 1 st1 = (Raise e, st2) ->
  isinstance_OSError e = true ->
  e <> TimeoutError ->
  exists st',
    yield_file P U fuel file_id offset fc lc pc cs st = (Raise e, st')
    /\ trace st' = trace st2 ++ [EvSessionStop ms]
    /\ (session_id ms ∉ started st')
    /\ (exists c', multi_clients st' !! index file_id = Some c'
                   /\ media_sessions c' !! dc_id file_id = None)
    /\ lookup_media_session (index file_id) file_id st' = (Return None, st')
    /\ work_loads st' = work_loads st.
Proof.
  intros Hd Hc Hn Hg Hb He Hne.
  rewrite (yield_file_run P U fuel file_id offset fc lc pc cs st c n Hd Hc Hn).
  rewrite Hg, Hb.
  destruct (generate_media_session_same_globals _ _ _ _ _ _ Hg)
    as (_ & _ & Hk1).
  destruct (stream_body_same_globals _ _ _ _ _ _ _ _ _ _ _ _ _ _ _ _ Hb)
    as (_ & _ & Hk2).
  destruct (Hk1 _ _ Hc) as (c1 & Hc1 & _).
  destruct (Hk2 _ _ Hc1) as (c2 & Hc2 & _).
  assert (Hfin : stream_finish (index file_id) ms file_id (work_loads st)
                   (Raise e) st2
                 = (Raise e,
                    set_work_loads (work_loads st)
                      (log (EvSessionStop ms)
                         (set_started (started st2 ∖ {[session_id ms]})
                            (set_multi_clients
                               (alter
                                  (fun c =>
                                     mkClient
                                       (delete (dc_id file_id)
                                          (media_sessions c))
                                       (storage_dc_id c)
                                       (storage_test_mode c)
                                       (storage_auth_key c))
                                  (index file_id) (multi_clients st2))
                               st2))))).
  { unfold stream_finish. destruct e; try discriminate; try reflexivity.
    congruence. }
  rewrite Hfin. eexists. split; [reflexivity|]. simpl.
  split; [reflexivity|]. split.
  { intros Hin. apply elem_of_difference in Hin as [_ Hn'].
    apply Hn', elem_of_singleton. reflexivity. }
  assert (Hgone : alter
                    (fun c => mkClient
                                (delete (dc_id file_id) (media_sessions c))
                                (storage_dc_id c) (storage_test_mode c)
                                (storage_auth_key c))
                    (index file_id) (multi_clients st2) !! index file_id
                  = Some (mkClient (delete (dc_id file_id) (media_sessions c2))
                            (storage_dc_id c2) (storage_test_mode c2)
                            (storage_auth_key c2))).
  { rewrite lookup_alter_eq, Hc2. reflexivity. }
  split.
  { eexists. split; [exact Hgone|]. simpl. apply lookup_delete_eq. }
  split; [|reflexivity].
  unfold lookup_media_session, bind, client_attr. simpl.
  rewrite Hgone. simpl. rewrite lookup_delete_eq. reflexivity.
Qed.

(** C8 as it is stated fails on a [TimeoutError], which is an [OSError]:
    when the first fetch times out, the error is the last step of the
    run, the stream ends as if complete, and the media session stays
    registered and started. *)
Lemma timeout_is_not_raised_again :
  isinstance_OSError TimeoutError = true
  /\ exists s loc st',
       yield_file demo_primitives timing_out 3 demo_file 0 0 4 1 4 idle
       = (Return tt, st')
       /\ last (trace st') = Some (EvGetFile s loc 0 4 (Raise TimeoutError))
       /\ (multi_clients st' !! 0) ≫= (fun c => media_sessions c !! 4)
          = Some s
       /\ bool_decide (session_id s ∈ started st') = true.
Proof.
  split; [reflexivity|].
  eexists _, _, _. split; [vm_compute; reflexivity|].
  vm_compute. repeat split.
Qed.

Lemma yield_file_transport_error_witness :
  exists st',
    yield_file demo_primitives resetting 3 demo_file 0 0 4 3 4 idle
    = (Raise ConnectionResetError, st')
    /\ (exists c', multi_clients st' !! 0 = Some c'
                   /\ media_sessions c' !! 4 = None)
    /\ work_loads st' = [(0, 0)].
Proof.
  destruct (yield_file_transport_error demo_primitives resetting 3 demo_file
              0 0 4 3 4 idle demo_client 0
              (fst (let (r, s) := generate_media_session resetting 0
                                    demo_file
                                    (set_work_loads [(0, 1)] idle) in
                    (match r with Return ms => ms
                                | _ => mkSession O 0 0 [] false false false
                     end, s)))
              (snd (generate_media_session resetting 0 demo_file
                      (set_work_loads [(0, 1)] idle)))
              ConnectionResetError
              (snd (stream_body demo_primitives resetting 3 0
                      (mkSession O 0 4 [x09] false true false) demo_file
                      (get_location demo_primitives demo_file) 0 0 4 3 4 1
                      (snd (generate_media_session resetting 0 demo_file
                              (set_work_loads [(0, 1)] idle))))))
    as (st' & Hrun & _ & _ & Hgone & _ & Hw).
  - discriminate.
  - reflexivity.
  - reflexivity.
  - vm_compute. reflexivity.
  - vm_compute. reflexivity.
  - reflexivity.
  - discriminate.
  - exists st'. auto.
Defined.

(** ** The slicing policy *)

Lemma sliced_from_length (fc lc pc : Z) (chunks : list bytes) :
  forall cp, length (sliced_from fc lc pc cp chunks) = length chunks.
Proof. induction chunks as [|c chunks IH]; intros cp; simpl; auto. Qed.

Lemma is_empty_nil {A : Type} (l : list A) : is_empty l = true <-> l = [].
Proof. destruct l; simpl; split; congruence. Qed.

Lemma fetched_chunks_empty_at (content : Z -> bytes) (cs : Z) (n : nat) :
  forall (off : Z) (j : nat),
    content (off + Z.of_nat j * cs) = [] ->
    (length (fetched_chunks content cs n off) <= j)%nat.
Proof.
  induction n as [|n IH]; intros off j Hj; simpl; [lia|].
  destruct (is_empty (content off)) eqn:E; simpl; [lia|].
  destruct j as [|j].
  - replace (off + Z.of_nat 0 * cs) with off in Hj by lia.
    apply is_empty_nil in Hj. congruence.
  - apply le_n_S, IH.
    replace (off + cs + Z.of_nat j * cs) with (off + Z.of_nat (S j) * cs)
      by lia.
    exact Hj.
Qed.

Lemma fetched_chunks_full (content : Z -> bytes) (cs : Z) (n : nat) :
  forall off,
    (forall k : nat, (k < n)%nat -> content (off + Z.of_nat k * cs) <> []) ->
    fetched_chunks content cs n off
    = map (fun k => content (off + Z.of_nat k * cs)) (seq 0 n).
Proof.
  induction n as [|n IH]; intros off Hne; [reflexivity|].
  cbn [fetched_chunks seq map].
  replace (off + Z.of_nat 0 * cs) with off by lia.
  destruct (is_empty (content off)) eqn:E.
  { apply is_empty_nil in E. exfalso. apply (Hne O); [lia|].
    now replace (off + Z.of_nat 0 * cs) with off by lia. }
  f_equal.
  rewrite IH, <- seq_shift, map_map.
  - apply map_ext. intros k. f_equal. lia.
  - intros k Hk.
    replace (off + cs + Z.of_nat k * cs) with (off + Z.of_nat (S k) * cs)
      by lia.
    apply Hne. lia.
Qed.

Lemma sliced_from_middle (fc lc pc : Z) (cN : bytes) (mid : list bytes) :
  forall cp,
    1 < cp -> cp + Z.of_nat (length mid) = pc ->
    sliced_from fc lc pc cp (mid ++ [cN])
    = mid ++ [py_slice None (Some lc) cN].
Proof.
  induction mid as [|c mid IH]; intros cp Hcp Hlen; simpl in *.
  - unfold part_slice.
    replace (pc =? 1) with false by (symmetry; apply Z.eqb_neq; lia).
    replace (cp =? 1) with false by (symmetry; apply Z.eqb_neq; lia).
    replace (cp =? pc) with true by (symmetry; apply Z.eqb_eq; lia).
    reflexivity.
  - unfold part_slice at 1.
    replace (pc =? 1) with false by (symmetry; apply Z.eqb_neq; lia).
    replace (cp =? 1) with false by (symmetry; apply Z.eqb_neq; lia).
    replace (cp =? pc) with false by (symmetry; apply Z.eqb_neq; lia).
    f_equal. apply IH; lia.
Qed.

Lemma sliced_stream_intro (content : Z -> bytes) (offset fc lc pc cs : Z)
  (yields : list bytes) (offsets : list Z) :
  1 <= pc ->
  yields = sliced_from fc lc pc 1
             (fetched_chunks content cs (Z.to_nat pc) offset) ->
  (forall k o, offsets !! k = Some o -> o = offset + Z.of_nat k * cs) ->
  sliced_stream content offset fc lc pc cs yields offsets.
Proof.
  intros Hpc Hy Ho. split; [exact Hy|]. split; [exact Ho|]. split.
  { intros j Hj. rewrite Hy, sliced_from_length.
    now apply fetched_chunks_empty_at. }
  intros Hne. rewrite Hy, (fetched_chunks_full content cs _ _ Hne).
  split; [now rewrite sliced_from_length, length_map, length_seq|].
  split.
  - intros ->. change (Z.to_nat 1) with 1%nat. cbn [seq map sliced_from].
    unfold part_slice. rewrite Z.eqb_refl.
    now replace (offset + Z.of_nat 0 * cs) with offset by lia.
  - intros Hgt.
    destruct (Z.to_nat pc) as [|[|m]] eqn:Em; try lia.
    replace (S (S m) - 2)%nat with m by lia.
    change (seq 0 (S (S m))) with (0%nat :: seq 1 (S m)).
    rewrite seq_S. cbn [map sliced_from]. rewrite map_app. cbn [map].
    unfold part_slice at 1.
    replace (pc =? 1) with false by (symmetry; apply Z.eqb_neq; lia).
    simpl (1 =? 1).
    replace (offset + Z.of_nat 0 * cs) with offset by lia. f_equal.
    replace (offset + Z.of_nat (1 + m) * cs) with (offset + (pc - 1) * cs)
      by (f_equal; f_equal; lia).
    apply sliced_from_middle; [lia|]. rewrite length_map, length_seq. lia.
Qed.

(** ** Streams whose upstream calls all return *)

Lemma while_true_S {S : Type} (fuel : nat) (body : S -> M (control S))
  (s : S) :
  while_true (Datatypes.S fuel) body s
  = bind (body s)
      (fun c => match c with
                | Break => ret tt
                | Continue s' => while_true fuel body s'
                end).
Proof. reflexivity. Qed.

Lemma set_trace_nil (st : state) : set_trace (trace st ++ []) st = st.
Proof. rewrite app_nil_r. now destruct st. Qed.

Lemma set_trace_nil' (st : state) : set_trace (trace st) st = st.
Proof. now destruct st. Qed.

Lemma set_trace_log (t : list event) (e : event) (st : state) :
  set_trace (trace (log e st) ++ t) (log e st)
  = set_trace (trace st ++ e :: t) st.
Proof. unfold log, set_trace. simpl. now rewrite <- app_assoc. Qed.

Lemma yield_part_slice (fc lc pc cp : Z) (chunk : bytes) :
  yield_part fc lc pc cp chunk = yield_ (part_slice fc lc pc cp chunk).
Proof.
  unfold yield_part, part_slice.
  destruct (pc =? 1), (cp =? 1), (cp =? pc); reflexivity.
Qed.

Lemma yield_all (chunk : bytes) (st : state) :
  demand st = None -> yield_ chunk st = (Return tt, log (EvYield chunk) st).
Proof. intros H. unfold yield_. now rewrite H. Qed.

Lemma file_loop_body_step (U : Upstream) (ms : Session) (loc : Location)
  (fc lc pc cs : Z) (b : bytes) (cp off : Z) (st : state) :
  demand st = None ->
  file_loop_body U ms loc fc lc pc cs (File b, cp, off) st
  = if is_empty b then (Return Break, st)
    else if cp + 1 >? pc then
      (Return Break, log (EvYield (part_slice fc lc pc cp b)) st)
    else
      let st1 := log (EvYield (part_slice fc lc pc cp b)) st in
      let r := up_get_file U (trace st1) ms loc (off + cs) cs in
      (match r with
       | Return f => Return (Continue (f, cp + 1, off + cs))
       | Raise e => Raise e
       | Diverge => Diverge
       end,
       log (EvGetFile ms loc (off + cs) cs r) st1).
Proof.
  intros Hd. unfold file_loop_body, bind at 1, getattr_bytes, ret at 1.
  destruct (is_empty b); [reflexivity|].
  unfold bind at 1. rewrite yield_part_slice, (yield_all _ _ Hd).
  destruct (cp + 1 >? pc); [reflexivity|].
  unfold bind, invoke_GetFile, upstream_call. cbv zeta.
  destruct (up_get_file U _ ms loc (off + cs) cs); reflexivity.
Qed.

Lemma file_loop_serving (U : Upstream) (ms : Session) (loc : Location)
  (fc lc pc cs : Z) (content : Z -> bytes) :
  (forall h off, up_get_file U h ms loc off cs = Return (File (content off))) ->
  forall fuel cp off st,
    demand st = None -> cp <= pc -> pc - cp < Z.of_nat fuel ->
    exists t,
      while_true fuel (file_loop_body U ms loc fc lc pc cs)
        (File (content off), cp, off) st
      = (Return tt, set_trace (trace st ++ t) st)
      /\ yielded t
         = sliced_from fc lc pc cp
             (fetched_chunks content cs (Z.to_nat (pc - cp + 1)) off)
      /\ forall k o,
           file_offsets t !! k = Some o ->
           o = off + (Z.of_nat k + 1) * cs.
Proof.
  intros Hserve. induction fuel as [|fuel IH]; intros cp off st Hd Hcp Hfuel;
    [lia|].
  rewrite while_true_S. unfold bind at 1.
  rewrite (file_loop_body_step U ms loc fc lc pc cs _ cp off st Hd).
  replace (Z.to_nat (pc - cp + 1)) with (S (Z.to_nat (pc - cp))) by lia.
  cbn [fetched_chunks].
  destruct (is_empty (content off)) eqn:Hempty.
  { exists []. unfold ret. rewrite set_trace_nil.
    split; [reflexivity|]. split; [reflexivity|].
    intros [|k] o Hk; discriminate Hk. }
  destruct (cp + 1 >? pc) eqn:Hlast.
  - apply Z.gtb_lt in Hlast.
    replace (Z.to_nat (pc - cp)) with O by lia.
    eexists [_]. unfold ret. split; [reflexivity|]. split; [reflexivity|].
    intros [|k] o Hk; discriminate Hk.
  - assert (Hnext : cp + 1 <= pc).
    { destruct (Z.gtb_spec (cp + 1) pc); [discriminate|lia]. }
    cbv zeta. rewrite Hserve.
    destruct (IH (cp + 1) (off + cs)
                (log (EvGetFile ms loc (off + cs) cs
                        (Return (File (content (off + cs)))))
                   (log (EvYield (part_slice fc lc pc cp (content off))) st)))
      as (t & Hrun & Hy & Ho); [exact Hd|lia|lia|].
    rewrite Hrun, !set_trace_log.
    eexists (_ :: _ :: t). split; [reflexivity|]. split.
    + cbn [yielded sliced_from]. rewrite Hy. do 3 f_equal. lia.
    + cbn [file_offsets]. intros [|k] o Hk; simpl in Hk.
      * injection Hk as <-. lia.
      * apply Ho in Hk. lia.
Qed.

Lemma check_hashes_verified (P : Primitives) (hashes : list FileHash)
  (dec : bytes) (st : state) :
  forall i,
    check_hashes P i hashes dec st
    = (if hashes_verified P i hashes dec then Return tt
       else Raise CDNFileHashMismatch, st).
Proof.
  induction hashes as [|h hashes IH]; intros i; [reflexivity|].
  cbn [check_hashes hashes_verified]. unfold bind, CDNFileHashMismatch_check.
  destruct (bool_decide _); simpl; [apply IH|reflexivity].
Qed.

Lemma cdn_loop_body_chunk (P : Primitives) (U : Upstream)
  (ms cdn : Session) (tok key iv : bytes) (fc lc pc cs : Z) (cp off : Z)
  (st : state) (b counter : bytes) (hs : list FileHash) :
  demand st = None ->
  up_get_cdn_file U (trace st) cdn tok off cs = Return (CdnFile b) ->
  to_bytes_4_big (off / 16) = Some counter ->
  up_get_cdn_file_hashes U
    (trace st ++ [EvGetCdnFile cdn tok off cs (Return (CdnFile b))])
    ms tok off = Return hs ->
  hashes_verified P 0 hs (decrypt_chunk P key iv counter b) = true ->
  cdn_loop_body P U ms cdn tok key iv fc lc pc cs (cp, off) st
  = let st2 :=
      log (EvGetCdnFileHashes ms tok off (Return hs))
        (log (EvGetCdnFile cdn tok off cs (Return (CdnFile b))) st) in
    let dec := decrypt_chunk P key iv counter b in
    if is_empty dec then (Return Break, st2)
    else
      (Return (if cp + 1 >? pc then Break
               else Continue (cp + 1, off + cs)),
       log (EvYield (part_slice fc lc pc cp dec)) st2).
Proof.
  intros Hd Hg Hc Hh Hv.
  unfold cdn_loop_body, bind at 1, invoke_GetCdnFile, upstream_call.
  rewrite Hg. unfold bind at 1, counter_bytes. rewrite Hc. unfold ret at 1.
  unfold bind at 1, invoke_GetCdnFileHashes, upstream_call.
  rewrite trace_log, Hh.
  unfold bind at 1. rewrite check_hashes_verified, Hv. cbv zeta.
  destruct (is_empty (decrypt_chunk P key iv counter b)); [reflexivity|].
  unfold bind at 1. rewrite yield_part_slice, yield_all by exact Hd.
  destruct (cp + 1 >? pc); reflexivity.
Qed.

Lemma cdn_loop_serving (P : Primitives) (U : Upstream) (ms cdn : Session)
  (tok key iv : bytes) (fc lc pc cs : Z) (cipher : Z -> bytes)
  (hashes : Z -> list FileHash) :
  (forall h off,
     up_get_cdn_file U h cdn tok off cs = Return (CdnFile (cipher off))) ->
  (forall h off, up_get_cdn_file_hashes U h ms tok off = Return (hashes off)) ->
  forall fuel cp off st,
    demand st = None -> cp <= pc -> pc - cp < Z.of_nat fuel ->
    (forall k : nat,
       (k < Z.to_nat (pc - cp + 1))%nat ->
       0 <= off + Z.of_nat k * cs < 2 ^ 36
       /\ hashes_verified P 0 (hashes (off + Z.of_nat k * cs))
            (cdn_plain P key iv cipher (off + Z.of_nat k * cs)) = true) ->
    exists t,
      while_true fuel (cdn_loop_body P U ms cdn tok key iv fc lc pc cs)
        (cp, off) st
      = (Return tt, set_trace (trace st ++ t) st)
      /\ yielded t
         = sliced_from fc lc pc cp
             (fetched_chunks (cdn_plain P key iv cipher) cs
                (Z.to_nat (pc - cp + 1)) off)
      /\ (forall k o,
            cdn_offsets t !! k = Some o -> o = off + Z.of_nat k * cs)
      /\ file_offsets t = [].
Proof.
  intros Hcdn Hhash.
  induction fuel as [|fuel IH]; intros cp off st Hd Hcp Hfuel Hok; [lia|].
  destruct (Hok O) as (Hoff & Hver); [lia|].
  replace (off + Z.of_nat 0 * cs) with off in Hoff, Hver by lia.
  assert (Hrange : 0 <= off / 16 < 2 ^ 32).
  { split; [apply Z.div_pos; lia|].
    apply Z.div_lt_upper_bound; [lia|]. nia. }
  destruct (to_bytes_4_big (off / 16)) as [counter|] eqn:Hctr.
  2:{ unfold to_bytes_4_big in Hctr.
      replace (0 <=? off / 16) with true in Hctr
        by (symmetry; apply Z.leb_le; lia).
      replace (off / 16 <? 2 ^ 32) with true in Hctr
        by (symmetry; apply Z.ltb_lt; lia).
      discriminate. }
  assert (Hplain : cdn_plain P key iv cipher off
                   = decrypt_chunk P key iv counter (cipher off)).
  { unfold cdn_plain. now rewrite Hctr. }
  rewrite while_true_S. unfold bind at 1.
  rewrite (cdn_loop_body_chunk P U ms cdn tok key iv fc lc pc cs cp off st
             (cipher off) counter (hashes off) Hd (Hcdn _ _) Hctr
             (Hhash _ _)) by (rewrite <- Hplain; exact Hver).
  cbv zeta.
  replace (Z.to_nat (pc - cp + 1)) with (S (Z.to_nat (pc - cp))) by lia.
  cbn [fetched_chunks]. rewrite Hplain.
  destruct (is_empty (decrypt_chunk P key iv counter (cipher off))) eqn:Hempty.
  { eexists [_; _].
    split; [unfold ret, log, set_trace; simpl; now rewrite <- !app_assoc|].
    split; [reflexivity|]. split; [|reflexivity].
    intros [|[|k]] o Hk; try discriminate Hk. injection Hk as <-. lia. }
  destruct (cp + 1 >? pc) eqn:Hlast.
  - apply Z.gtb_lt in Hlast.
    replace (Z.to_nat (pc - cp)) with O by lia.
    eexists [_; _; _].
    split; [unfold ret, log, set_trace; simpl; now rewrite <- !app_assoc|].
    split; [reflexivity|]. split; [|reflexivity].
    intros [|[|k]] o Hk; try discriminate Hk. injection Hk as <-. lia.
  - assert (Hnext : cp + 1 <= pc).
    { destruct (Z.gtb_spec (cp + 1) pc); [discriminate|lia]. }
    match goal with
    | |- context [while_true fuel ?body (cp + 1, off + cs) ?s] =>
        destruct (IH (cp + 1) (off + cs) s) as (t & Hrun & Hy & Ho & Hf);
          [exact Hd|lia|lia| |]
    end.
    { intros k Hk.
      replace (off + cs + Z.of_nat k * cs) with (off + Z.of_nat (S k) * cs)
        by lia.
      apply Hok. lia. }
    rewrite Hrun, !set_trace_log.
    eexists (_ :: _ :: _ :: t). split; [reflexivity|]. split.
    + cbn [yielded sliced_from]. rewrite Hy. do 3 f_equal. lia.
    + split; [|exact Hf].
      cbn [cdn_offsets]. intros [|k] o Hk; simpl in Hk.
      * injection Hk as <-. lia.
      * apply Ho in Hk. lia.
Qed.

Lemma cdn_branch_serving (P : Primitives) (U : Upstream) (fuel : nat)
  (ci : Z) (ms : Session) (file_id : FileId) (dc : Z) (tok key iv : bytes)
  (offset fc lc pc cs : Z) (cipher : Z -> bytes)
  (hashes : Z -> list FileHash) (st : state) (c : Client) :
  multi_clients st !! ci = Some c ->
  demand st = None ->
  (forall h tm, exists k, up_auth_create U h ci dc tm = Return k) ->
  (forall h s, up_session_start U h s = Return tt) ->
  (forall h s off,
     up_get_cdn_file U h s tok off cs = Return (CdnFile (cipher off))) ->
  (forall h off, up_get_cdn_file_hashes U h ms tok off = Return (hashes off)) ->
  (forall k : nat,
     (k < Z.to_nat pc)%nat ->
     0 <= offset + Z.of_nat k * cs < 2 ^ 36
     /\ hashes_verified P 0 (hashes (offset + Z.of_nat k * cs))
          (cdn_plain P key iv cipher (offset + Z.of_nat k * cs)) = true) ->
  1 <= pc -> pc <= Z.of_nat fuel ->
  exists st' t,
    cdn_branch P U fuel ci ms file_id dc tok key iv offset fc lc pc cs 1 st
    = (Return tt, st')
    /\ trace st' = trace st ++ t
    /\ yielded t
       = sliced_from fc lc pc 1
           (fetched_chunks (cdn_plain P key iv cipher) cs (Z.to_nat pc) offset)
    /\ (forall k o, cdn_offsets t !! k = Some o -> o = offset + Z.of_nat k * cs)
    /\ file_offsets t = [].
Proof.
  intros Hc Hd Hauth Hstart Hcdn Hhash Hok Hpc Hfuel.
  unfold cdn_branch, bind at 1, cdn_count_incr, modify.
  unfold bind at 1, client_attr at 1. simpl. rewrite Hc.
  unfold bind at 1, Auth_create, upstream_call. simpl.
  destruct (Hauth (trace st) (storage_test_mode c)) as (k & ->).
  unfold bind at 1, client_attr at 1. simpl. rewrite Hc.
  unfold bind at 1, new_Session. simpl.
  match goal with
  | |- context [Session_start U ?s] => set (cdn := s)
  end.
  unfold try_finally, try_except, bind at 1.
  rewrite Session_start_run, Hstart.
  match goal with
  | |- context [while_true fuel ?body (1, offset) ?s] =>
      destruct (cdn_loop_serving P U ms cdn tok key iv fc lc pc cs cipher
                  hashes (fun h off => Hcdn h cdn off) Hhash
                  fuel 1 offset s)
        as (t & Hrun & Hy & Ho & Hf); [exact Hd|lia|lia| |]
  end.
  { intros j Hj. apply Hok. lia. }
  rewrite Hrun. unfold Session_stop, modify.
  eexists _, (_ :: _ :: t ++ [_]). split; [reflexivity|]. simpl.
  split; [rewrite <- !app_assoc; reflexivity|].
  split.
  { replace (pc - 1 + 1) with pc in Hy by lia.
    rewrite <- Hy. clear. induction t as [|[] t IH]; simpl; congruence. }
  split.
  { intros j o Hj. apply Ho.
    clear -Hj. revert j Hj.
    induction t as [|e t IH]; intros j Hj; [destruct j; discriminate|].
    destruct e; simpl in *; auto.
    destruct j; simpl in *; auto. }
  clear -Hf. induction t as [|[] t IH]; simpl in *; auto; discriminate.
Qed.

Lemma yielded_app (t1 t2 : list event) :
  yielded (t1 ++ t2) = yielded t1 ++ yielded t2.
Proof. induction t1 as [|[] t1 IH]; simpl; congruence. Qed.

(** C1, as the code has it.  A stream of [part_count >= 1] parts, read to
    the end by its consumer, on a media session that was obtained, with
    fuel for [part_count] iterations.  When the upstream answers every
    fetch with the file content at the offset asked for, the generator
    ends normally and what it yielded and where it fetched is a
    [sliced_stream] of that content.  When the first fetch is answered by
    a CDN redirect, [Auth.create] and the start of the CDN session
    return, the CDN node answers every fetch with the cipher text at the
    offset, and each of the offsets [offset + k * chunk_size],
    [k < part_count], lies in [0, 2^36), where [offset // 16] fits the
    four bytes of the counter, and has hashes that verify its plain
    text, the same holds of the plain text. *)
Theorem yield_file_slicing (P : Primitives) (U : Upstream) (fuel : nat)
  (file_id : FileId) (offset fc lc pc cs : Z) (st : state) (c : Client)
  (n : Z) (ms : Session) (st1 : state) :
  demand st = None ->
  multi_clients st !! index file_id = Some c ->
  dict_get (work_loads st) (index file_id) = Some n ->
  generate_media_session U (index file_id) file_id
    (set_work_loads (dict_set (work_loads st) (index file_id) (n + 1)) st)
  = (Return ms, st1) ->
  1 <= pc -> pc <= Z.of_nat fuel ->
  (forall content,
     (forall h off,
        up_get_file U h ms (get_location P file_id) off cs
        = Return (File (content off))) ->
     exists st' t,
       yield_file P U fuel file_id offset fc lc pc cs st = (Return tt, st')
       /\ trace st' = trace st1 ++ t
       /\ sliced_stream content offset fc lc pc cs
            (yielded t) (file_offsets t))
  /\ (forall dc tok key iv cipher hashes,
        up_get_file U (trace st1) ms (get_location P file_id) offset cs
        = Return (FileCdnRedirect dc tok key iv) ->
        (forall h tm,
           exists k, up_auth_create U h (index file_id) dc tm = Return k) ->
        (forall h s, up_session_start U h s = Return tt) ->
        (forall h s off,
           up_get_cdn_file U h s tok off cs = Return (CdnFile (cipher off))) ->
        (forall h off,
           up_get_cdn_file_hashes U h ms tok off = Return (hashes off)) ->
        (forall k : nat,
           (k < Z.to_nat pc)%nat ->
           0 <= offset + Z.of_nat k * cs < 2 ^ 36
           /\ hashes_verified P 0 (hashes (offset + Z.of_nat k * cs))
                (cdn_plain P key iv cipher (offset + Z.of_nat k * cs))
              = true) ->
        exists st' t,
          yield_file P U fuel file_id offset fc lc pc cs st = (Return tt, st')
          /\ trace st' = trace st1 ++ t
          /\ sliced_stream (cdn_plain P key iv cipher) offset fc lc pc cs
               (yielded t) (cdn_offsets t)).
Proof.
  intros Hd Hc Hn Hg Hpc Hfuel.
  assert (Hd0 : demand st <> Some O) by (rewrite Hd; discriminate).
  assert (Hd1 : demand st1 = None).
  { destruct (generate_media_session_same_consumer _ _ _ _ _ _ Hg) as (E & _).
    now rewrite E. }
  destruct (generate_media_session_same_globals _ _ _ _ _ _ Hg)
    as (_ & _ & Hk1).
  destruct (Hk1 _ _ Hc) as (c1 & Hc1 & _).
  rewrite (yield_file_run P U fuel file_id offset fc lc pc cs st c n Hd0 Hc Hn),
    Hg.
  split.
  - intros content Hserve.
    unfold stream_body, bind at 1, invoke_GetFile, upstream_call.
    rewrite Hserve.
    match goal with
    | |- context [while_true fuel ?body ?s0 ?s] =>
        destruct (file_loop_serving U ms (get_location P file_id) fc lc pc cs
                    content Hserve fuel 1 offset s)
          as (t & Hrun & Hy & Ho); [exact Hd1|lia|lia|]
    end.
    rewrite Hrun. unfold stream_finish.
    eexists _, (_ :: t). split; [reflexivity|]. simpl.
    split; [now rewrite <- app_assoc|].
    apply sliced_stream_intro; [exact Hpc| |].
    + replace (pc - 1 + 1) with pc in Hy by lia. exact Hy.
    + intros [|k] o Hk; simpl in Hk.
      * injection Hk as <-. lia.
      * apply Ho in Hk. lia.
  - intros dc tok key iv cipher hashes Hr Hauth Hstart Hcdn Hhash Hok.
    unfold stream_body, bind at 1, invoke_GetFile, upstream_call.
    rewrite Hr.
    match goal with
    | |- context [cdn_branch P U fuel ?ci ms file_id dc tok key iv offset
                    fc lc pc cs 1 ?s] =>
        destruct (cdn_branch_serving P U fuel ci ms file_id dc tok key iv
                    offset fc lc pc cs cipher hashes s c1)
          as (st2 & t & Hrun & Ht & Hy & Ho & _); auto
    end.
    rewrite Hrun. unfold stream_finish.
    eexists _, (_ :: t). split; [reflexivity|]. simpl.
    split; [rewrite Ht; simpl; now rewrite <- app_assoc|].
    apply sliced_stream_intro; assumption.
Qed.

(** ** The properties on the scenarios *)

(** C1 as it is stated fails for [part_count = 0]: every chunk of
    [serving] is non-empty, and the stream yields one chunk, the first
    one cut at the front, where the claim has none. *)
Lemma yield_file_zero_parts_yields_one :
  (forall offset, file_content offset <> [])
  /\ yielded
       (trace
          (snd (yield_file demo_primitives serving 3 demo_file 0 1 2 0 4 idle)))
     = [py_slice (Some 1) None (file_content 0)]
  /\ length
       (yielded
          (trace
             (snd (yield_file demo_primitives serving 3 demo_file 0 1 2 0 4
                     idle))))
     <> Z.to_nat 0.
Proof.
  split; [discriminate|]. split; [vm_compute; reflexivity|].
  vm_compute. discriminate.
Qed.

Lemma cdn_plain_demo (off : Z) :
  0 <= off < 2 ^ 36 ->
  cdn_plain demo_primitives [x08] [x00; x00; x00; x00; x00; x00; x00; x00]
    file_content off
  = file_content off.
Proof.
  intros Hoff. unfold cdn_plain, to_bytes_4_big.
  replace (0 <=? off / 16) with true
    by (symmetry; apply Z.leb_le, Z.div_pos; lia).
  replace (off / 16 <? 2 ^ 32) with true
    by (symmetry; apply Z.ltb_lt, Z.div_lt_upper_bound; lia).
  reflexivity.
Qed.

Lemma yield_file_slicing_witness :
  (exists st' t,
     yield_file demo_primitives serving 3 demo_file 0 1 2 3 4 idle
     = (Return tt, st')
     /\ yielded t
        = [py_slice (Some 1) None (file_content 0); file_content 4;
           py_slice None (Some 2) (file_content 8)])
  /\ (exists st' t,
        yield_file demo_primitives cdn_redirecting 3 demo_file 0 1 2 3 4 idle
        = (Return tt, st')
        /\ yielded t
           = [py_slice (Some 1) None (file_content 0); file_content 4;
              py_slice None (Some 2) (file_content 8)]
        /\ forall k o, cdn_offsets t !! k = Some o -> o = 0 + Z.of_nat k * 4).
Proof.
  split.
  - destruct (proj1 (yield_file_slicing demo_primitives serving 3 demo_file
                       0 1 2 3 4 idle demo_client 0
                       (mkSession O 0 4 [x09] false true false)
                       (snd (generate_media_session serving 0 demo_file
                               (set_work_loads [(0, 1)] idle)))
                       eq_refl eq_refl eq_refl eq_refl
                       ltac:(lia) ltac:(simpl; lia))
                file_content (fun _ _ => eq_refl))
      as (st' & t & Hrun & _ & _ & _ & _ & Hfull).
    exists st', t. split; [exact Hrun|].
    destruct (Hfull ltac:(discriminate)) as (_ & _ & Hmany).
    rewrite (Hmany ltac:(lia)). reflexivity.
  - destruct (proj2 (yield_file_slicing demo_primitives cdn_redirecting 3
                       demo_file 0 1 2 3 4 idle demo_client 0
                       (mkSession O 0 4 [x09] false true false)
                       (snd (generate_media_session cdn_redirecting 0
                               demo_file (set_work_loads [(0, 1)] idle)))
                       eq_refl eq_refl eq_refl eq_refl
                       ltac:(lia) ltac:(simpl; lia))
                5 [x07] [x08] [x00; x00; x00; x00; x00; x00; x00; x00]
                file_content
                (fun off => [mkFileHash off 4 (file_content off)])
                eq_refl
                (fun _ _ => ex_intro _ [x09] eq_refl)
                (fun _ _ => eq_refl) (fun _ _ _ => eq_refl)
                (fun _ _ => eq_refl))
      as (st' & t & Hrun & _ & Hy & Ho & _ & _).
    + intros k Hk. split; [lia|].
      rewrite (cdn_plain_demo (0 + Z.of_nat k * 4)) by lia.
      cbn [hashes_verified fh_hash fh_limit].
      rewrite bool_decide_true; reflexivity.
    + exists st', t. split; [exact Hrun|]. split; [|exact Ho].
      rewrite Hy. change (Z.to_nat 3) with 3%nat. cbn [fetched_chunks].
      rewrite !cdn_plain_demo by lia. reflexivity.
Defined.

Lemma get_file_properties_cache_hit_witness :
  get_file_properties lookup_failing "f1"
    (set_cached_file_ids {["f1" := demo_file]} idle)
  = (Return demo_file, set_cached_file_ids {["f1" := demo_file]} idle)
  /\ get_file_properties lookup_failing "f1"
       (snd (get_file_properties serving "f1" idle))
     = (Return demo_file, snd (get_file_properties serving "f1" idle)).
Proof.
  split.
  - apply (proj1 (get_file_properties_cache_hit lookup_failing "f1"
                    (set_cached_file_ids {["f1" := demo_file]} idle))).
    reflexivity.
  - apply (get_file_properties_hit lookup_failing "f1").
    apply (get_file_properties_returns_cached serving "f1" idle).
    reflexivity.
Defined.

Lemma generate_file_properties_failure_not_cached_witness :
  exists st',
    generate_file_properties lookup_failing "f1" idle = (Raise FloodWait, st')
    /\ cached_file_ids st' = cached_file_ids idle.
Proof.
  destruct (generate_file_properties_failure_not_cached lookup_failing "f1"
              idle 0 FloodWait eq_refl
              (ex_intro _ demo_client eq_refl) eq_refl)
    as (st' & Hrun & Hcache & _).
  exists st'. split; assumption.
Defined.

Lemma least_loaded_first_minimum_witness :
  get_file_properties serving "f1" three_clients
  = (Return demo_file,
     set_cached_file_ids {["f1" := demo_file]}
       (log (EvGetFileIds 1 "f1" (Return demo_file)) three_clients))
  /\ exists t,
       trace (snd (get_file_properties serving "f1" three_clients))
       = trace three_clients ++ t
       /\ t = [EvGetFileIds 1 "f1" (Return demo_file)]
       /\ forall k,
            In k [0; 1; 2] ->
            load_of (work_loads three_clients) k
            = load_of (work_loads three_clients) 1 ->
            1 <= k.
Proof.
  split; [reflexivity|].
  destruct (least_loaded_first_minimum serving "f1" three_clients _ _
              eq_refl (surjective_pairing _))
    as (t & Ht & _ & Hsel & Hdemo).
  exists t. split; [exact Ht|].
  pose proof (Hdemo eq_refl ltac:(vm_compute; eauto)) as E.
  split; [exact E|].
  destruct (Hsel 1 "f1" (Return demo_file)) as (_ & _ & _ & _ & _ & Hlow).
  { rewrite E. now left. }
  apply Hlow. repeat constructor; lia.
Defined.

(** C4 as it is stated fails when the dictionary does not iterate in
    ascending order of index: in [{1: 1, 0: 1}] the loads tie, index [1]
    comes first and the lookup of a resolution that misses the cache goes
    through it, and index [0] is lower. *)
Lemma least_loaded_not_lowest_index :
  cached_file_ids unordered !! "f1" = None
  /\ work_loads unordered = [(1, 1); (0, 1)]
  /\ trace (snd (get_file_properties serving "f1" unordered))
     = [EvGetFileIds 1 "f1" (Return demo_file)]
  /\ least_loaded [(1, 1); (0, 1)] = Return 1
  /\ ~ (forall k, In k (dict_keys [(1, 1); (0, 1)]) ->
          load_of [(1, 1); (0, 1)] k = load_of [(1, 1); (0, 1)] 1 ->
          1 <= k).
Proof.
  split; [reflexivity|]. split; [reflexivity|]. split; [reflexivity|].
  split; [reflexivity|]. intros H.
  specialize (H 0 ltac:(simpl; auto) eq_refl). lia.
Qed.

Lemma generate_media_session_import_retries_witness :
  (exists exs,
     length exs = 6%nat
     /\ trace (snd (generate_media_session auth_rejecting 0 demo_file idle))
        = EvAuthCreate 0 4 false (Return [x09])
          :: EvSessionStart (mkSession 0 0 4 [x09] false true false)
               (Return tt)
          :: refused_rounds 0 demo_file
               (mkSession 0 0 4 [x09] false true false) exs
          ++ [EvSessionStop (mkSession 0 0 4 [x09] false true false)]
     /\ fst (generate_media_session auth_rejecting 0 demo_file idle)
        = Raise AuthBytesInvalid
     /\ session_of (snd (generate_media_session auth_rejecting 0 demo_file
                           idle)) 0 4 = None)
  /\ (exists ex,
        trace (snd (generate_media_session serving 0 demo_file idle))
        = [EvAuthCreate 0 4 false (Return [x09]);
           EvSessionStart (mkSession 0 0 4 [x09] false true false)
             (Return tt);
           EvExportAuthorization 0 4 (Return ex);
           EvImportAuthorization (mkSession 0 0 4 [x09] false true false)
             (ea_id ex) (ea_bytes ex) (Return tt)]
        /\ fst (generate_media_session serving 0 demo_file idle)
           = Return (mkSession 0 0 4 [x09] false true false)
        /\ session_of (snd (generate_media_session serving 0 demo_file
                              idle)) 0 4
           = Some (mkSession 0 0 4 [x09] false true false)).
Proof.
  split.
  - destruct (generate_media_session_import_retries auth_rejecting 0
                demo_file idle demo_client _ _ eq_refl
                ltac:(vm_compute; discriminate)
                ltac:(intros s0 Hs0; vm_compute in Hs0; discriminate)
                (surjective_pairing _))
      as (rk & t & Ht & Hrk).
    set (run := generate_media_session auth_rejecting 0 demo_file idle) in *.
    assert (Er : run.1 = Raise AuthBytesInvalid) by (vm_compute; reflexivity).
    vm_compute in Ht. injection Ht as <- <-.
    cbv zeta in Hrk. destruct Hrk as (rs & t_imp & Et & Hrs).
    vm_compute in Et. injection Et as <- <-.
    destruct Hrs as (exs & tl & Eimp & Hends).
    rewrite Er in Hends.
    destruct Hends as [(_ & ex & _ & Hr & _)|[(_ & ex & ri & Hri & Hne & _ & Hr & _)|[(_ & rx & _ & -> & _)|(Hlen & -> & _ & _ & Hno)]]].
    + discriminate Hr.
    + destruct ri as [[]|e|]; simpl in Hri, Hr;
        [contradiction|congruence|discriminate].
    + exfalso. apply (f_equal last) in Eimp. rewrite last_snoc in Eimp.
      vm_compute in Eimp. discriminate Eimp.
    + exists exs. split; [exact Hlen|]. split; [|split; [exact Er|exact Hno]].
      transitivity
        (EvAuthCreate 0 4 false (Return [x09])
         :: EvSessionStart (mkSession 0 0 4 [x09] false true false)
              (Return tt)
         :: [EvExportAuthorization 0 4
               (Return (mkExportedAuthorization 1 [x05]));
             EvImportAuthorization (mkSession 0 0 4 [x09] false true false)
               1 [x05] (Raise AuthBytesInvalid);
             EvExportAuthorization 0 4
               (Return (mkExportedAuthorization 1 [x05]));
             EvImportAuthorization (mkSession 0 0 4 [x09] false true false)
               1 [x05] (Raise AuthBytesInvalid);
             EvExportAuthorization 0 4
               (Return (mkExportedAuthorization 1 [x05]));
             EvImportAuthorization (mkSession 0 0 4 [x09] false true false)
               1 [x05] (Raise AuthBytesInvalid);
             EvExportAuthorization 0 4
               (Return (mkExportedAuthorization 1 [x05]));
             EvImportAuthorization (mkSession 0 0 4 [x09] false true false)
               1 [x05] (Raise AuthBytesInvalid);
             EvExportAuthorization 0 4
               (Return (mkExportedAuthorization 1 [x05]));
             EvImportAuthorization (mkSession 0 0 4 [x09] false true false)
               1 [x05] (Raise AuthBytesInvalid);
             EvExportAuthorization 0 4
               (Return (mkExportedAuthorization 1 [x05]));
             EvImportAuthorization (mkSession 0 0 4 [x09] false true false)
               1 [x05] (Raise AuthBytesInvalid);
             EvSessionStop (mkSession 0 0 4 [x09] false true false)]);
        [vm_compute; reflexivity|].
      do 2 f_equal. exact Eimp.
  - destruct (generate_media_session_import_retries serving 0
                demo_file idle demo_client _ _ eq_refl
                ltac:(vm_compute; discriminate)
                ltac:(intros s0 Hs0; vm_compute in Hs0; discriminate)
                (surjective_pairing _))
      as (rk & t & Ht & Hrk).
    set (run := generate_media_session serving 0 demo_file idle) in *.
    assert (Er : run.1 = Return (mkSession 0 0 4 [x09] false true false))
      by (vm_compute; reflexivity).
    vm_compute in Ht. injection Ht as <- <-.
    cbv zeta in Hrk. destruct Hrk as (rs & t_imp & Et & Hrs).
    vm_compute in Et. injection Et as <- <-.
    destruct Hrs as (exs & tl & Eimp & Hends).
    rewrite Er in Hends.
    destruct Hends as [(_ & ex & -> & _ & _ & Hreg)|[(_ & ex & ri & _ & _ & _ & Hr & _)|[(_ & rx & _ & _ & Hr & _)|(_ & _ & Hr & _)]]].
    + destruct exs as [|ex0 exs]; [|discriminate Eimp].
      exists ex. split; [|split; [exact Er|exact Hreg]].
      transitivity
        [EvAuthCreate 0 4 false (Return [x09]);
         EvSessionStart (mkSession 0 0 4 [x09] false true false)
           (Return tt);
         EvExportAuthorization 0 4
           (Return (mkExportedAuthorization 1 [x05]));
         EvImportAuthorization (mkSession 0 0 4 [x09] false true false)
           1 [x05] (Return tt)];
        [vm_compute; reflexivity|].
      do 2 f_equal. exact Eimp.
    + destruct ri; discriminate Hr.
    + destruct rx; discriminate Hr.
    + discriminate Hr.
Defined.

(** ** Every run of a loop is a sequence of iterations *)

Lemma while_true_run {S : Type} (body : S -> M (control S))
  (iter : S -> list event -> result (control S) -> Prop) :
  (forall s st c st',
     body s st = (c, st') -> exists t, trace st' = trace st ++ t /\ iter s t c) ->
  forall fuel s st r st',
    while_true fuel body s st = (r, st') ->
    exists t, trace st' = trace st ++ t /\ loop_run iter s t r.
Proof.
  intros Hbody. induction fuel as [|fuel IH]; intros s st r st'.
  - intros [= <- <-]. exists []. rewrite app_nil_r. split; [reflexivity|].
    constructor.
  - rewrite while_true_S. unfold bind.
    destruct (body s st) as [[[|s']|e|] s1] eqn:Eb;
      destruct (Hbody _ _ _ _ Eb) as (t & Ht & Hi).
    + intros [= <- <-]. exists t. split; [exact Ht|]. now constructor.
    + intros H. apply IH in H as (t' & Ht' & Hl).
      exists (t ++ t'). split; [now rewrite Ht', Ht, app_assoc|].
      econstructor; eassumption.
    + intros [= <- <-]. exists t. split; [exact Ht|]. now constructor.
    + intros [= <- <-]. exists t. split; [exact Ht|]. now constructor.
Qed.

Lemma yield_run (c : bytes) (st : state) (r : result unit) (st' : state) :
  yield_ c st = (r, st') ->
  (r = Return tt /\ trace st' = trace st ++ [EvYield c])
  \/ (r = Raise GeneratorExit
      /\ (trace st' = trace st ++ [] \/ trace st' = trace st ++ [EvYield c])).
Proof.
  unfold yield_. destruct (demand st) as [[|[|n]]|]; intros [= <- <-]; simpl.
  - right. split; [reflexivity|]. left. now rewrite app_nil_r.
  - right. split; [reflexivity|]. now right.
  - left. split; reflexivity.
  - left. split; reflexivity.
Qed.

Lemma cdn_loop_body_iter (P : Primitives) (U : Upstream) (ms cdn : Session)
  (tok key iv : bytes) (fc lc pc cs : Z) (s : Z * Z) (st : state)
  (r : result (control (Z * Z))) (st' : state) :
  cdn_loop_body P U ms cdn tok key iv fc lc pc cs s st = (r, st') ->
  exists t,
    trace st' = trace st ++ t
    /\ cdn_iter P ms cdn tok key iv fc lc pc cs s t r.
Proof.
  destruct s as [cp off].
  unfold cdn_loop_body, bind at 1, invoke_GetCdnFile, upstream_call.
  destruct (up_get_cdn_file U (trace st) cdn tok off cs) as [[rt|b]|e|] eqn:Eg.
  - (* reupload needed *)
    unfold bind at 1, try_except, bind at 1, invoke_ReuploadCdnFile,
      upstream_call. simpl.
    destruct (up_reupload_cdn_file U _ ms tok rt) as [[]|e|] eqn:Er; simpl.
    + intros [= <- <-]. eexists [_; _]. simpl. rewrite <- app_assoc.
      split; [reflexivity|]. constructor.
    + destruct (decide (e = VolumeLocNotFound)) as [->|Hne].
      * simpl. intros [= <- <-]. eexists [_; _]. simpl. rewrite <- app_assoc.
        split; [reflexivity|]. constructor.
      * assert (Hh : forall st1,
                  match match e with
                        | VolumeLocNotFound => Some (ret false)
                        | _ => None
                        end with
                  | Some h => h st1
                  | None => (Raise e, st1)
                  end = (@Raise bool e, st1)) by (destruct e; congruence).
        rewrite Hh. intros [= <- <-]. eexists [_; _]. simpl.
        rewrite <- app_assoc. split; [reflexivity|].
        apply (cdn_iter_reupload_failed P ms cdn tok key iv fc lc pc cs
                 cp off rt (Raise e)); [exact I|congruence].
    + intros [= <- <-]. eexists [_; _]. simpl. rewrite <- app_assoc.
      split; [reflexivity|].
      apply (cdn_iter_reupload_failed P ms cdn tok key iv fc lc pc cs
               cp off rt Diverge); [exact I|discriminate].
  - (* a chunk *)
    unfold bind at 1, counter_bytes.
    destruct (to_bytes_4_big (off / 16)) as [counter|] eqn:Ec.
    2:{ intros [= <- <-]. eexists [_]. split; [reflexivity|].
        now constructor. }
    unfold ret at 1, bind at 1, invoke_GetCdnFileHashes, upstream_call.
    destruct (up_get_cdn_file_hashes U _ ms tok off) as [hs|e|] eqn:Eh.
    2:{ intros [= <- <-]. eexists [_; _]. simpl. rewrite <- app_assoc.
        split; [reflexivity|].
        apply (cdn_iter_hashes_failed P ms cdn tok key iv fc lc pc cs
                 cp off b counter (Raise e)); [exact Ec|exact I]. }
    2:{ intros [= <- <-]. eexists [_; _]. simpl. rewrite <- app_assoc.
        split; [reflexivity|].
        apply (cdn_iter_hashes_failed P ms cdn tok key iv fc lc pc cs
                 cp off b counter Diverge); [exact Ec|exact I]. }
    unfold bind at 1. rewrite check_hashes_verified.
    set (dec := decrypt_chunk P key iv counter b).
    destruct (hashes_verified P 0 hs dec) eqn:Ev.
    2:{ intros [= <- <-]. eexists [_; _]. simpl. rewrite <- app_assoc.
        split; [reflexivity|].
        eapply cdn_iter_checked; [exact Ec|]. now constructor. }
    destruct (is_empty dec) eqn:Ee.
    { intros [= <- <-]. eexists [_; _]. simpl. rewrite <- app_assoc.
      split; [reflexivity|].
      eapply cdn_iter_checked; [exact Ec|].
      apply cdn_checked_empty; [exact Ev|]. now apply is_empty_nil. }
    assert (Hne : dec <> []).
    { intros H. apply is_empty_nil in H. congruence. }
    unfold bind at 1. rewrite yield_part_slice.
    match goal with
    | |- context [yield_ ?c ?s] => destruct (yield_ c s) as [ry sy] eqn:Ey
    end.
    apply yield_run in Ey as [(-> & Hy)|(-> & [Hy|Hy])]; simpl in Hy.
    + destruct (cp + 1 >? pc) eqn:Hlast; intros [= <- <-];
        eexists (_ :: _ :: [_]); rewrite Hy, <- !app_assoc;
        (split; [reflexivity|]); (eapply cdn_iter_checked; [exact Ec|]).
      * apply cdn_checked_yield_last; auto. apply Z.gtb_lt in Hlast. lia.
      * apply cdn_checked_yield_next; auto.
        destruct (Z.gtb_spec (cp + 1) pc); [discriminate|lia].
    + intros [= <- <-]. eexists (_ :: [_]). rewrite Hy, <- !app_assoc.
      split; [reflexivity|]. eapply cdn_iter_checked; [exact Ec|].
      now apply cdn_checked_closed.
    + intros [= <- <-]. eexists (_ :: _ :: [_]). rewrite Hy, <- !app_assoc.
      split; [reflexivity|]. eapply cdn_iter_checked; [exact Ec|].
      now apply cdn_checked_yield_closed.
  - intros [= <- <-]. eexists [_]. split; [reflexivity|].
    apply (cdn_iter_fetch_failed P ms cdn tok key iv fc lc pc cs cp off
             (Raise e)). exact I.
  - intros [= <- <-]. eexists [_]. split; [reflexivity|].
    apply (cdn_iter_fetch_failed P ms cdn tok key iv fc lc pc cs cp off
             Diverge). exact I.
Qed.

(** ** Runs of the CDN loop *)

Lemma app_eq_skip {A : Type} (K : A -> Prop) (l1 l2 t1 t2 : list A) (x : A) :
  Forall (fun e => ~ K e) l1 -> K x ->
  l1 ++ l2 = t1 ++ x :: t2 ->
  exists t1', t1 = l1 ++ t1' /\ l2 = t1' ++ x :: t2.
Proof.
  intros Hl Hx. revert t1. induction Hl as [|e l1 He _ IH]; intros t1 H.
  - exists t1. auto.
  - destruct t1 as [|y t1]; simpl in H; injection H as -> H.
    + contradiction.
    + destruct (IH _ H) as (t1' & -> & ->). exists t1'. auto.
Qed.

Section CdnLoop.

Context (P : Primitives) (ms cdn : Session) (tok key iv : bytes)
  (fc lc pc cs : Z).

#[local] Abbreviation iter := (cdn_iter P ms cdn tok key iv fc lc pc cs).

Lemma cdn_iter_head (s : Z * Z) (t : list event)
  (rc : result (control (Z * Z))) :
  iter s t rc ->
  exists rg t',
    t = EvGetCdnFile cdn tok (snd s) cs rg :: t'
    /\ Forall (fun e => ~ cdn_fetch e) t'.
Proof.
  intros H. destruct H; simpl; eexists _, _; (split; [reflexivity|]);
    repeat constructor; auto.
  destruct H0; repeat constructor; auto.
Qed.




(** Where a fetch event sits in the trace of an iteration followed by
    [t_rest]: at its head, or in [t_rest]. *)
Lemma cdn_iter_locate (s : Z * Z) (t : list event)
  (rc : result (control (Z * Z))) (t_rest t1 t2 : list event) (s' : Session)
  (tk : bytes) (o l : Z) (rg : result upload_CdnFile) :
  iter s t rc ->
  t ++ t_rest = t1 ++ EvGetCdnFile s' tk o l rg :: t2 ->
  (exists t', t1 = []
              /\ t = EvGetCdnFile s' tk o l rg :: t' /\ t2 = t' ++ t_rest)
  \/ (exists t1', t_rest = t1' ++ EvGetCdnFile s' tk o l rg :: t2).
Proof.
  intros H Ht. destruct (cdn_iter_head _ _ _ H) as (rg0 & t0 & Hhead & Hno).
  rewrite Hhead in Ht. destruct t1 as [|x t1]; simpl in Ht.
  - injection Ht as <- <- <- <- <- Ht. left. exists t0. auto.
  - injection Ht as _ Ht. right.
    destruct (app_eq_skip cdn_fetch t0 t_rest t1 t2
                (EvGetCdnFile s' tk o l rg) Hno I Ht) as (t1' & _ & ->).
    eauto.
Qed.



End CdnLoop.

(** ** Runs of the CDN branch and of [yield_file] through it *)

Lemma try_except_reraise {A : Type} (body : M A) (f : exn -> bool)
  (st : state) :
  try_except body (fun e => if f e then Some (raise e) else None) st
  = body st.
Proof.
  unfold try_except. destruct (body st) as [[a|e|] s]; try reflexivity.
  destruct (f e); reflexivity.
Qed.

Lemma cdn_branch_run (P : Primitives) (U : Upstream) (fuel : nat) (ci : Z)
  (ms : Session) (file_id : FileId) (dc : Z) (tok key iv : bytes)
  (offset fc lc pc cs cp : Z) (st : state) (r : result unit) (st' : state) :
  cdn_branch P U fuel ci ms file_id dc tok key iv offset fc lc pc cs cp st
  = (r, st') ->
  exists t,
    trace st' = trace st ++ t
    /\ (Forall setup_event t
        \/ exists t0 cdn t_loop rl t_end,
             t = t0 ++ t_loop ++ t_end
             /\ Forall setup_event t0
             /\ loop_run (cdn_iter P ms cdn tok key iv fc lc pc cs)
                  (cp, offset) t_loop rl
             /\ ((rl = Diverge /\ t_end = [] /\ r = Diverge)
                 \/ (rl <> Diverge /\ t_end = [EvSessionStop cdn] /\ r = rl))).
Proof.
  unfold cdn_branch, bind at 1, cdn_count_incr, modify.
  unfold bind at 1, client_attr at 1. simpl.
  destruct (multi_clients st !! ci) as [c|] eqn:Hc.
  2:{ intros [= <- <-]. exists []. simpl. rewrite app_nil_r. auto. }
  unfold bind at 1, Auth_create, upstream_call. simpl.
  destruct (up_auth_create U (trace st) ci dc (storage_test_mode c))
    as [k|e|] eqn:Ea.
  2,3: intros [= <- <-]; eexists [_]; simpl; split; [reflexivity|];
    left; repeat constructor.
  unfold bind at 1, client_attr at 1. simpl. rewrite Hc.
  unfold bind at 1, new_Session. simpl.
  match goal with
  | |- context [Session_start U ?s] => set (cdn := s)
  end.
  unfold try_finally. rewrite try_except_reraise.
  unfold bind at 1. rewrite Session_start_run. simpl.
  destruct (up_session_start U _ cdn) as [[]|e|] eqn:Es.
  - match goal with
    | |- context [while_true fuel ?body ?s0 ?s] =>
        destruct (while_true fuel body s0 s) as [rl sl] eqn:El
    end.
    apply (while_true_run _ _ (cdn_loop_body_iter P U ms cdn tok key iv
                                 fc lc pc cs)) in El as (t_loop & Ht & Hl).
    simpl in Ht.
    intros H. exists (EvAuthCreate ci dc (storage_test_mode c) (Return k)
                    :: EvSessionStart cdn (Return tt)
                    :: t_loop ++ match rl with
                                 | Diverge => []
                                 | _ => [EvSessionStop cdn]
                                 end).
    split.
    { destruct rl as [[]|e|]; injection H as <- <-; simpl;
        rewrite Ht, <- ?app_assoc; simpl; rewrite ?app_nil_r; reflexivity. }
    right. exists [EvAuthCreate ci dc (storage_test_mode c) (Return k);
                   EvSessionStart cdn (Return tt)], cdn, t_loop, rl.
    eexists. split; [reflexivity|]. split; [repeat constructor|].
    split; [exact Hl|].
    destruct rl as [[]|e|]; injection H as <- <-;
      [right|right|left]; repeat split; auto; discriminate.
  - intros [= <- <-]. eexists [_; _; _]. simpl. rewrite <- !app_assoc.
    split; [reflexivity|]. left. repeat constructor.
  - intros [= <- <-]. eexists [_; _]. simpl. rewrite <- !app_assoc.
    split; [reflexivity|]. left. repeat constructor.
Qed.

Lemma cdn_loop_no_file_fetch (P : Primitives) (ms cdn : Session)
  (tok key iv : bytes) (fc lc pc cs : Z) (s : Z * Z) (t : list event)
  (r : result unit) :
  loop_run (cdn_iter P ms cdn tok key iv fc lc pc cs) s t r ->
  Forall (fun e => ~ file_fetch e) t.
Proof.
  assert (Hiter : forall s t rc,
             cdn_iter P ms cdn tok key iv fc lc pc cs s t rc ->
             Forall (fun e => ~ file_fetch e) t).
  { intros s0 t0 rc H. destruct H; repeat constructor; auto.
    destruct H0; repeat constructor; auto. }
  induction 1; try (eapply Hiter; eassumption); [constructor|].
  apply Forall_app. split; [eapply Hiter; eassumption|assumption].
Qed.

Lemma setup_no_fetch (t : list event) :
  Forall setup_event t ->
  Forall (fun e => ~ cdn_fetch e) t /\ Forall (fun e => ~ file_fetch e) t.
Proof.
  intros H. split; eapply Forall_impl; try exact H;
    intros [] He; simpl in *; auto.
Qed.

Lemma session_no_fetch (t : list event) :
  Forall session_event t ->
  Forall (fun e => ~ cdn_fetch e) t /\ Forall (fun e => ~ file_fetch e) t.
Proof.
  intros H. split; eapply Forall_impl; try exact H;
    intros [] He; simpl in *; auto.
Qed.

Lemma stream_body_cdn_run (P : Primitives) (U : Upstream) (fuel : nat)
  (ci : Z) (ms : Session) (file_id : FileId) (loc : Location)
  (offset fc lc pc cs : Z) (st : state) (rb : result unit) (st' : state) :
  stream_body P U fuel ci ms file_id loc offset fc lc pc cs 1 st = (rb, st') ->
  exists t,
    trace st' = trace st ++ t
    /\ cdn_run_shape P fc lc pc cs offset ms t rb
         (fun rl t_fin r => t_fin = [] /\ r = rl).
Proof.
  unfold stream_body, bind at 1, invoke_GetFile, upstream_call.
  destruct (up_get_file U (trace st) ms loc offset cs)
    as [[b|dc tok key iv]|e|] eqn:Eg.
  - intros H.
    destruct (preserves_file_loop U (extends_by direct_event) direct_event
                (extends_by_refl _) (extends_by_trans _) (extends_by_log _)
                (fun d st => extends_by_same_trace _ st _ eq_refl)
                (fun _ _ _ _ _ => I) (fun _ => I)
                ms loc fc lc pc cs fuel _ _ _ _ H) as (t & Ht & Hk).
    simpl in Ht. eexists (_ :: t). rewrite Ht, <- app_assoc.
    split; [reflexivity|]. left. constructor; [auto|].
    eapply Forall_impl; [exact Hk|]. intros [] He; simpl in *; auto.
  - intros H. apply cdn_branch_run in H as (t & Ht & Hcases).
    simpl in Ht. eexists (_ :: t). rewrite Ht, <- app_assoc.
    split; [reflexivity|].
    destruct Hcases as [Hs|(t0 & cdn & t_loop & rl & t_end & -> & Hs & Hl & Hend)].
    + left. constructor; [auto|]. now apply setup_no_fetch.
    + right.
      exists (EvGetFile ms loc offset cs (Return (FileCdnRedirect dc tok key iv))
              :: t0), tok, key, iv, cdn, t_loop, rl, t_end.
      split; [reflexivity|].
      split; [constructor; [auto|now apply setup_no_fetch]|].
      split.
      { intros ms' loc' o' l' dc' tok' key' iv' [Hin|Hin].
        - injection Hin as <- <- <- <- <- <- <- <-. auto.
        - exfalso. apply in_app_or in Hin as [Hin|Hin].
          + apply setup_no_fetch in Hs as [_ Hs].
            rewrite List.Forall_forall in Hs. now apply (Hs _ Hin).
          + apply in_app_or in Hin as [Hin|Hin].
            * apply cdn_loop_no_file_fetch in Hl.
              rewrite List.Forall_forall in Hl. now apply (Hl _ Hin).
            * destruct Hend as [(_ & -> & _)|(_ & -> & _)];
                [destruct Hin|destruct Hin as [Hin|[]]; discriminate]. }
      split; [exact Hl|].
      destruct Hend as [(-> & -> & ->)|(Hne & -> & ->)]; [left; auto|].
      right. split; [exact Hne|]. exists []. auto.
  - intros [= <- <-]. eexists [_]. split; [reflexivity|].
    left. repeat constructor; auto.
  - intros [= <- <-]. eexists [_]. split; [reflexivity|].
    left. repeat constructor; auto.
Qed.

Lemma stream_finish_end (ci : Z) (ms : Session) (file_id : FileId)
  (w : dict Z) (rb : result unit) (st2 : state) :
  exists t_fin,
    trace (snd (stream_finish ci ms file_id w rb st2)) = trace st2 ++ t_fin
    /\ stream_end ms rb t_fin (fst (stream_finish ci ms file_id w rb st2)).
Proof.
  unfold stream_finish, stream_end.
  destruct rb as [[]|e|]; simpl.
  - exists []. rewrite app_nil_r. auto.
  - destruct e; simpl;
      first [exists []; rewrite app_nil_r; repeat split; reflexivity
            |eexists [_]; repeat split; reflexivity].
  - exists []. rewrite app_nil_r. auto.
Qed.

Lemma yield_file_cdn_run (P : Primitives) (U : Upstream) (fuel : nat)
  (file_id : FileId) (offset fc lc pc cs : Z) (st : state)
  (r : result unit) (st' : state) :
  yield_file P U fuel file_id offset fc lc pc cs st = (r, st') ->
  exists t,
    trace st' = trace st ++ t
    /\ (Forall (fun e => ~ cdn_fetch e) t
        \/ exists ms,
             cdn_run_shape P fc lc pc cs offset ms t r
               (fun rl t_fin r => stream_end ms rl t_fin r)).
Proof.
  intros H.
  assert (Hquiet : st' = st ->
            exists t, trace st' = trace st ++ t
                      /\ (Forall (fun e => ~ cdn_fetch e) t
                          \/ exists ms,
                               cdn_run_shape P fc lc pc cs offset ms t r
                                 (fun rl t_fin r => stream_end ms rl t_fin r))).
  { intros ->. exists []. rewrite app_nil_r. auto. }
  destruct (decide (demand st = Some O)) as [Hd|Hd].
  { unfold yield_file in H. rewrite Hd in H. injection H as <- <-. auto. }
  destruct (multi_clients st !! index file_id) as [c|] eqn:Hc.
  2:{ unfold yield_file, bind, client_attr in H. rewrite Hc in H.
      destruct (demand st) as [[|k]|]; try congruence;
        injection H as <- <-; auto. }
  destruct (dict_get (work_loads st) (index file_id)) as [n|] eqn:Hn.
  2:{ unfold yield_file, bind, client_attr, work_loads_add in H.
      rewrite Hc, Hn in H.
      destruct (demand st) as [[|k]|]; try congruence;
        injection H as <- <-; auto. }
  rewrite (yield_file_run P U fuel file_id offset fc lc pc cs st c n Hd Hc Hn)
    in H.
  destruct (generate_media_session U (index file_id) file_id _)
    as [rg st1] eqn:Hg.
  destruct (generate_media_session_events _ _ _ _ _ _ Hg) as (tg & Htg & Hkg).
  simpl in Htg. apply session_no_fetch in Hkg as [Hkg Hkf].
  destruct rg as [ms|e|].
  2,3: injection H as <- <-; exists tg; split; [exact Htg|]; now left.
  destruct (stream_body P U fuel (index file_id) ms file_id
              (get_location P file_id) offset fc lc pc cs 1 st1)
    as [rb st2] eqn:Hb.
  apply stream_body_cdn_run in Hb as (tb & Htb & Hshape).
  destruct (stream_finish_end (index file_id) ms file_id (work_loads st) rb st2)
    as (t_fin & Htf & Hend).
  rewrite H in Htf, Hend. simpl in Htf, Hend.
  exists (tg ++ tb ++ t_fin).
  split; [rewrite Htf, Htb, Htg, <- !app_assoc; reflexivity|].
  assert (Hfin : Forall (fun e => ~ cdn_fetch e) t_fin
                 /\ Forall (fun e => ~ file_fetch e) t_fin).
  { unfold stream_end in Hend. destruct rb as [[]|e|]; [| |];
      try (destruct Hend as (-> & _); split; constructor).
    destruct e; simpl in Hend; destruct Hend as (-> & _);
      split; repeat constructor; auto. }
  destruct Hfin as [Hfc Hff].
  destruct Hshape
    as [Hno|(t0 & tok & key & iv & cdn & t_loop & rl & t_end
             & -> & Hno & Huniq & Hl & Hcases)].
  - left. apply Forall_app. split; [exact Hkg|].
    apply Forall_app. split; assumption.
  - right. exists ms. right.
    exists (tg ++ t0), tok, key, iv, cdn, t_loop, rl, (t_end ++ t_fin).
    split; [now rewrite <- !app_assoc|].
    split; [apply Forall_app; split; assumption|].
    split.
    { intros ms' loc' o' l' dc' tok' key' iv' Hin.
      apply in_app_or in Hin as [Hin|Hin].
      - exfalso. rewrite List.Forall_forall in Hkf. now apply (Hkf _ Hin).
      - apply in_app_or in Hin as [Hin|Hin]; [eapply Huniq, Hin|].
        exfalso. rewrite List.Forall_forall in Hff. now apply (Hff _ Hin). }
    split; [exact Hl|].
    destruct Hcases as [(-> & -> & ->)|(Hne & t_f & -> & -> & ->)].
    + left. simpl in Hend. destruct Hend as (-> & ->). auto.
    + right. split; [exact Hne|]. exists t_fin. auto.
Qed.

Lemma app_eq_skip_r {A : Type} (K : A -> Prop) (l1 l2 t1 t2 : list A) (x : A) :
  Forall (fun e => ~ K e) l2 -> K x ->
  l1 ++ l2 = t1 ++ x :: t2 ->
  exists t2', l1 = t1 ++ x :: t2' /\ t2 = t2' ++ l2.
Proof.
  intros Hl Hx. revert t1. induction l1 as [|y l1 IH]; intros t1 H.
  - simpl in H. exfalso. rewrite List.Forall_forall in Hl.
    apply (Hl x); [rewrite H; apply in_or_app; right; now left|exact Hx].
  - destruct t1 as [|z t1]; simpl in H; injection H as -> H.
    + exists l1. auto.
    + destruct (IH _ H) as (t2' & -> & ->). exists t2'. auto.
Qed.

Lemma cdn_loop_fetch_session (P : Primitives) (ms cdn : Session)
  (tok key iv : bytes) (fc lc pc cs : Z) (s : Z * Z) (t : list event)
  (r : result unit) :
  loop_run (cdn_iter P ms cdn tok key iv fc lc pc cs) s t r ->
  forall s' tk o l rg, In (EvGetCdnFile s' tk o l rg) t -> s' = cdn.
Proof.
  assert (Hiter : forall s t rc,
             cdn_iter P ms cdn tok key iv fc lc pc cs s t rc ->
             forall s' tk o l rg, In (EvGetCdnFile s' tk o l rg) t -> s' = cdn).
  { intros s0 t0 rc H s' tk o l rg Hin.
    destruct (cdn_iter_head _ _ _ _ _ _ _ _ _ _ _ _ _ H)
      as (rg0 & t' & -> & Hno).
    destruct Hin as [[= <- _ _ _ _]|Hin]; [reflexivity|].
    rewrite List.Forall_forall in Hno. exfalso. now apply (Hno _ Hin). }
  induction 1; intros s0 tk o l rg Hin; try (eapply Hiter; eassumption).
  - destruct Hin.
  - apply in_app_or in Hin as [Hin|Hin]; [eapply Hiter|eapply IHloop_run];
      eassumption.
Qed.

Lemma hashes_verified_false (P : Primitives) (hs : list FileHash)
  (dec : bytes) :
  forall (i0 : Z) (i : nat) (h : FileHash),
    hs !! i = Some h ->
    fh_hash h <>
      sha256 P (py_slice (Some (fh_limit h * (i0 + Z.of_nat i)))
                  (Some (fh_limit h * (i0 + Z.of_nat i + 1))) dec) ->
    hashes_verified P i0 hs dec = false.
Proof.
  induction hs as [|h0 hs IH]; intros i0 i h Hi Hne; [discriminate|].
  cbn [hashes_verified]. destruct i as [|i]; simpl in Hi.
  - injection Hi as ->. rewrite bool_decide_false; [reflexivity|].
    replace (i0 + Z.of_nat 0) with i0 in Hne by lia. exact Hne.
  - rewrite (IH (i0 + 1) i h Hi); [apply andb_false_r|].
    replace (i0 + 1 + Z.of_nat i) with (i0 + Z.of_nat (S i)) by lia.
    exact Hne.
Qed.

Lemma stream_end_no_fetch (ms : Session) (rb : result unit)
  (t_fin : list event) (r : result unit) :
  stream_end ms rb t_fin r -> Forall (fun e => ~ cdn_fetch e) t_fin.
Proof.
  unfold stream_end. destruct rb as [[]|e|]; try (intros (-> & _); constructor).
  destruct e; simpl; intros (-> & _); repeat constructor; auto.
Qed.






(** On [cdn_reuploading] the fetch at offset 0 is made twice, around the
    request of the reupload, and the one part is yielded once. *)
Example cdn_reupload_retried :
  let run := yield_file demo_primitives cdn_reuploading 3 demo_file 0 0 4 1 4
               idle in
  fst run = Return tt
  /\ cdn_offsets (trace (snd run)) = [0; 0]
  /\ yielded (trace (snd run)) = [file_content 0].
Proof. vm_compute. repeat split. Qed.

(** ** Interleaved calls *)



Lemma generate_media_session_hit (U : Upstream) (ci : Z) (file_id : FileId)
  (st : state) (c : Client) (s : Session) :
  multi_clients st !! ci = Some c ->
  media_sessions c !! dc_id file_id = Some s ->
  session_id s ∈ started st ->
  lookup_media_session ci file_id st = (Return (Some s), st).
Proof.
  intros Hc Hs Hin. unfold lookup_media_session, bind, client_attr.
  rewrite Hc, Hs. unfold is_started, gets.
  rewrite bool_decide_true by assumption. reflexivity.
Qed.







(** * Further properties

    ** The resolver *)

(** X1.  A resolution that misses the cache sends one lookup, through
    the client that [min] selects, stores the descriptor it gets under
    [db_id] and returns it; nothing else of the state changes.  The next
    resolution of the same id is answered from the cache: same
    descriptor, same state. *)
Theorem get_file_properties_miss (U : Upstream) (db_id : string)
  (st : state) (i : Z) (c : Client) (f : FileId) :
  cached_file_ids st !! db_id = None ->
  least_loaded (work_loads st) = Return i ->
  multi_clients st !! i = Some c ->
  up_get_file_ids U (trace st) i db_id = Return f ->
  let st' :=
    set_cached_file_ids (<[db_id := f]> (cached_file_ids st))
      (log (EvGetFileIds i db_id (Return f)) st) in
  get_file_properties U db_id st = (Return f, st')
  /\ get_file_properties U db_id st' = (Return f, st').
Proof.
  intros Hmiss Hi Hc Hf st'. split.
  - unfold get_file_properties, generate_file_properties, bind, gets,
      client_attr, upstream_call, modify, cache_lookup, ret.
    rewrite Hmiss. simpl. rewrite Hi, Hc, Hf. simpl.
    repeat (rewrite lookup_insert_eq; simpl). reflexivity.
  - apply get_file_properties_hit. subst st'. simpl.
    apply lookup_insert_eq.
Qed.

Lemma get_file_properties_miss_witness :
  get_file_properties serving "f1" idle
  = (Return demo_file,
     set_cached_file_ids (<["f1" := demo_file]> (cached_file_ids idle))
       (log (EvGetFileIds 0 "f1" (Return demo_file)) idle)).
Proof.
  apply (get_file_properties_miss serving "f1" idle 0 demo_client demo_file);
    reflexivity.
Defined.

(** X2.  A miss with nothing to select from fails before anything is
    sent: with an empty [work_loads], [min] raises [ValueError]; with a
    selected index that [multi_clients] does not hold, the subscript
    raises [KeyError].  The state, trace and cache included, is as it
    was. *)
Theorem get_file_properties_no_client (U : Upstream) (db_id : string)
  (st : state) :
  cached_file_ids st !! db_id = None ->
  (work_loads st = [] ->
   get_file_properties U db_id st = (Raise ValueError, st))
  /\ (forall i,
        least_loaded (work_loads st) = Return i ->
        multi_clients st !! i = None ->
        get_file_properties U db_id st = (Raise KeyError, st)).
Proof.
  intros Hmiss. split.
  - intros Hw.
    unfold get_file_properties, generate_file_properties, bind, gets.
    rewrite Hmiss. simpl. rewrite Hw. reflexivity.
  - intros i Hi Hc.
    unfold get_file_properties, generate_file_properties, bind, gets,
      client_attr.
    rewrite Hmiss. simpl. rewrite Hi, Hc. reflexivity.
Qed.

Lemma get_file_properties_no_client_witness :
  get_file_properties serving "f1" (set_work_loads [] idle)
  = (Raise ValueError, set_work_loads [] idle)
  /\ get_file_properties serving "f1" (set_work_loads [(7, 0)] idle)
     = (Raise KeyError, set_work_loads [(7, 0)] idle).
Proof.
  split.
  - apply (get_file_properties_no_client serving "f1" (set_work_loads [] idle));
      reflexivity.
  - apply (proj2 (get_file_properties_no_client serving "f1"
                    (set_work_loads [(7, 0)] idle) eq_refl) 7); reflexivity.
Defined.

(** X3.  A round of [clean_cache] empties the cache and touches nothing
    else; the resolution of any id that follows it, cached before or not,
    sends a lookup. *)
Theorem clean_cache_forces_lookup (U : Upstream) (db_id : string)
  (st : state) (i : Z) (c : Client) :
  least_loaded (work_loads st) = Return i ->
  multi_clients st !! i = Some c ->
  clean_cache st = (Return tt, set_cached_file_ids ∅ st)
  /\ trace (snd (get_file_properties U db_id (set_cached_file_ids ∅ st)))
     = trace st
       ++ [EvGetFileIds i db_id (up_get_file_ids U (trace st) i db_id)].
Proof.
  intros Hi Hc. split; [reflexivity|].
  unfold get_file_properties, generate_file_properties, bind, gets,
    client_attr, upstream_call, modify, cache_lookup, ret.
  simpl. rewrite lookup_empty. simpl. rewrite Hi, Hc. simpl.
  destruct (up_get_file_ids U (trace st) i db_id) as [f|e|]; simpl;
    try reflexivity.
  repeat (rewrite lookup_insert_eq; simpl). reflexivity.
Qed.

Lemma clean_cache_forces_lookup_witness :
  trace (snd (get_file_properties serving "f1"
                (set_cached_file_ids ∅
                   (snd (get_file_properties serving "f1" idle)))))
  = [EvGetFileIds 0 "f1" (Return demo_file);
     EvGetFileIds 0 "f1" (Return demo_file)].
Proof.
  exact (proj2 (clean_cache_forces_lookup serving "f1"
                  (snd (get_file_properties serving "f1" idle)) 0
                  demo_client eq_refl eq_refl)).
Defined.

(** ** The session manager *)

(** X4.  A session that is registered for the data center of the file
    and whose [is_started] flag is set is reused: [generate_media_session]
    returns it, calls nothing and changes nothing. *)
Theorem generate_media_session_reuses_started (U : Upstream) (ci : Z)
  (file_id : FileId) (st : state) (c : Client) (s : Session) :
  multi_clients st !! ci = Some c ->
  media_sessions c !! dc_id file_id = Some s ->
  session_id s ∈ started st ->
  generate_media_session U ci file_id st = (Return s, st).
Proof.
  intros Hc Hs Hin. unfold generate_media_session, bind.
  now rewrite (generate_media_session_hit U ci file_id st c s Hc Hs Hin).
Qed.

Lemma generate_media_session_reuses_started_witness :
  generate_media_session serving 0 demo_file warm
  = (Return (mkSession 0 0 4 [x09] false true false), warm).
Proof.
  apply (generate_media_session_reuses_started serving 0 demo_file warm
           (mkClient {[4 := mkSession 0 0 4 [x09] false true false]} 2 false
              [x01]));
    vm_compute; reflexivity.
Defined.

(** X5.  A file in the home data center of the client, with no session
    registered for it: the one call [generate_media_session] makes is
    the start of a new media session built on the auth key and the test
    mode of the client's storage; no key is created and no authorization
    is exported or imported.  When the start returns the session is
    registered and returned; when it fails the failure is the outcome and
    nothing is registered. *)
Theorem generate_media_session_home_dc (U : Upstream) (ci : Z)
  (file_id : FileId) (st : state) (c : Client) (r : result Session)
  (st' : state) :
  multi_clients st !! ci = Some c ->
  media_sessions c !! dc_id file_id = None ->
  dc_id file_id = storage_dc_id c ->
  generate_media_session U ci file_id st = (r, st') ->
  let s := mkSession (next_session_id st) ci (dc_id file_id)
             (storage_auth_key c) (storage_test_mode c) true false in
  exists rs,
    trace st' = trace st ++ [EvSessionStart s rs]
    /\ match rs with
       | Return _ =>
           r = Return s /\ (session_id s ∈ started st')
           /\ exists c', multi_clients st' !! ci = Some c'
                         /\ media_sessions c' !! dc_id file_id = Some s
       | _ =>
           r = recast rs /\ multi_clients st' = multi_clients st
           /\ started st' = started st
       end.
Proof.
  intros Hc Hs Hdc H s.
  pose proof (lookup_media_session_absent ci file_id st c Hc Hs) as Hl.
  destruct (generate_media_session_create U ci file_id st st r st' Hl H)
    as (rc & s2 & Hcr & Hfin).
  destruct (create_media_session_home U ci file_id st c rc s2 Hc Hdc Hcr)
    as (rs & Ht & Hmc & Hrs).
  exists rs. fold s in Hrs, Ht.
  destruct rs as [[]|e|].
  - destruct Hrs as (-> & Hin). destruct Hfin as (-> & ->).
    split; [exact Ht|]. split; [reflexivity|]. split; [exact Hin|].
    apply registered_after_insert with (c := c). now rewrite Hmc.
  - destruct Hrs as (-> & Hst). simpl in Hfin. destruct Hfin as (-> & ->).
    auto.
  - destruct Hrs as (-> & Hst). simpl in Hfin. destruct Hfin as (-> & ->).
    auto.
Qed.

(** X6.  A file in another data center than the home of the client,
    with no session registered for it: [generate_media_session] first
    asks [Auth.create] for a key for that data center, in the test mode
    of the client's storage; that key is the auth key of the new media
    session, which is started before any authorization is exported.
    When the key or the start fails, the failure is the outcome, nothing
    more is called and nothing is registered; after the start come the
    rounds of the import, and the session is registered when the import
    succeeds and not otherwise. *)
Theorem generate_media_session_cross_dc (U : Upstream) (ci : Z)
  (file_id : FileId) (st : state) (c : Client) (r : result Session)
  (st' : state) :
  multi_clients st !! ci = Some c ->
  media_sessions c !! dc_id file_id = None ->
  dc_id file_id <> storage_dc_id c ->
  generate_media_session U ci file_id st = (r, st') ->
  exists rk t,
    trace st' =
      trace st ++ EvAuthCreate ci (dc_id file_id) (storage_test_mode c) rk :: t
    /\ match rk with
       | Return key =>
           let s := mkSession (next_session_id st) ci (dc_id file_id) key
                      (storage_test_mode c) true false in
           exists rs t_imp,
             t = EvSessionStart s rs :: t_imp
             /\ match rs with
                | Return _ =>
                    exists rl,
                      import_run ci file_id s 6 t_imp rl
                      /\ (rl = Return tt ->
                          r = Return s /\ (session_id s ∈ started st')
                          /\ exists c',
                               multi_clients st' !! ci = Some c'
                               /\ media_sessions c' !! dc_id file_id = Some s)
                      /\ (rl <> Return tt ->
                          r = recast rl
                          /\ multi_clients st' = multi_clients st)
                | _ =>
                    t_imp = [] /\ r = recast rs
                    /\ multi_clients st' = multi_clients st
                end
       | _ =>
           t = [] /\ r = recast rk /\ multi_clients st' = multi_clients st
           /\ started st' = started st
           /\ next_session_id st' = next_session_id st
       end.
Proof.
  intros Hc Hs Hdc H.
  pose proof (lookup_media_session_absent ci file_id st c Hc Hs) as Hl.
  destruct (generate_media_session_create U ci file_id st st r st' Hl H)
    as (rc & s2 & Hcr & Hfin).
  destruct (create_media_session_cross U ci file_id st c rc s2 Hc Hdc Hcr)
    as (Hmc & rk & t & Ht & Hrk).
  assert (Hfail : failed rc -> r = recast rc /\ st' = s2).
  { destruct rc; simpl; [contradiction|auto|auto]. }
  destruct rk as [key|e|].
  - destruct Hrk as (rs & t_imp & -> & Hrs).
    destruct rs as [[]|e|].
    + destruct Hrs as (rl & Hrun & Hok & Hko & _).
      destruct (decide (rl = Return tt)) as [->|Hne].
      * destruct (Hok eq_refl) as (-> & Hin). destruct Hfin as (-> & ->).
        eexists (Return key), _. split; [exact Ht|].
        eexists (Return tt), _. split; [reflexivity|].
        exists (Return tt). split; [exact Hrun|]. split; [|congruence].
        intros _. split; [reflexivity|]. split; [exact Hin|].
        apply registered_after_insert with (c := c). now rewrite Hmc.
      * pose proof (Hko Hne) as ->.
        destruct Hfail as (-> & ->); [destruct rl as [[]|e|]; simpl; auto|].
        eexists (Return key), _. split; [exact Ht|].
        eexists (Return tt), _. split; [reflexivity|].
        exists rl. split; [exact Hrun|]. split; [congruence|].
        intros _. split; [|exact Hmc].
        destruct rl as [[]|e|]; reflexivity.
    + destruct Hrs as (-> & -> & Hst).
      destruct Hfail as (-> & ->); [exact I|].
      eexists (Return key), _. split; [exact Ht|].
      eexists (Raise e), _. split; [reflexivity|]. auto.
    + destruct Hrs as (-> & -> & Hst).
      destruct Hfail as (-> & ->); [exact I|].
      eexists (Return key), _. split; [exact Ht|].
      eexists Diverge, _. split; [reflexivity|]. auto.
  - destruct Hrk as (-> & -> & Hst & Hn).
    destruct Hfail as (-> & ->); [exact I|].
    eexists (Raise e), _. split; [exact Ht|]. auto.
  - destruct Hrk as (-> & -> & Hst & Hn).
    destruct Hfail as (-> & ->); [exact I|].
    eexists Diverge, _. split; [exact Ht|]. auto.
Qed.

Lemma generate_media_session_home_dc_witness :
  exists rs,
    trace (snd (generate_media_session serving 0 home_file idle))
    = trace idle
      ++ [EvSessionStart (mkSession 0 0 2 [x01] false true false) rs]
    /\ match rs with
       | Return _ =>
           fst (generate_media_session serving 0 home_file idle)
           = Return (mkSession 0 0 2 [x01] false true false)
           /\ (session_id (mkSession 0 0 2 [x01] false true false)
               ∈ started (snd (generate_media_session serving 0 home_file
                                 idle)))
           /\ exists c',
                multi_clients
                  (snd (generate_media_session serving 0 home_file idle))
                !! 0 = Some c'
                /\ media_sessions c' !! dc_id home_file
                   = Some (mkSession 0 0 2 [x01] false true false)
       | _ =>
           fst (generate_media_session serving 0 home_file idle) = recast rs
           /\ multi_clients
                (snd (generate_media_session serving 0 home_file idle))
              = multi_clients idle
           /\ started (snd (generate_media_session serving 0 home_file idle))
              = started idle
       end.
Proof.
  exact (generate_media_session_home_dc serving 0 home_file idle demo_client
           _ _ eq_refl eq_refl eq_refl (surjective_pairing _)).
Defined.

Lemma generate_media_session_cross_dc_witness :
  exists rk t,
    trace (snd (generate_media_session serving 0 demo_file idle))
    = trace idle ++ EvAuthCreate 0 4 false rk :: t.
Proof.
  destruct (generate_media_session_cross_dc serving 0 demo_file idle
              demo_client _ _ eq_refl eq_refl
              ltac:(vm_compute; discriminate) (surjective_pairing _))
    as (rk & t & Ht & _).
  exists rk, t. exact Ht.
Defined.

(** What a created session is made of. *)
Lemma create_media_session_fields (U : Upstream) (ci : Z) (file_id : FileId)
  (st : state) (c : Client) (rc : result Session) (s2 : state) :
  multi_clients st !! ci = Some c ->
  create_media_session U ci file_id st = (rc, s2) ->
  multi_clients s2 = multi_clients st
  /\ forall s, rc = Return s ->
       session_id s = next_session_id st
       /\ session_client s = ci
       /\ session_dc_id s = dc_id file_id
       /\ session_test_mode s = storage_test_mode c
       /\ session_is_media s = true
       /\ session_is_cdn s = false
       /\ (session_id s ∈ started s2).
Proof.
  intros Hc H.
  destruct (decide (dc_id file_id = storage_dc_id c)) as [Hdc|Hdc].
  - destruct (create_media_session_home U ci file_id st c rc s2 Hc Hdc H)
      as (rs & _ & Hmc & Hrs).
    split; [exact Hmc|]. intros s ->.
    destruct rs as [[]|e|]; [|destruct Hrs; discriminate..].
    destruct Hrs as ([= ->] & Hin). simpl. auto 10.
  - destruct (create_media_session_cross U ci file_id st c rc s2 Hc Hdc H)
      as (Hmc & rk & t & _ & Hrk).
    split; [exact Hmc|]. intros s ->.
    destruct rk as [key|e|]; [|destruct Hrk as (_ & ? & _); discriminate..].
    destruct Hrk as (rs & t_imp & _ & Hrs).
    destruct rs as [[]|e|]; [|destruct Hrs as (_ & ? & _); discriminate..].
    destruct Hrs as (rl & _ & Hok & Hko & _).
    destruct (decide (rl = Return tt)) as [->|Hne].
    + destruct (Hok eq_refl) as ([= ->] & Hin). simpl. auto 10.
    + specialize (Hko Hne). destruct rl as [[]|e|]; discriminate.
Qed.

(** X7.  A registered session whose [is_started] flag is not set is
    not reused: [generate_media_session] first removes it from the table
    and stops it, then creates a session as if none had been there.  The
    session it returns is a new media session for the data center of the
    file, started and registered in place of the old one; when the
    creation fails the table is left with no session for that data
    center. *)
Theorem generate_media_session_replaces_stopped (U : Upstream) (ci : Z)
  (file_id : FileId) (st : state) (c : Client) (s : Session)
  (r : result Session) (st' : state) :
  multi_clients st !! ci = Some c ->
  media_sessions c !! dc_id file_id = Some s ->
  session_id s ∉ started st ->
  generate_media_session U ci file_id st = (r, st') ->
  (exists t, trace st' = trace st ++ EvSessionStop s :: t)
  /\ (forall s', r = Return s' ->
        session_id s' = next_session_id st
        /\ session_dc_id s' = dc_id file_id
        /\ session_is_media s' = true
        /\ session_is_cdn s' = false
        /\ (session_id s' ∈ started st')
        /\ session_of st' ci (dc_id file_id) = Some s')
  /\ (failed r -> session_of st' ci (dc_id file_id) = None).
Proof.
  intros Hc Hs Hout H.
  destruct (lookup_media_session ci file_id st) as [rl s1] eqn:Hl.
  pose proof Hl as Hl'.
  apply lookup_media_session_run in Hl'
    as [(Hn & _)|(c0 & Hc0 & [(Hs0 & _)|(s0 & Hs0 & [(Hin & _)|(_ & -> & Hs1)])])];
    try congruence.
  rewrite Hc in Hc0. injection Hc0 as <-. rewrite Hs in Hs0.
  injection Hs0 as <-.
  destruct (lookup_media_session_none ci file_id st s1 Hl)
    as (Hnext & c' & c1 & Hc' & Hc1 & Hnone & _).
  destruct (generate_media_session_create U ci file_id st s1 r st' Hl H)
    as (rc & s2 & Hcr & Hfin).
  destruct (create_media_session_fields U ci file_id s1 c1 rc s2 Hc1 Hcr)
    as (Hmc & Hfields).
  assert (Ht2 : exists t, trace s2 = trace s1 ++ t).
  { destruct (create_media_session_run U ci file_id s1 rc s2 Hcr)
      as (_ & t_pre & t_imp & Ht & _). eauto. }
  destruct Ht2 as (t & Ht).
  assert (Ht1 : trace s1 = trace st ++ [EvSessionStop s]).
  { rewrite Hs1. reflexivity. }
  assert (Htr : trace st' = trace s2).
  { destruct rc; destruct Hfin as (_ & ->); reflexivity. }
  split; [exists t; rewrite Htr, Ht, Ht1, <- app_assoc; reflexivity|].
  split.
  - intros s' ->. destruct rc as [s''|e|]; try (destruct Hfin; discriminate).
    destruct Hfin as ([= <-] & ->).
    destruct (Hfields _ eq_refl) as (Hid & _ & Hdc & _ & Hm & Hcdn & Hin).
    rewrite Hnext in Hid. repeat (split; [assumption|]).
    unfold session_of.
    destruct (registered_after_insert ci (dc_id file_id) s' s2 c1)
      as (cx & -> & Hx); [now rewrite Hmc|exact Hx].
  - intros Hf. destruct rc as [s''|e|];
      [destruct Hfin as (-> & _); contradiction|..];
      destruct Hfin as (_ & ->); unfold session_of; now rewrite Hmc, Hc1.
Qed.

Lemma generate_media_session_replaces_stopped_witness :
  (exists t,
     trace (snd (generate_media_session serving 0 demo_file stale))
     = trace stale
       ++ EvSessionStop (mkSession 0 0 4 [x09] false true false) :: t)
  /\ session_of (snd (generate_media_session serving 0 demo_file stale)) 0 4
     = Some (mkSession 1 0 4 [x09] false true false).
Proof.
  assert (Hc : multi_clients stale !! 0
               = Some (mkClient
                         {[4 := mkSession 0 0 4 [x09] false true false]} 2
                         false [x01])) by (vm_compute; reflexivity).
  destruct (generate_media_session_replaces_stopped serving 0 demo_file stale
              _ (mkSession 0 0 4 [x09] false true false) _ _ Hc
              ltac:(vm_compute; reflexivity)
              ltac:(apply not_elem_of_empty)
              (surjective_pairing _))
    as (Ht & Hok & _).
  split; [exact Ht|].
  apply (Hok (mkSession 1 0 4 [x09] false true false)).
  vm_compute. reflexivity.
Defined.

Lemma session_of_alter (f : gmap Z Session -> gmap Z Session) (ci dc : Z)
  (st : state) (ci' dc' : Z) :
  (forall m, dc' <> dc -> f m !! dc' = m !! dc') ->
  ci' <> ci \/ dc' <> dc ->
  session_of
    (set_multi_clients
       (alter (fun c => mkClient (f (media_sessions c)) (storage_dc_id c)
                          (storage_test_mode c) (storage_auth_key c))
          ci (multi_clients st)) st) ci' dc'
  = session_of st ci' dc'.
Proof.
  intros Hf Hne. unfold session_of. simpl.
  destruct (decide (ci' = ci)) as [->|Hci].
  - rewrite lookup_alter_eq. destruct (multi_clients st !! ci); simpl; auto.
    apply Hf. destruct Hne; congruence.
  - now rewrite lookup_alter_ne.
Qed.

(** X8.  What a call of [generate_media_session] leaves: a session it
    returns is the one registered for the data center of the file in the
    table of the client, with its [is_started] flag set; a call that
    fails leaves no session registered for that data center, the one
    found disconnected included. *)
Theorem generate_media_session_registers (U : Upstream) (ci : Z)
  (file_id : FileId) (st : state) (r : result Session) (st' : state) :
  generate_media_session U ci file_id st = (r, st') ->
  (forall s, r = Return s ->
     session_of st' ci (dc_id file_id) = Some s
     /\ (session_id s ∈ started st'))
  /\ (failed r -> session_of st' ci (dc_id file_id) = None).
Proof.
  intros H. split.
  - intros s ->.
    apply generate_media_session_run in H
      as (t_pre & t_imp & _ & _ & Hcases).
    assert (Hreg : (session_id s ∈ started st')
                   /\ exists c', multi_clients st' !! ci = Some c'
                                 /\ media_sessions c' !! dc_id file_id = Some s).
    { destruct Hcases as [(_ & Hret)|(s' & rl & _ & Hok & Hko)].
      - now apply Hret.
      - destruct (decide (rl = Return tt)) as [->|Hne].
        + destruct (Hok eq_refl) as ([= <-] & Hin & Hc). auto.
        + destruct (Hko Hne) as (Hr' & _). destruct rl; simpl in Hr';
            congruence. }
    destruct Hreg as (Hin & c' & Hc' & Hs'). unfold session_of.
    now rewrite Hc'.
  - intros Hf.
    destruct (lookup_media_session ci file_id st) as [rl s1] eqn:Hl.
    destruct rl as [[s|]|e|].
    + unfold generate_media_session, bind in H. rewrite Hl in H.
      injection H as <- <-. contradiction.
    + destruct (lookup_media_session_none ci file_id st s1 Hl)
        as (_ & c & c1 & _ & Hc1 & Hnone & _).
      destruct (generate_media_session_create U ci file_id st s1 r st' Hl H)
        as (rc & s2 & Hcr & Hfin).
      destruct (create_media_session_fields U ci file_id s1 c1 rc s2 Hc1 Hcr)
        as (Hmc & _).
      destruct rc as [s|e|];
        [destruct Hfin as (-> & _); contradiction|..];
        destruct Hfin as (_ & ->); unfold session_of; now rewrite Hmc, Hc1.
    + unfold generate_media_session, bind in H. rewrite Hl in H.
      injection H as <- <-.
      apply lookup_media_session_run in Hl
        as [(Hn & _ & ->)|(c & _ & [(_ & ? & _)|(s & _ & [(_ & ? & _)|(_ & ? & _)])])];
        try discriminate.
      unfold session_of. now rewrite Hn.
    + unfold generate_media_session, bind in H. rewrite Hl in H.
      injection H as <- <-.
      apply lookup_media_session_run in Hl
        as [(_ & ? & _)|(c & _ & [(_ & ? & _)|(s & _ & [(_ & ? & _)|(_ & ? & _)])])];
        discriminate.
Qed.

Lemma generate_media_session_registers_witness :
  session_of (snd (generate_media_session auth_rejecting 0 demo_file stale))
    0 4
  = None.
Proof.
  apply (generate_media_session_registers auth_rejecting 0 demo_file stale
           _ _ (surjective_pairing _)).
  vm_compute. exact I.
Defined.

(** X9.  [generate_media_session] works on one entry of one table: the
    sessions registered for other clients or other data centers are as
    they were, every client keeps its storage, [work_loads], the cache,
    [cdn_count] and the consumer are untouched, and the calls it makes
    are calls of session management only. *)
Theorem generate_media_session_frame (U : Upstream) (ci : Z)
  (file_id : FileId) (st : state) (r : result Session) (st' : state) :
  generate_media_session U ci file_id st = (r, st') ->
  work_loads st' = work_loads st
  /\ cached_file_ids st' = cached_file_ids st
  /\ cdn_count st' = cdn_count st
  /\ demand st' = demand st
  /\ clients_kept st st'
  /\ (forall ci' dc',
        ci' <> ci \/ dc' <> dc_id file_id ->
        session_of st' ci' dc' = session_of st ci' dc')
  /\ exists t, trace st' = trace st ++ t /\ Forall session_event t.
Proof.
  intros H.
  destruct (generate_media_session_same_globals U ci file_id _ _ _ H)
    as (Hw & Hcache & Hkept).
  destruct (generate_media_session_same_consumer U ci file_id _ _ _ H)
    as (Hd & Hcdn).
  pose proof (generate_media_session_events U ci file_id _ _ _ H) as Hev.
  repeat (split; [assumption|]). split; [|exact Hev].
  intros ci' dc' Hne.
  destruct (lookup_media_session ci file_id st) as [rl s1] eqn:Hl.
  assert (H1 : session_of s1 ci' dc' = session_of st ci' dc').
  { apply lookup_media_session_run in Hl
      as [(_ & _ & ->)|(c & _ & [(_ & _ & ->)|(s & _ & [(_ & _ & ->)|(_ & _ & ->)])])];
      try reflexivity.
    apply (session_of_alter (delete (dc_id file_id)) ci (dc_id file_id) st
             ci' dc'); [|exact Hne].
    intros m Hdc. now apply lookup_delete_ne. }
  destruct rl as [[s|]|e|].
  - unfold generate_media_session, bind in H. rewrite Hl in H.
    injection H as <- <-. exact H1.
  - destruct (generate_media_session_create U ci file_id st s1 r st' Hl H)
      as (rc & s2 & Hcr & Hfin).
    destruct (create_media_session_run U ci file_id s1 rc s2 Hcr)
      as (Hmc & _).
    assert (H2 : session_of s2 ci' dc' = session_of s1 ci' dc').
    { unfold session_of. now rewrite Hmc. }
    destruct rc as [s|e|]; destruct Hfin as (_ & ->); try congruence.
    rewrite <- H1, <- H2.
    apply (session_of_alter (<[dc_id file_id := s]>) ci (dc_id file_id) s2
             ci' dc'); [|exact Hne].
    intros m Hdc. now apply lookup_insert_ne.
  - unfold generate_media_session, bind in H. rewrite Hl in H.
    injection H as <- <-. exact H1.
  - unfold generate_media_session, bind in H. rewrite Hl in H.
    injection H as <- <-. exact H1.
Qed.

Lemma generate_media_session_frame_witness :
  work_loads (snd (generate_media_session serving 0 demo_file idle))
  = work_loads idle
  /\ session_of (snd (generate_media_session serving 0 demo_file idle)) 0 2
     = session_of idle 0 2.
Proof.
  destruct (generate_media_session_frame serving 0 demo_file idle _ _
              (surjective_pairing _))
    as (Hw & _ & _ & _ & _ & Hs & _).
  split; [exact Hw|]. apply Hs. right. discriminate.
Defined.

(** ** The stream *)

Lemma yield_file_no_key (P : Primitives) (U : Upstream) (fuel : nat)
  (file_id : FileId) (offset fc lc pc cs : Z) (st : state) :
  demand st <> Some O ->
  multi_clients st !! index file_id = None
  \/ dict_get (work_loads st) (index file_id) = None ->
  yield_file P U fuel file_id offset fc lc pc cs st = (Raise KeyError, st).
Proof.
  intros Hd Hmiss. unfold yield_file.
  assert (Hgo : forall (A : Type) (x y : A),
             match demand st with Some O => x | _ => y end = y).
  { intros A x y. destruct (demand st) as [[|k]|]; congruence. }
  rewrite Hgo. unfold bind at 1, client_attr at 1.
  destruct (multi_clients st !! index file_id) as [c|] eqn:Hc;
    [|reflexivity].
  destruct Hmiss as [|Hw]; [discriminate|].
  unfold bind at 1, work_loads_add at 1. now rewrite Hw.
Qed.

(** X10.  [yield_file] subscripts [multi_clients] and [work_loads] with
    the index of the descriptor before anything else: when either has no
    such key the generator raises [KeyError] at its first step, with
    nothing counted, nothing sent and the state as it was. *)
Theorem yield_file_missing_key (P : Primitives) (U : Upstream) (fuel : nat)
  (file_id : FileId) (offset fc lc pc cs : Z) (st : state) :
  demand st <> Some O ->
  multi_clients st !! index file_id = None
  \/ dict_get (work_loads st) (index file_id) = None ->
  yield_file P U fuel file_id offset fc lc pc cs st = (Raise KeyError, st).
Proof.
  intros Hd Hmiss.
  destruct Hmiss as [Hc|Hw].
  - now apply yield_file_no_key; [|left].
  - now apply yield_file_no_key; [|right].
Qed.

Lemma yield_file_missing_key_witness :
  yield_file demo_primitives serving 3 demo_file 0 0 4 1 4
    (set_work_loads [] idle)
  = (Raise KeyError, set_work_loads [] idle).
Proof.
  apply (yield_file_missing_key demo_primitives serving 3 demo_file 0 0 4 1 4
           (set_work_loads [] idle)).
  - discriminate.
  - right. reflexivity.
Defined.

(** X11.  Once [generate_media_session] has returned a session, the
    counter of the index in [work_loads] is one above its value before
    the call for as long as the body of the [try] runs, and whatever the
    way the body ends (a return, an error that is swallowed or raised
    again, the consumer closing the generator), [work_loads] is back to
    what it was before the call, key order included. *)
Theorem yield_file_restores_work_loads (P : Primitives) (U : Upstream)
  (fuel : nat) (file_id : FileId) (offset fc lc pc cs : Z) (st : state)
  (c : Client) (n : Z) (ms : Session) (st1 : state) (rb : result unit)
  (st2 : state) :
  demand st <> Some O ->
  multi_clients st !! index file_id = Some c ->
  dict_get (work_loads st) (index file_id) = Some n ->
  generate_media_session U (index file_id) file_id
    (set_work_loads (dict_set (work_loads st) (index file_id) (n + 1)) st)
  = (Return ms, st1) ->
  stream_body P U fuel (index file_id) ms file_id (get_location P file_id)
    offset fc lc pc cs 1 st1 = (rb, st2) ->
  work_loads st1 = dict_set (work_loads st) (index file_id) (n + 1)
  /\ work_loads st2 = dict_set (work_loads st) (index file_id) (n + 1)
  /\ (rb <> Diverge ->
      work_loads (snd (yield_file P U fuel file_id offset fc lc pc cs st))
      = work_loads st).
Proof.
  intros Hd Hc Hn Hg Hb.
  destruct (generate_media_session_same_globals _ _ _ _ _ _ Hg) as (E1 & _).
  destruct (stream_body_same_globals _ _ _ _ _ _ _ _ _ _ _ _ _ _ _ _ Hb)
    as (E2 & _).
  simpl in E1. split; [exact E1|]. split; [congruence|].
  intros Hr.
  rewrite (yield_file_run P U fuel file_id offset fc lc pc cs st c n Hd Hc Hn).
  rewrite Hg, Hb. unfold stream_finish.
  destruct rb as [[]|e|]; [reflexivity| |congruence].
  destruct e; reflexivity.
Qed.

Lemma yield_file_restores_work_loads_witness :
  work_loads
    (snd (yield_file demo_primitives cdn_corrupting 3 demo_file 0 0 4 1 4
            idle))
  = work_loads idle.
Proof.
  refine (proj2 (proj2
    (yield_file_restores_work_loads demo_primitives cdn_corrupting 3
       demo_file 0 0 4 1 4 idle demo_client 0 _ _ _ _ _ eq_refl eq_refl
       (surjective_pairing _) (surjective_pairing _))) _).
  - discriminate.
  - vm_compute. discriminate.
Defined.

(** X12.  The body of the [try] leaves the session table of every
    client as it is, however it ends; the table is written only by the
    [except OSError] clause.  When the body returns, or raises a
    [TimeoutError] or an [AttributeError], which are swallowed, the
    generator ends as if the file were complete.  An error that is not
    an [OSError] (a hash mismatch, an overflow, the consumer closing the
    generator) is raised to the caller.  In all these cases the state is
    the one the body left, with [work_loads] set back: the media session
    is still registered and was not stopped by the handlers. *)
Theorem yield_file_keeps_session (P : Primitives) (U : Upstream)
  (fuel : nat) (file_id : FileId) (offset fc lc pc cs : Z) (st : state)
  (c : Client) (n : Z) (ms : Session) (st1 : state) (rb : result unit)
  (st2 : state) :
  demand st <> Some O ->
  multi_clients st !! index file_id = Some c ->
  dict_get (work_loads st) (index file_id) = Some n ->
  generate_media_session U (index file_id) file_id
    (set_work_loads (dict_set (work_loads st) (index file_id) (n + 1)) st)
  = (Return ms, st1) ->
  stream_body P U fuel (index file_id) ms file_id (get_location P file_id)
    offset fc lc pc cs 1 st1 = (rb, st2) ->
  multi_clients st2 = multi_clients st1
  /\ session_of st2 (index file_id) (dc_id file_id) = Some ms
  /\ (rb = Return tt \/ rb = Raise TimeoutError \/ rb = Raise AttributeError ->
      yield_file P U fuel file_id offset fc lc pc cs st
      = (Return tt, set_work_loads (work_loads st) st2))
  /\ (forall e,
        rb = Raise e ->
        isinstance_OSError e = false -> e <> AttributeError ->
        yield_file P U fuel file_id offset fc lc pc cs st
        = (Raise e, set_work_loads (work_loads st) st2)).
Proof.
  intros Hd Hc Hn Hg Hb.
  rewrite (yield_file_run P U fuel file_id offset fc lc pc cs st c n Hd Hc Hn).
  rewrite Hg, Hb. unfold stream_finish.
  assert (Hmc : multi_clients st2 = multi_clients st1).
  { exact (preserves_stream_body P U
             (fun a b => multi_clients b = multi_clients a) (fun _ => True)
             (fun _ => eq_refl) (fun a b c E1 E2 => eq_trans E2 E1)
             (fun _ _ _ => eq_refl) (fun _ _ => eq_refl) (fun _ _ => eq_refl)
             (fun _ _ => eq_refl) (fun _ _ => eq_refl) (fun _ _ => I)
             _ _ _ _ _ _ _ _ _ _ _ _ _ _ Hb). }
  split; [exact Hmc|]. split; [|split].
  - unfold session_of. rewrite Hmc.
    apply generate_media_session_run in Hg
      as (t_pre & t_imp & _ & _ & Hcases).
    destruct Hcases as [(_ & Hret)|(s' & rl & _ & Hok & Hko)].
    + destruct (Hret ms eq_refl) as (_ & c' & -> & Hs'). exact Hs'.
    + destruct (decide (rl = Return tt)) as [->|Hne].
      * destruct (Hok eq_refl) as ([= <-] & _ & c' & -> & Hs'). exact Hs'.
      * destruct (Hko Hne) as (Hr' & _). destruct rl; simpl in Hr';
          congruence.
  - intros [->|[->| ->]]; reflexivity.
  - intros e -> He Hne. destruct e; try reflexivity; try discriminate.
    congruence.
Qed.

Lemma yield_file_keeps_session_witness :
  yield_file demo_primitives timing_out 3 demo_file 0 0 4 1 4 idle
  = (Return tt,
     set_work_loads (work_loads idle)
       (snd (stream_body demo_primitives timing_out 3 0
               (mkSession 0 0 4 [x09] false true false) demo_file
               (get_location demo_primitives demo_file) 0 0 4 1 4 1
               (snd (generate_media_session timing_out 0 demo_file
                       (set_work_loads [(0, 1)] idle))))))
  /\ session_of
       (snd (yield_file demo_primitives timing_out 3 demo_file 0 0 4 1 4
               idle)) 0 4
     = Some (mkSession 0 0 4 [x09] false true false).
Proof.
  split; [|vm_compute; reflexivity].
  refine (proj1 (proj2 (proj2
    (yield_file_keeps_session demo_primitives timing_out 3 demo_file 0 0 4 1
       4 idle demo_client 0 (mkSession 0 0 4 [x09] false true false)
       (snd (generate_media_session timing_out 0 demo_file
               (set_work_loads [(0, 1)] idle)))
       (Raise TimeoutError) _ _ eq_refl eq_refl _ _))) _).
  - discriminate.
  - vm_compute. reflexivity.
  - vm_compute. reflexivity.
  - right. now left.
Defined.

(** ** [cdn_count] *)

Lemma counted_refl (st : state) : counted st st.
Proof. split; [reflexivity|]. exists []. now rewrite app_nil_r. Qed.

Lemma counted_trans (a b c : state) : counted a b -> counted b c -> counted a c.
Proof.
  intros (E1 & t1 & T1) (E2 & t2 & T2). split; [congruence|].
  exists (t1 ++ t2). now rewrite T2, T1, app_assoc.
Qed.

Lemma counted_log (e : event) (st : state) : True -> counted st (log e st).
Proof. intros _. split; [reflexivity|]. now exists [e]. Qed.

Lemma counted_field (st st' : state) :
  cdn_count st' = cdn_count st -> trace st' = trace st -> counted st st'.
Proof. intros E T. split; [exact E|]. exists []. now rewrite app_nil_r. Qed.

Lemma first_fetch_session (ts t : list event) :
  Forall session_event ts -> first_fetch (ts ++ t) = first_fetch t.
Proof.
  induction 1 as [|e ts He _ IH]; [reflexivity|].
  destruct e; simpl in *; try contradiction; exact IH.
Qed.

(** The stream body: the first fetch, then a loop that leaves
    [cdn_count] alone, or the CDN branch that counts the redirect
    once. *)
Lemma stream_body_cdn_count (P : Primitives) (U : Upstream) (fuel : nat)
  (ci : Z) (ms : Session) (file_id : FileId) (loc : Location)
  (offset fc lc pc cs cp : Z) (st : state) (rb : result unit) (st' : state) :
  stream_body P U fuel ci ms file_id loc offset fc lc pc cs cp st
  = (rb, st') ->
  exists rg t,
    trace st' = trace st ++ EvGetFile ms loc offset cs rg :: t
    /\ cdn_count st' =
       if is_redirect (Some rg)
       then dict_set (cdn_count st) (index file_id)
              (match dict_get (cdn_count st) (index file_id) with
               | Some v => v + 1
               | None => 1
               end)
       else cdn_count st.
Proof.
  unfold stream_body, bind at 1, invoke_GetFile, upstream_call.
  destruct (up_get_file U (trace st) ms loc offset cs)
    as [[b|dc tok key iv]|e|] eqn:Eg.
  - intros H.
    destruct (preserves_file_loop U counted (fun _ => True)
                counted_refl counted_trans counted_log
                (fun d st => counted_field st (set_demand d st)
                               eq_refl eq_refl)
                (fun _ _ _ _ _ => I) (fun _ => I)
                ms loc fc lc pc cs fuel _ _ _ _ H) as (Hc & t & Ht).
    simpl in Ht, Hc. eexists _, t. rewrite Ht, <- app_assoc.
    split; [reflexivity|exact Hc].
  - unfold cdn_branch, bind at 1, cdn_count_incr, modify. intros H.
    destruct (preserves_cdn_session P U counted (fun _ => True)
                counted_refl counted_trans counted_log
                (fun s st => counted_field st (set_started s st)
                               eq_refl eq_refl)
                (fun n st => counted_field st (set_next_session_id n st)
                               eq_refl eq_refl)
                (fun d st => counted_field st (set_demand d st)
                               eq_refl eq_refl)
                (fun _ _ => I)
                fuel ci ms dc tok key iv offset fc lc pc cs cp _ _ _ H)
      as (Hc & t & Ht).
    simpl in Ht, Hc. eexists _, t. rewrite Ht, <- app_assoc.
    split; [reflexivity|exact Hc].
  - intros [= <- <-]. eexists _, []. split; reflexivity.
  - intros [= <- <-]. eexists _, []. split; reflexivity.
Qed.

(** X13.  [cdn_count] counts the streams that were redirected to a CDN:
    a run of [yield_file] whose first fetch is answered by a redirect
    adds one to the counter of the index of the descriptor, or sets it to
    1 when the index has no counter yet; every other run (a direct
    download, a failure before or at the first fetch, a redirect that
    answers a later fetch) leaves [cdn_count] as it was. *)
Theorem yield_file_cdn_count (P : Primitives) (U : Upstream) (fuel : nat)
  (file_id : FileId) (offset fc lc pc cs : Z) (st : state)
  (r : result unit) (st' : state) :
  yield_file P U fuel file_id offset fc lc pc cs st = (r, st') ->
  exists t,
    trace st' = trace st ++ t
    /\ cdn_count st' =
       if is_redirect (first_fetch t)
       then dict_set (cdn_count st) (index file_id)
              (match dict_get (cdn_count st) (index file_id) with
               | Some v => v + 1
               | None => 1
               end)
       else cdn_count st.
Proof.
  intros H.
  assert (Hquiet : st' = st ->
            exists t, trace st' = trace st ++ t
                      /\ cdn_count st' =
                         if is_redirect (first_fetch t)
                         then dict_set (cdn_count st) (index file_id)
                                (match dict_get (cdn_count st) (index file_id)
                                 with Some v => v + 1 | None => 1 end)
                         else cdn_count st).
  { intros ->. exists []. rewrite app_nil_r. auto. }
  destruct (decide (demand st = Some O)) as [Hd|Hd].
  { unfold yield_file in H. rewrite Hd in H. injection H as <- <-. auto. }
  destruct (multi_clients st !! index file_id) as [c|] eqn:Hc.
  2:{ rewrite yield_file_no_key in H by auto.
      injection H as <- <-. auto. }
  destruct (dict_get (work_loads st) (index file_id)) as [n|] eqn:Hn.
  2:{ rewrite yield_file_no_key in H by auto.
      injection H as <- <-. auto. }
  clear Hquiet.
  rewrite (yield_file_run P U fuel file_id offset fc lc pc cs st c n Hd Hc Hn)
    in H.
  destruct (generate_media_session U (index file_id) file_id _)
    as [rg st1] eqn:Hg.
  destruct (generate_media_session_events _ _ _ _ _ _ Hg) as (ts & Hts & Hks).
  destruct (generate_media_session_same_consumer _ _ _ _ _ _ Hg) as (_ & Hc1).
  simpl in Hts, Hc1.
  assert (Hfail : st' = st1 ->
            exists t, trace st' = trace st ++ t
                      /\ cdn_count st' =
                         if is_redirect (first_fetch t)
                         then dict_set (cdn_count st) (index file_id)
                                (match dict_get (cdn_count st) (index file_id)
                                 with Some v => v + 1 | None => 1 end)
                         else cdn_count st).
  { intros ->. exists ts. split; [exact Hts|].
    rewrite <- (app_nil_r ts), first_fetch_session by exact Hks. exact Hc1. }
  destruct rg as [ms|e|]; [|injection H as <- <-; auto..].
  clear Hfail.
  destruct (stream_body P U fuel (index file_id) ms file_id
              (get_location P file_id) offset fc lc pc cs 1 st1)
    as [rb st2] eqn:Hb.
  apply stream_body_cdn_count in Hb as (rf & tb & Htb & Hcb).
  destruct (stream_finish_end (index file_id) ms file_id (work_loads st) rb st2)
    as (t_fin & Htf & _).
  rewrite H in Htf. simpl in Htf.
  assert (Hcf : cdn_count st' = cdn_count st2).
  { change st' with (snd (r, st')). rewrite <- H. unfold stream_finish.
    destruct rb as [[]|e|]; try reflexivity. destruct e; reflexivity. }
  exists (ts ++ (EvGetFile ms (get_location P file_id) offset cs rf :: tb)
          ++ t_fin).
  split.
  - rewrite Htf, Htb, Hts, <- !app_assoc. reflexivity.
  - rewrite first_fetch_session by exact Hks. simpl.
    rewrite Hcf, Hcb, Hc1. reflexivity.
Qed.

Lemma yield_file_cdn_count_witness :
  cdn_count
    (snd (yield_file demo_primitives cdn_redirecting 3 demo_file 0 0 4 1 4
            idle))
  = [(0, 1)]
  /\ cdn_count
       (snd (yield_file demo_primitives serving 3 demo_file 0 0 4 1 4 idle))
     = [].
Proof.
  split.
  - destruct (yield_file_cdn_count demo_primitives cdn_redirecting 3
                demo_file 0 0 4 1 4 idle _ _ (surjective_pairing _))
      as (t & Ht & Hc).
    vm_compute in Ht. subst t. exact Hc.
  - destruct (yield_file_cdn_count demo_primitives serving 3
                demo_file 0 0 4 1 4 idle _ _ (surjective_pairing _))
      as (t & Ht & Hc).
    vm_compute in Ht. subst t. exact Hc.
Defined.

(** ** The CDN counter block and the check of the hashes *)

Lemma byte_of_Z_value (v : Z) :
  Z.of_N (Byte.to_N (byte_of_Z v)) = v mod 256.
Proof.
  unfold byte_of_Z.
  assert (Hr : 0 <= v mod 256 < 256) by (apply Z.mod_pos_bound; lia).
  destruct (Byte.of_N (Z.to_N (v mod 256))) as [b|] eqn:E.
  - apply Byte.to_of_N in E. rewrite E. lia.
  - apply Byte.of_N_None_iff in E. lia.
Qed.

(** X14.  The counter of the CDN cipher, [(offset // 16).to_bytes(4,
    "big")]: for an offset from 0 to below 2^36 it is four bytes that
    read back, big-endian, as [offset // 16]; for a negative offset, or
    one from 2^36 on, [OverflowError] is raised.  It replaces the last
    four bytes of the IV of the redirect: an IV of four bytes or more
    keeps its length and all its bytes but the last four, and of a
    shorter IV nothing is kept. *)
Theorem counter_bytes_big_endian (offset : Z) (st : state) :
  (0 <= offset < 2 ^ 36 ->
   exists b,
     counter_bytes offset st = (Return b, st)
     /\ length b = 4%nat
     /\ from_bytes_big b = offset / 16)
  /\ (offset < 0 \/ 2 ^ 36 <= offset ->
      counter_bytes offset st = (Raise OverflowError, st))
  /\ (forall (P : Primitives) (key iv counter chunk : bytes),
        decrypt_chunk P key iv counter chunk
        = ctr256_decrypt P chunk key
            (take (length iv - 4) iv ++ counter)).
Proof.
  split; [|split].
  - intros Ho. unfold counter_bytes, to_bytes_4_big.
    assert (Hq : 0 <= offset / 16 < 2 ^ 32).
    { change (2 ^ 36) with (16 * 2 ^ 32) in Ho.
      split; [apply Z.div_pos; lia|apply Z.div_lt_upper_bound; lia]. }
    destruct (0 <=? offset / 16) eqn:E1; [|apply Z.leb_gt in E1; lia].
    destruct (offset / 16 <? 2 ^ 32) eqn:E2; [|apply Z.ltb_ge in E2; lia].
    simpl. eexists. split; [reflexivity|]. split; [reflexivity|].
    unfold from_bytes_big. simpl. rewrite !byte_of_Z_value.
    generalize dependent (offset / 16). intros q Hq _ _.
    change (2 ^ 32) with 4294967296 in Hq.
    change (2 ^ 24) with 16777216. change (2 ^ 16) with 65536.
    change (2 ^ 8) with 256.
    Z.div_mod_to_equations. lia.
  - intros Ho. unfold counter_bytes, to_bytes_4_big.
    destruct Ho as [Ho|Ho].
    + assert (offset / 16 < 0) by (apply Z.div_lt_upper_bound; lia).
      destruct (0 <=? offset / 16) eqn:E1; [apply Z.leb_le in E1; lia|].
      reflexivity.
    + assert (2 ^ 32 <= offset / 16).
      { apply Z.div_le_lower_bound; [lia|].
        change (16 * 2 ^ 32) with (2 ^ 36). exact Ho. }
      destruct (offset / 16 <? 2 ^ 32) eqn:E2; [apply Z.ltb_lt in E2; lia|].
      now rewrite andb_false_r.
  - intros P key iv counter chunk. unfold decrypt_chunk. f_equal. f_equal.
    unfold py_slice, clamp_index. simpl. rewrite drop_0.
    f_equal. lia.
Qed.

Lemma counter_bytes_big_endian_witness :
  (exists b,
     counter_bytes 4096 idle = (Return b, idle)
     /\ length b = 4%nat
     /\ from_bytes_big b = 4096 / 16)
  /\ counter_bytes (2 ^ 36) idle = (Raise OverflowError, idle)
  /\ counter_bytes (-1) idle = (Raise OverflowError, idle).
Proof.
  split; [|split].
  - apply (counter_bytes_big_endian 4096 idle). lia.
  - apply (counter_bytes_big_endian (2 ^ 36) idle). right. lia.
  - apply (counter_bytes_big_endian (-1) idle). left. lia.
Defined.

Lemma hashes_verified_true (P : Primitives) (hs : list FileHash)
  (dec : bytes) :
  forall i0 : Z,
    (forall (i : nat) (h : FileHash),
       hs !! i = Some h ->
       fh_hash h =
         sha256 P (py_slice (Some (fh_limit h * (i0 + Z.of_nat i)))
                     (Some (fh_limit h * (i0 + Z.of_nat i + 1))) dec)) ->
    hashes_verified P i0 hs dec = true.
Proof.
  induction hs as [|h0 hs IH]; intros i0 Hall; [reflexivity|].
  cbn [hashes_verified]. apply andb_true_iff. split.
  - apply bool_decide_eq_true.
    specialize (Hall O h0 eq_refl).
    replace (i0 + Z.of_nat 0) with i0 in Hall by lia. exact Hall.
  - apply IH. intros i h Hi. specialize (Hall (S i) h Hi).
    replace (i0 + 1 + Z.of_nat i) with (i0 + Z.of_nat (S i)) by lia.
    exact Hall.
Qed.

(** X15.  The check of a decrypted CDN chunk against its declared
    hashes reads and changes nothing of the state, and either passes or
    raises [CDNFileHashMismatch].  It passes exactly when every declared
    hash, the [i]-th one [h], is the SHA-256 of the slice from
    [h.limit * i] to [h.limit * (i + 1)] of the chunk; the offsets the
    hashes declare are not looked at, and an empty list of hashes passes
    for any chunk. *)
Theorem check_hashes_passes_iff (P : Primitives) (hs : list FileHash)
  (dec : bytes) (st : state) :
  (check_hashes P 0 hs dec st = (Return tt, st)
   \/ check_hashes P 0 hs dec st = (Raise CDNFileHashMismatch, st))
  /\ (check_hashes P 0 hs dec st = (Return tt, st) <->
      forall (i : nat) (h : FileHash),
        hs !! i = Some h ->
        fh_hash h =
          sha256 P (py_slice (Some (fh_limit h * Z.of_nat i))
                      (Some (fh_limit h * (Z.of_nat i + 1))) dec))
  /\ check_hashes P 0 [] dec st = (Return tt, st).
Proof.
  rewrite !check_hashes_verified. split; [|split; [|reflexivity]].
  - destruct (hashes_verified P 0 hs dec); auto.
  - split.
    + intros Hv i h Hi.
      destruct (decide (fh_hash h =
                        sha256 P (py_slice (Some (fh_limit h * Z.of_nat i))
                                    (Some (fh_limit h * (Z.of_nat i + 1)))
                                    dec))) as [E|Hne]; [exact E|].
      rewrite (hashes_verified_false P hs dec 0 i h Hi) in Hv by exact Hne.
      discriminate.
    + intros Hall. rewrite hashes_verified_true; [reflexivity|].
      intros i h Hi. apply (Hall i h Hi).
Qed.

(** ** Every run through the CDN *)

(** Where a CDN fetch of a run of [yield_file] sits: in the CDN loop,
    whose session it goes through; what follows the loop is the stop of
    that session and the [except] clauses. *)
Lemma yield_file_cdn_locate (P : Primitives) (U : Upstream) (fuel : nat)
  (file_id : FileId) (offset fc lc pc cs : Z) (st : state)
  (r : result unit) (st' : state) :
  yield_file P U fuel file_id offset fc lc pc cs st = (r, st') ->
  exists t,
    trace st' = trace st ++ t
    /\ forall t1 s tk o l rg t2,
         t = t1 ++ EvGetCdnFile s tk o l rg :: t2 ->
         exists ms tok key iv t_loop rl t1' t2' t_end,
           loop_run (cdn_iter P ms s tok key iv fc lc pc cs) (1, offset)
             t_loop rl
           /\ t_loop = t1' ++ EvGetCdnFile s tk o l rg :: t2'
           /\ t2 = t2' ++ t_end
           /\ ((rl = Diverge /\ t_end = [] /\ r = Diverge)
               \/ (rl <> Diverge
                   /\ exists t_fin,
                        t_end = EvSessionStop s :: t_fin
                        /\ stream_end ms rl t_fin r)).
Proof.
  intros H. apply yield_file_cdn_run in H as (t & Ht & Hshape).
  exists t. split; [exact Ht|].
  intros t1 s tk o l rg t2 Hdec.
  destruct Hshape as [Hno|(ms0 & [Hno|Hshape])].
  1,2: exfalso; rewrite List.Forall_forall in Hno;
    apply (Hno (EvGetCdnFile s tk o l rg));
    [rewrite Hdec; apply in_or_app; right; now left|exact I].
  destruct Hshape as (t0 & tok0 & key0 & iv0 & cdn & t_loop & rl & t_end
                      & Heq & Hno & Huniq & Hl & Hcases).
  rewrite Heq in Hdec.
  destruct (app_eq_skip cdn_fetch t0 _ t1 t2
              (EvGetCdnFile s tk o l rg) Hno I Hdec)
    as (t1' & _ & Hdec').
  assert (Hend : Forall (fun e => ~ cdn_fetch e) t_end).
  { destruct Hcases as [(_ & -> & _)|(_ & t_fin & -> & Hfin)];
      [constructor|].
    constructor; [auto|]. eapply stream_end_no_fetch, Hfin. }
  destruct (app_eq_skip_r cdn_fetch t_loop t_end t1' t2
              (EvGetCdnFile s tk o l rg) Hend I Hdec')
    as (t2' & Hloop & ->).
  assert (Hs : s = cdn).
  { eapply cdn_loop_fetch_session; [exact Hl|].
    rewrite Hloop. apply in_or_app. right. now left. }
  subst s.
  exists ms0, tok0, key0, iv0, t_loop, rl, t1', t2', t_end.
  repeat (split; [auto|]). exact Hcases.
Qed.

Lemma to_bytes_4_big_overflow (o : Z) :
  o < 0 \/ 2 ^ 36 <= o -> to_bytes_4_big (o / 16) = None.
Proof.
  intros Ho. unfold to_bytes_4_big. destruct Ho as [Ho|Ho].
  - assert (o / 16 < 0) by (apply Z.div_lt_upper_bound; lia).
    destruct (0 <=? o / 16) eqn:E1; [apply Z.leb_le in E1; lia|].
    reflexivity.
  - assert (2 ^ 32 <= o / 16).
    { apply Z.div_le_lower_bound; [lia|].
      change (16 * 2 ^ 32) with (2 ^ 36). exact Ho. }
    destruct (o / 16 <? 2 ^ 32) eqn:E2; [apply Z.ltb_lt in E2; lia|].
    now rewrite andb_false_r.
Qed.

Section CdnLoopOverflow.

Context (P : Primitives) (ms cdn : Session) (tok key iv : bytes)
  (fc lc pc cs : Z).

Lemma cdn_iter_overflow_chunk (s : Z * Z) (s' : Session) (tk : bytes)
  (o l : Z) (b : bytes) (t' : list event) (rc : result (control (Z * Z))) :
  cdn_iter P ms cdn tok key iv fc lc pc cs s
    (EvGetCdnFile s' tk o l (Return (CdnFile b)) :: t') rc ->
  to_bytes_4_big (o / 16) = None ->
  t' = [] /\ rc = Raise OverflowError.
Proof.
  intros H Hc. inversion H; subst; try contradiction; try congruence; auto.
Qed.

(** A chunk fetched at an offset whose counter does not fit four bytes
    is where the loop ends, with [OverflowError]. *)
Lemma cdn_loop_overflow (s : Z * Z) (t : list event) (r : result unit) :
  loop_run (cdn_iter P ms cdn tok key iv fc lc pc cs) s t r ->
  forall t1 s' tk o l b t2,
    t = t1 ++ EvGetCdnFile s' tk o l (Return (CdnFile b)) :: t2 ->
    to_bytes_4_big (o / 16) = None ->
    t2 = [] /\ r = Raise OverflowError.
Proof.
  induction 1 as [s|s t H|s t e H|s t H|s t s' t' r H Hl IH];
    intros t1 s0 tk o l b t2 Ht Hc.
  - destruct t1; discriminate.
  - rewrite <- (app_nil_r t) in Ht.
    destruct (cdn_iter_locate P ms cdn tok key iv fc lc pc cs
                _ _ _ _ _ _ _ _ _ _ _ H Ht)
      as [(t0 & _ & Hhead & ->)|(t1' & Hnil)]; [|destruct t1'; discriminate].
    rewrite Hhead in H.
    destruct (cdn_iter_overflow_chunk _ _ _ _ _ _ _ _ H Hc) as (_ & [=]).
  - rewrite <- (app_nil_r t) in Ht.
    destruct (cdn_iter_locate P ms cdn tok key iv fc lc pc cs
                _ _ _ _ _ _ _ _ _ _ _ H Ht)
      as [(t0 & _ & Hhead & ->)|(t1' & Hnil)]; [|destruct t1'; discriminate].
    rewrite Hhead in H.
    destruct (cdn_iter_overflow_chunk _ _ _ _ _ _ _ _ H Hc) as (-> & [= ->]).
    auto.
  - rewrite <- (app_nil_r t) in Ht.
    destruct (cdn_iter_locate P ms cdn tok key iv fc lc pc cs
                _ _ _ _ _ _ _ _ _ _ _ H Ht)
      as [(t0 & _ & Hhead & ->)|(t1' & Hnil)]; [|destruct t1'; discriminate].
    rewrite Hhead in H.
    destruct (cdn_iter_overflow_chunk _ _ _ _ _ _ _ _ H Hc) as (_ & [=]).
  - destruct (cdn_iter_locate P ms cdn tok key iv fc lc pc cs
                _ _ _ _ _ _ _ _ _ _ _ H Ht)
      as [(t0 & _ & Hhead & ->)|(t1' & ->)].
    + rewrite Hhead in H.
      destruct (cdn_iter_overflow_chunk _ _ _ _ _ _ _ _ H Hc) as (_ & [=]).
    + eapply IH; [reflexivity|exact Hc].
Qed.

End CdnLoopOverflow.

(** X16.  In every run of [yield_file] that ends, a fetch from the CDN
    is followed by the stop of the session it went through: the CDN
    session is stopped on every way out of the CDN branch.  After that
    stop nothing is fetched and nothing is yielded; all that can follow
    is the stop of the media session. *)
Theorem yield_file_stops_cdn_session (P : Primitives) (U : Upstream)
  (fuel : nat) (file_id : FileId) (offset fc lc pc cs : Z) (st : state)
  (r : result unit) (st' : state) :
  yield_file P U fuel file_id offset fc lc pc cs st = (r, st') ->
  r <> Diverge ->
  exists t,
    trace st' = trace st ++ t
    /\ forall t1 s tk o l rg t2,
         t = t1 ++ EvGetCdnFile s tk o l rg :: t2 ->
         exists t3 t4,
           t2 = t3 ++ EvSessionStop s :: t4
           /\ (t4 = [] \/ exists ms, t4 = [EvSessionStop ms]).
Proof.
  intros H Hr. apply yield_file_cdn_locate in H as (t & Ht & Hloc).
  exists t. split; [exact Ht|].
  intros t1 s tk o l rg t2 Hdec.
  destruct (Hloc _ _ _ _ _ _ _ Hdec)
    as (ms & tok & key & iv & t_loop & rl & t1' & t2' & t_end
        & _ & _ & -> & [(_ & _ & ->)|(_ & t_fin & -> & Hend)]);
    [contradiction|].
  exists t2', t_fin. split; [reflexivity|].
  unfold stream_end in Hend.
  destruct rl as [[]|e|]; try (destruct Hend as (-> & _); now left).
  destruct e; simpl in Hend; destruct Hend as (-> & _); eauto.
Qed.

Lemma yield_file_stops_cdn_session_witness :
  exists t,
    trace (snd (yield_file demo_primitives cdn_corrupting 3 demo_file 0 0 4 1
                  4 idle))
    = trace idle ++ t
    /\ forall t1 s tk o l rg t2,
         t = t1 ++ EvGetCdnFile s tk o l rg :: t2 ->
         exists t3 t4,
           t2 = t3 ++ EvSessionStop s :: t4
           /\ (t4 = [] \/ exists ms, t4 = [EvSessionStop ms]).
Proof.
  apply (yield_file_stops_cdn_session demo_primitives cdn_corrupting 3
           demo_file 0 0 4 1 4 idle _ _ (surjective_pairing _)).
  vm_compute. discriminate.
Defined.

(** X17.  In every run of [yield_file], a chunk fetched from the CDN at
    a negative offset, or at an offset from 2^36 on, is never decrypted:
    the counter of the cipher does not fit its four bytes and
    [OverflowError] is raised.  The hashes are not asked for, nothing is
    yielded, all that follows is the stop of the CDN session, and the
    error reaches the caller. *)
Theorem yield_file_cdn_offset_overflow (P : Primitives) (U : Upstream)
  (fuel : nat) (file_id : FileId) (offset fc lc pc cs : Z) (st : state)
  (r : result unit) (st' : state) :
  yield_file P U fuel file_id offset fc lc pc cs st = (r, st') ->
  exists t,
    trace st' = trace st ++ t
    /\ forall t1 s tk o l b t2,
         t = t1 ++ EvGetCdnFile s tk o l (Return (CdnFile b)) :: t2 ->
         o < 0 \/ 2 ^ 36 <= o ->
         t2 = [EvSessionStop s] /\ r = Raise OverflowError.
Proof.
  intros H. apply yield_file_cdn_locate in H as (t & Ht & Hloc).
  exists t. split; [exact Ht|].
  intros t1 s tk o l b t2 Hdec Ho.
  destruct (Hloc _ _ _ _ _ _ _ Hdec)
    as (ms & tok & key & iv & t_loop & rl & t1' & t2' & t_end
        & Hl & Hloop & -> & Hcases).
  destruct (cdn_loop_overflow P ms s tok key iv fc lc pc cs _ _ _ Hl
              _ _ _ _ _ _ _ Hloop (to_bytes_4_big_overflow o Ho))
    as (-> & ->).
  destruct Hcases as [([=] & _)|(_ & t_fin & -> & Hend)].
  simpl in Hend. destruct Hend as (-> & ->). auto.
Qed.

Lemma yield_file_cdn_offset_overflow_witness :
  fst (yield_file demo_primitives cdn_redirecting 3 demo_file (2 ^ 36) 0 4 1
         4 idle)
  = Raise OverflowError.
Proof.
  destruct (yield_file_cdn_offset_overflow demo_primitives cdn_redirecting 3
              demo_file (2 ^ 36) 0 4 1 4 idle _ _ (surjective_pairing _))
    as (t & Ht & Hall).
  simpl in Ht. subst t.
  refine (proj2 (Hall
    (firstn 7
       (trace (snd (yield_file demo_primitives cdn_redirecting 3 demo_file
                      (2 ^ 36) 0 4 1 4 idle))))
    (mkSession 1 0 5 [x09] false true true) [x07] (2 ^ 36) 4
    (file_content (2 ^ 36))
    (skipn 8
       (trace (snd (yield_file demo_primitives cdn_redirecting 3 demo_file
                      (2 ^ 36) 0 4 1 4 idle))))
    _ _)).
  - vm_compute. reflexivity.
  - right. lia.
Defined.

(** ** Every run of [yield_file] *)

Lemma file_loop_body_iter (U : Upstream) (ms : Session) (loc : Location)
  (fc lc pc cs : Z) (s : upload_File * Z * Z) (st : state)
  (r : result (control (upload_File * Z * Z))) (st' : state) :
  file_loop_body U ms loc fc lc pc cs s st = (r, st') ->
  exists t,
    trace st' = trace st ++ t /\ file_iter ms loc fc lc pc cs s t r.
Proof.
  destruct s as [[[b|dc tok key iv] cp] off].
  2:{ unfold file_loop_body, bind, getattr_bytes, raise. simpl.
      intros [= <- <-]. exists []. rewrite app_nil_r.
      split; [reflexivity|constructor]. }
  unfold file_loop_body, bind at 1, getattr_bytes, ret at 1.
  cbv beta iota.
  destruct b as [|x b].
  { simpl. intros [= <- <-]. exists []. rewrite app_nil_r.
    split; [reflexivity|constructor]. }
  change (is_empty (x :: b)) with false. cbv iota.
  unfold bind at 1. rewrite yield_part_slice.
  destruct (yield_ (part_slice fc lc pc cp (x :: b)) st) as [ry s1] eqn:Ey.
  apply yield_run in Ey as [(-> & Ht1)|(-> & [Ht1|Ht1])].
  - destruct (cp + 1 >? pc) eqn:E.
    + unfold ret. intros [= <- <-]. eexists. split; [exact Ht1|].
      apply file_iter_last; [discriminate|]. apply Z.gtb_lt in E. lia.
    + assert (Hle : cp + 1 <= pc).
      { destruct (Z.gtb_spec (cp + 1) pc); [discriminate|lia]. }
      unfold bind, invoke_GetFile, upstream_call, ret.
      destruct (up_get_file U (trace s1) ms loc (off + cs) cs)
        as [f|e|] eqn:Eg; intros [= <- <-]; simpl; rewrite Ht1,
        <- app_assoc; simpl; eexists; (split; [reflexivity|]).
      * apply file_iter_next; [discriminate|exact Hle].
      * apply (file_iter_fetch_failed ms loc fc lc pc cs _ cp off (Raise e));
          [discriminate|exact Hle|exact I].
      * apply (file_iter_fetch_failed ms loc fc lc pc cs _ cp off Diverge);
          [discriminate|exact Hle|exact I].
  - intros [= <- <-]. eexists. split; [exact Ht1|].
    apply file_iter_closed. discriminate.
  - intros [= <- <-]. eexists. split; [exact Ht1|].
    apply file_iter_yield_closed. discriminate.
Qed.

Lemma stream_body_shape (P : Primitives) (U : Upstream) (fuel : nat)
  (ci : Z) (ms : Session) (file_id : FileId) (loc : Location)
  (offset fc lc pc cs : Z) (st : state) (rb : result unit) (st' : state) :
  stream_body P U fuel ci ms file_id loc offset fc lc pc cs 1 st = (rb, st') ->
  exists rg t,
    trace st' = trace st ++ EvGetFile ms loc offset cs rg :: t
    /\ body_shape P fc lc pc cs offset ms loc rg t rb.
Proof.
  unfold stream_body, bind at 1, invoke_GetFile, upstream_call.
  destruct (up_get_file U (trace st) ms loc offset cs)
    as [[b|dc tok key iv]|e|] eqn:Eg.
  - intros H.
    apply (while_true_run _ (file_iter ms loc fc lc pc cs)
             (file_loop_body_iter U ms loc fc lc pc cs)) in H
      as (t & Ht & Hl).
    simpl in Ht. eexists _, t. rewrite Ht, <- app_assoc.
    split; [reflexivity|exact Hl].
  - intros H. apply cdn_branch_run in H as (t & Ht & Hcases).
    simpl in Ht. eexists _, t. rewrite Ht, <- app_assoc.
    split; [reflexivity|exact Hcases].
  - intros [= <- <-]. eexists _, []. split; [reflexivity|]. split; reflexivity.
  - intros [= <- <-]. eexists _, []. split; [reflexivity|]. split; reflexivity.
Qed.

Lemma yield_file_shape (P : Primitives) (U : Upstream) (fuel : nat)
  (file_id : FileId) (offset fc lc pc cs : Z) (st : state)
  (r : result unit) (st' : state) :
  yield_file P U fuel file_id offset fc lc pc cs st = (r, st') ->
  exists t,
    trace st' = trace st ++ t
    /\ stream_shape P file_id offset fc lc pc cs t r.
Proof.
  intros H.
  assert (Hquiet : st' = st ->
            exists t, trace st' = trace st ++ t
                      /\ stream_shape P file_id offset fc lc pc cs t r).
  { intros ->. exists []. rewrite app_nil_r. split; [reflexivity|].
    left. constructor. }
  destruct (decide (demand st = Some O)) as [Hd|Hd].
  { unfold yield_file in H. rewrite Hd in H. injection H as <- <-. auto. }
  destruct (multi_clients st !! index file_id) as [c|] eqn:Hc.
  2:{ rewrite yield_file_no_key in H by auto.
      injection H as <- <-. auto. }
  destruct (dict_get (work_loads st) (index file_id)) as [n|] eqn:Hn.
  2:{ rewrite yield_file_no_key in H by auto.
      injection H as <- <-. auto. }
  clear Hquiet.
  rewrite (yield_file_run P U fuel file_id offset fc lc pc cs st c n Hd Hc Hn)
    in H.
  destruct (generate_media_session U (index file_id) file_id _)
    as [rg st1] eqn:Hg.
  destruct (generate_media_session_events _ _ _ _ _ _ Hg) as (ts & Hts & Hks).
  simpl in Hts.
  destruct rg as [ms|e|];
    [|injection H as <- <-; exists ts; split; [exact Hts|now left]..].
  destruct (stream_body P U fuel (index file_id) ms file_id
              (get_location P file_id) offset fc lc pc cs 1 st1)
    as [rb st2] eqn:Hb.
  apply stream_body_shape in Hb as (rf & tb & Htb & Hshape).
  destruct (stream_finish_end (index file_id) ms file_id (work_loads st) rb st2)
    as (t_fin & Htf & Hend).
  rewrite H in Htf, Hend. simpl in Htf, Hend.
  exists (ts ++ EvGetFile ms (get_location P file_id) offset cs rf
                :: tb ++ t_fin).
  split.
  - rewrite Htf, Htb, Hts, <- !app_assoc. reflexivity.
  - right. exists ms, ts, rf, tb, rb, t_fin. auto.
Qed.

Lemma setup_event_session (t : list event) :
  Forall setup_event t -> Forall session_event t.
Proof.
  intros H. eapply Forall_impl; [exact H|].
  intros [] He; simpl in *; auto.
Qed.

Lemma yielded_session (t : list event) :
  Forall session_event t -> yielded t = [].
Proof.
  induction 1 as [|e t He _ IH]; [reflexivity|].
  destruct e; simpl in *; try contradiction; exact IH.
Qed.

Lemma stream_end_quiet (ms : Session) (rb : result unit)
  (t_fin : list event) (r : result unit) :
  stream_end ms rb t_fin r -> t_fin = [] \/ t_fin = [EvSessionStop ms].
Proof.
  unfold stream_end. destruct rb as [[]|e|]; try (intros (-> & _); now left).
  destruct e; simpl; intros (-> & _); auto.
Qed.

Lemma file_loop_yields (ms : Session) (loc : Location) (fc lc pc cs : Z)
  (s : upload_File * Z * Z) (t : list event) (r : result unit) :
  loop_run (file_iter ms loc fc lc pc cs) s t r ->
  (length (yielded t) <= Z.to_nat (Z.max 1 (pc - snd (fst s) + 1)))%nat.
Proof.
  assert (Hiter : forall s t rc,
             file_iter ms loc fc lc pc cs s t rc ->
             (length (yielded t) <= 1)%nat
             /\ forall s', rc = Return (Continue s') ->
                  snd (fst s) + 1 <= pc
                  /\ snd (fst s') = snd (fst s) + 1).
  { intros s0 t0 rc H. destruct H; simpl; (split; [lia|]);
      try discriminate.
    - destruct rg; simpl in *; try contradiction; discriminate.
    - intros s' [= <-]. simpl. lia. }
  induction 1 as [s|s t H|s t e H|s t H|s t s' t' r H Hl IH];
    try (destruct (Hiter _ _ _ H) as (Hone & _); lia).
  - simpl. lia.
  - destruct (Hiter _ _ _ H) as (Hone & Hnext).
    rewrite yielded_app, length_app.
    destruct (Hnext s' eq_refl) as (Hle & Hs).
    rewrite Hs in IH. lia.
Qed.

Lemma cdn_loop_yields (P : Primitives) (ms cdn : Session)
  (tok key iv : bytes) (fc lc pc cs : Z) (s : Z * Z) (t : list event)
  (r : result unit) :
  loop_run (cdn_iter P ms cdn tok key iv fc lc pc cs) s t r ->
  (length (yielded t) <= Z.to_nat (Z.max 1 (pc - fst s + 1)))%nat.
Proof.
  assert (Hiter : forall s t rc,
             cdn_iter P ms cdn tok key iv fc lc pc cs s t rc ->
             (length (yielded t) <= 1)%nat
             /\ forall s', rc = Return (Continue s') ->
                  (yielded t = [] /\ fst s' = fst s)
                  \/ (fst s + 1 <= pc /\ fst s' = fst s + 1)).
  { intros s0 t0 rc H. destruct H.
    - split; [simpl; lia|].
      destruct rg; simpl in *; try contradiction; discriminate.
    - split; [simpl; lia|]. intros s' [= <-]. now left.
    - split; [simpl; lia|]. discriminate.
    - split; [simpl; lia|].
      destruct rr as [[]|e|]; simpl in *; try contradiction; discriminate.
    - split; [simpl; lia|]. discriminate.
    - split; [simpl; lia|].
      destruct rh; simpl in *; try contradiction; discriminate.
    - destruct H0; (split; [simpl; lia|]); try discriminate.
      intros s' [= <-]. right. simpl. lia. }
  induction 1 as [s|s t H|s t e H|s t H|s t s' t' r H Hl IH];
    try (destruct (Hiter _ _ _ H) as (Hone & _); lia).
  - simpl. lia.
  - destruct (Hiter _ _ _ H) as (Hone & Hnext).
    rewrite yielded_app, length_app.
    destruct (Hnext s' eq_refl) as [(Hy & Hs)|(Hle & Hs)].
    + rewrite Hy, Hs in *. simpl. exact IH.
    + rewrite Hs in IH. lia.
Qed.

(** X18.  In every run of [yield_file], whatever the upstream answers
    and whenever the consumer stops, at most [part_count] chunks are
    yielded, or one when [part_count] is below 1. *)
Theorem yield_file_yields_bounded (P : Primitives) (U : Upstream)
  (fuel : nat) (file_id : FileId) (offset fc lc pc cs : Z) (st : state)
  (r : result unit) (st' : state) :
  yield_file P U fuel file_id offset fc lc pc cs st = (r, st') ->
  exists t,
    trace st' = trace st ++ t
    /\ (length (yielded t) <= Z.to_nat (Z.max 1 pc))%nat.
Proof.
  intros H. apply yield_file_shape in H as (t & Ht & Hshape).
  exists t. split; [exact Ht|].
  destruct Hshape as [Hs|(ms & ts & rg & tb & rb & t_fin & -> & Hs & Hb & He)].
  { rewrite (yielded_session _ Hs). simpl. lia. }
  rewrite yielded_app, (yielded_session _ Hs). simpl.
  rewrite yielded_app.
  assert (Hfin : yielded t_fin = []).
  { destruct (stream_end_quiet _ _ _ _ He) as [-> | ->]; reflexivity. }
  rewrite Hfin, app_nil_r.
  unfold body_shape in Hb.
  destruct rg as [[b|dc tok key iv]|e|].
  - apply file_loop_yields in Hb. simpl in Hb.
    replace (pc - 1 + 1) with pc in Hb by lia. exact Hb.
  - destruct Hb as [Hk|(t0 & cdn & t_loop & rl & t_end & -> & Hk & Hl & Hend)].
    + rewrite (yielded_session _ (setup_event_session _ Hk)). simpl. lia.
    + rewrite !yielded_app,
        (yielded_session _ (setup_event_session _ Hk)).
      assert (Hy : yielded t_end = []).
      { destruct Hend as [(_ & -> & _)|(_ & -> & _)]; reflexivity. }
      rewrite Hy, app_nil_r. simpl.
      apply cdn_loop_yields in Hl. simpl in Hl.
      replace (pc - 1 + 1) with pc in Hl by lia. exact Hl.
  - destruct Hb as (-> & _). simpl. lia.
  - destruct Hb as (-> & _). simpl. lia.
Qed.

Lemma yield_file_yields_bounded_witness :
  exists t,
    trace (snd (yield_file demo_primitives serving 3 demo_file 0 0 4 0 4
                  idle))
    = trace idle ++ t
    /\ (length (yielded t) <= Z.to_nat (Z.max 1 0))%nat.
Proof.
  exact (yield_file_yields_bounded demo_primitives serving 3 demo_file 0 0 4
           0 4 idle _ _ (surjective_pairing _)).
Defined.

Lemma file_requests_app (t1 t2 : list event) :
  file_requests (t1 ++ t2) = file_requests t1 ++ file_requests t2.
Proof. induction t1 as [|[] t1 IH]; simpl; congruence. Qed.

Lemma file_requests_none (t : list event) :
  Forall (fun e => ~ file_fetch e) t -> file_requests t = [].
Proof.
  induction 1 as [|e t He _ IH]; [reflexivity|].
  destruct e; simpl in *; try exact IH. now destruct He.
Qed.

(** The fetches of the loop over a direct download, from the loop
    variables [(r, current_part, offset)]. *)
Lemma file_loop_requests (ms : Session) (loc : Location) (fc lc pc cs : Z)
  (s : upload_File * Z * Z) (t : list event) (r : result unit) :
  loop_run (file_iter ms loc fc lc pc cs) s t r ->
  exists m : nat,
    file_requests t
    = map (fun k => (ms, loc, snd s + (Z.of_nat k + 1) * cs, cs)) (seq 0 m)
    /\ (m <= Z.to_nat (pc - snd (fst s)))%nat.
Proof.
  assert (Hiter : forall s t rc,
             file_iter ms loc fc lc pc cs s t rc ->
             (file_requests t = [] /\ forall s', rc <> Return (Continue s'))
             \/ (file_requests t = [(ms, loc, snd s + cs, cs)]
                 /\ snd (fst s) + 1 <= pc
                 /\ forall s', rc = Return (Continue s') ->
                      snd (fst s') = snd (fst s) + 1
                      /\ snd s' = snd s + cs)).
  { intros s0 t0 rc H. destruct H; simpl;
      try (left; split; [reflexivity|discriminate]).
    - right. split; [reflexivity|]. split; [lia|].
      destruct rg; simpl in *; try contradiction; discriminate.
    - right. split; [reflexivity|]. split; [lia|].
      intros s' [= <-]. simpl. lia. }
  assert (Hone : forall s t rc,
             file_iter ms loc fc lc pc cs s t rc ->
             exists m : nat,
               file_requests t
               = map (fun k => (ms, loc, snd s + (Z.of_nat k + 1) * cs, cs))
                   (seq 0 m)
               /\ (m <= Z.to_nat (pc - snd (fst s)))%nat).
  { intros s0 t0 rc H.
    destruct (Hiter _ _ _ H) as [(-> & _)|(-> & Hle & _)].
    - exists O. split; [reflexivity|lia].
    - exists 1%nat. simpl. split; [|lia].
      do 3 f_equal. lia. }
  induction 1 as [s|s t H|s t e H|s t H|s t s' t' r H Hl IH];
    try (eapply Hone; eassumption).
  - exists O. split; [reflexivity|simpl; lia].
  - destruct IH as (m & Hm & Hb).
    destruct (Hiter _ _ _ H) as [(_ & Hno)|(Hreq & Hle & Hnext)].
    { exfalso. eapply Hno. reflexivity. }
    destruct (Hnext s' eq_refl) as (Hcp & Hoff).
    exists (S m). rewrite file_requests_app, Hreq, Hm. split.
    + rewrite <- cons_seq, <- seq_shift. simpl. rewrite map_map.
      f_equal; [do 2 f_equal; lia|].
      apply map_ext. intros k. rewrite Hoff. do 2 f_equal. lia.
    + rewrite Hcp in Hb. lia.
Qed.

(** X19.  In every run of [yield_file] the [GetFile] requests all go
    through one session, for the location that [get_location] gives for
    the descriptor, with [chunk_size] as their limit; the first asks for
    [offset], each next one for [chunk_size] more; and there are at most
    [part_count] of them, or one when [part_count] is below 1. *)
Theorem yield_file_fetch_requests (P : Primitives) (U : Upstream)
  (fuel : nat) (file_id : FileId) (offset fc lc pc cs : Z) (st : state)
  (r : result unit) (st' : state) :
  yield_file P U fuel file_id offset fc lc pc cs st = (r, st') ->
  exists t ms (n : nat),
    trace st' = trace st ++ t
    /\ file_requests t
       = map (fun k =>
                (ms, get_location P file_id, offset + Z.of_nat k * cs, cs))
           (seq 0 n)
    /\ (n <= Z.to_nat (Z.max 1 pc))%nat.
Proof.
  intros H. apply yield_file_shape in H as (t & Ht & Hshape).
  exists t.
  destruct Hshape as [Hs|(ms & ts & rg & tb & rb & t_fin & -> & Hs & Hb & He)].
  { exists (mkSession O 0 0 [] false false false), O.
    split; [exact Ht|]. split; [|lia].
    apply file_requests_none. apply session_no_fetch. exact Hs. }
  exists ms.
  assert (Hfin : file_requests t_fin = []).
  { destruct (stream_end_quiet _ _ _ _ He) as [-> | ->]; reflexivity. }
  assert (Hpre : file_requests ts = []).
  { apply file_requests_none. apply session_no_fetch. exact Hs. }
  assert (Hone : file_requests tb = [] ->
            exists n : nat,
              trace st' = trace st ++
                ts ++ EvGetFile ms (get_location P file_id) offset cs rg
                      :: tb ++ t_fin
              /\ file_requests
                   (ts ++ EvGetFile ms (get_location P file_id) offset cs rg
                          :: tb ++ t_fin)
                 = map (fun k =>
                          (ms, get_location P file_id,
                           offset + Z.of_nat k * cs, cs)) (seq 0 n)
              /\ (n <= Z.to_nat (Z.max 1 pc))%nat).
  { intros Hb0. exists 1%nat. split; [exact Ht|].
    rewrite file_requests_app, Hpre. simpl.
    rewrite file_requests_app, Hb0, Hfin. simpl.
    split; [do 3 f_equal; lia|lia]. }
  unfold body_shape in Hb.
  destruct rg as [[b|dc tok key iv]|e|].
  - apply file_loop_requests in Hb as (m & Hm & Hle). simpl in Hm, Hle.
    exists (S m). split; [exact Ht|].
    rewrite file_requests_app, Hpre. simpl.
    rewrite file_requests_app, Hm, Hfin, app_nil_r. split; [|lia].
    simpl. rewrite <- seq_shift, map_map.
    f_equal; [do 2 f_equal; lia|].
    apply map_ext. intros k. do 2 f_equal. lia.
  - apply Hone.
    destruct Hb as [Hk|(t0 & cdn & t_loop & rl & t_end & -> & Hk & Hl & Hend)].
    + apply file_requests_none. apply setup_no_fetch. exact Hk.
    + rewrite !file_requests_app.
      rewrite (file_requests_none t0) by (apply setup_no_fetch; exact Hk).
      rewrite (file_requests_none t_loop)
        by (eapply cdn_loop_no_file_fetch; exact Hl).
      destruct Hend as [(_ & -> & _)|(_ & -> & _)]; reflexivity.
  - apply Hone. destruct Hb as (-> & _). reflexivity.
  - apply Hone. destruct Hb as (-> & _). reflexivity.
Qed.

Lemma yield_file_fetch_requests_witness :
  exists t ms (n : nat),
    trace (snd (yield_file demo_primitives serving 3 demo_file 0 0 4 3 4
                  idle))
    = trace idle ++ t
    /\ file_requests t
       = map (fun k =>
                (ms, get_location demo_primitives demo_file,
                 0 + Z.of_nat k * 4, 4))
           (seq 0 n)
    /\ (n <= Z.to_nat (Z.max 1 3))%nat.
Proof.
  exact (yield_file_fetch_requests demo_primitives serving 3 demo_file 0 0 4
           3 4 idle _ _ (surjective_pairing _)).
Defined.

Lemma file_iter_no_redirect_fetch (ms : Session) (loc : Location)
  (fc lc pc cs : Z) (s : upload_File * Z * Z) (t : list event)
  (rc : result (control (upload_File * Z * Z))) :
  file_iter ms loc fc lc pc cs s t rc ->
  forall t1 ms' loc' o l dc tok key iv t2,
    t = t1 ++ EvGetFile ms' loc' o l (Return (FileCdnRedirect dc tok key iv))
              :: t2 ->
    t2 = []
    /\ rc = Return (Continue (FileCdnRedirect dc tok key iv,
                              snd (fst s) + 1, snd s + cs)).
Proof.
  intros H t1 ms' loc' o l dc tok key iv t2 Ht.
  destruct H; simpl in *;
    repeat (destruct t1 as [|? t1]; simpl in Ht; try discriminate).
  - inversion Ht; subst. simpl in *. contradiction.
  - inversion Ht; subst. auto.
Qed.

(** A fetch of the loop that is answered by a redirect is the last event
    of the loop: the next iteration reads [r.bytes] off the redirect. *)
Lemma file_loop_redirect (ms : Session) (loc : Location) (fc lc pc cs : Z)
  (s : upload_File * Z * Z) (t : list event) (r : result unit) :
  loop_run (file_iter ms loc fc lc pc cs) s t r ->
  forall t1 ms' loc' o l dc tok key iv t2,
    t = t1 ++ EvGetFile ms' loc' o l (Return (FileCdnRedirect dc tok key iv))
              :: t2 ->
    t2 = [] /\ (r = Raise AttributeError \/ r = Diverge).
Proof.
  induction 1 as [s|s t H|s t e H|s t H|s t s' t' r H Hl IH];
    intros t1 ms' loc' o l dc tok key iv t2 Ht.
  - destruct t1; discriminate.
  - destruct (file_iter_no_redirect_fetch _ _ _ _ _ _ _ _ _ H
                _ _ _ _ _ _ _ _ _ _ Ht) as (_ & [=]).
  - destruct (file_iter_no_redirect_fetch _ _ _ _ _ _ _ _ _ H
                _ _ _ _ _ _ _ _ _ _ Ht) as (_ & [=]).
  - destruct (file_iter_no_redirect_fetch _ _ _ _ _ _ _ _ _ H
                _ _ _ _ _ _ _ _ _ _ Ht) as (_ & [=]).
  - inversion H; subst;
      [destruct rg; simpl in *; try contradiction; discriminate|].
    simpl in Ht.
    destruct t1 as [|y1 [|y2 t1]]; simpl in Ht; inversion Ht; subst.
    + inversion Hl; subst;
        try match goal with
            | Hi : file_iter _ _ _ _ _ _ (FileCdnRedirect _ _ _ _, _, _) _ _
              |- _ => inversion Hi; subst
            end; auto.
    + eapply IH. reflexivity.
Qed.

(** X20.  A redirect to a CDN is followed only when it answers the first
    fetch.  In every run of [yield_file], a later fetch that is answered
    by a redirect is the last event of the run: the loop reads [r.bytes]
    off the redirect, the [AttributeError] is swallowed, and the
    generator ends as if the file were complete, with the parts yielded
    so far. *)
Theorem yield_file_late_redirect (P : Primitives) (U : Upstream)
  (fuel : nat) (file_id : FileId) (offset fc lc pc cs : Z) (st : state)
  (r : result unit) (st' : state) :
  yield_file P U fuel file_id offset fc lc pc cs st = (r, st') ->
  exists t,
    trace st' = trace st ++ t
    /\ forall t1 ms loc o l dc tok key iv t2,
         t = t1 ++ EvGetFile ms loc o l
                     (Return (FileCdnRedirect dc tok key iv)) :: t2 ->
         first_fetch t1 <> None ->
         t2 = [] /\ (r = Return tt \/ r = Diverge).
Proof.
  intros H. apply yield_file_shape in H as (t & Ht & Hshape).
  exists t. split; [exact Ht|].
  intros t1 ms' loc o l dc tok key iv t2 Hdec Hfirst.
  set (e := EvGetFile ms' loc o l (Return (FileCdnRedirect dc tok key iv)))
    in *.
  assert (Hnone : forall t0, Forall (fun e => ~ file_fetch e) t0 ->
            ~ In e t0).
  { intros t0 H0 Hin. rewrite List.Forall_forall in H0.
    apply (H0 e Hin). exact I. }
  destruct Hshape as [Hs|(ms & ts & rg & tb & rb & t_fin & -> & Hs & Hb & He)].
  { exfalso. apply (Hnone t); [apply session_no_fetch; exact Hs|].
    rewrite Hdec. apply in_or_app. right. now left. }
  destruct (app_eq_skip file_fetch ts _ t1 t2 e
              (proj2 (session_no_fetch _ Hs)) I Hdec) as (t1' & -> & Hdec').
  destruct t1' as [|e0 t1'].
  { exfalso. apply Hfirst. rewrite app_nil_r.
    rewrite <- (app_nil_r ts), first_fetch_session by exact Hs. reflexivity. }
  simpl in Hdec'. injection Hdec' as _ Hdec'.
  assert (Hfin : Forall (fun e => ~ file_fetch e) t_fin).
  { destruct (stream_end_quiet _ _ _ _ He) as [-> | ->];
      repeat constructor; auto. }
  destruct (app_eq_skip_r file_fetch tb t_fin t1' t2 e Hfin I Hdec')
    as (t2' & Hbody & ->).
  unfold body_shape in Hb.
  destruct rg as [[b|dc0 tok0 key0 iv0]|e1|].
  - destruct (file_loop_redirect _ _ _ _ _ _ _ _ _ Hb
                _ _ _ _ _ _ _ _ _ _ Hbody) as (-> & [-> | ->]);
      simpl in He; destruct He as (-> & ->); auto.
  - exfalso.
    assert (Hq : Forall (fun e => ~ file_fetch e) tb).
    { destruct Hb as [Hk|(t0 & cdn & t_loop & rl & t_end & -> & Hk & Hl & Hend)].
      - apply setup_no_fetch. exact Hk.
      - apply Forall_app. split; [apply setup_no_fetch; exact Hk|].
        apply Forall_app. split; [eapply cdn_loop_no_file_fetch; exact Hl|].
        destruct Hend as [(_ & -> & _)|(_ & -> & _)];
          repeat constructor; auto. }
    apply (Hnone tb Hq). rewrite Hbody. apply in_or_app. right. now left.
  - destruct Hb as (-> & _). destruct t1'; discriminate.
  - destruct Hb as (-> & _). destruct t1'; discriminate.
Qed.

Lemma yield_file_late_redirect_witness :
  skipn 7
    (trace (snd (yield_file demo_primitives redirecting_late 3 demo_file 0 0
                   4 3 4 idle)))
  = []
  /\ (fst (yield_file demo_primitives redirecting_late 3 demo_file 0 0 4 3 4
             idle) = Return tt
      \/ fst (yield_file demo_primitives redirecting_late 3 demo_file 0 0 4 3
                4 idle) = Diverge).
Proof.
  destruct (yield_file_late_redirect demo_primitives redirecting_late 3
              demo_file 0 0 4 3 4 idle _ _ (surjective_pairing _))
    as (t & Ht & Hall).
  simpl in Ht. subst t.
  refine (Hall
    (firstn 6
       (trace (snd (yield_file demo_primitives redirecting_late 3 demo_file
                      0 0 4 3 4 idle))))
    (mkSession 0 0 4 [x09] false true false)
    (get_location demo_primitives demo_file) 4 4 5 [x07] [x08]
    [x00; x00; x00; x00; x00; x00; x00; x00]
    (skipn 7
       (trace (snd (yield_file demo_primitives redirecting_late 3 demo_file
                      0 0 4 3 4 idle))))
    _ _).
  - vm_compute. reflexivity.
  - vm_compute. discriminate.
Defined.

(** ** What a resolution leaves alone *)

(** X21.  A resolution works on one entry of the cache: whatever its
    outcome, the descriptors cached under other ids, [work_loads], the
    clients and their sessions, [cdn_count] and the consumer are as they
    were; it sends at most one call, the lookup of its own id; and a
    descriptor it returns is the one the cache holds for the id
    afterwards. *)
Theorem get_file_properties_frame (U : Upstream) (db_id : string)
  (st : state) (r : result FileId) (st' : state) :
  get_file_properties U db_id st = (r, st') ->
  work_loads st' = work_loads st
  /\ multi_clients st' = multi_clients st
  /\ started st' = started st
  /\ cdn_count st' = cdn_count st
  /\ demand st' = demand st
  /\ (forall db', db' <> db_id ->
        cached_file_ids st' !! db' = cached_file_ids st !! db')
  /\ (trace st' = trace st
      \/ exists i a, trace st' = trace st ++ [EvGetFileIds i db_id a])
  /\ (forall f, r = Return f -> cached_file_ids st' !! db_id = Some f).
Proof.
  intros H.
  assert (Hret : forall f, r = Return f ->
            cached_file_ids st' !! db_id = Some f).
  { intros f ->. eapply get_file_properties_returns_cached. exact H. }
  revert H.
  unfold get_file_properties, generate_file_properties, bind, gets,
    client_attr, upstream_call, modify, cache_lookup, ret.
  destruct (cached_file_ids st !! db_id) as [f0|] eqn:Hhit; simpl.
  { rewrite Hhit. intros [= <- <-]. repeat split; auto. }
  destruct (least_loaded (work_loads st)) as [i|e|]; simpl;
    try (intros [= <- <-]; repeat split; auto).
  destruct (multi_clients st !! i); simpl;
    [|intros [= <- <-]; repeat split; auto].
  destruct (up_get_file_ids U (trace st) i db_id) as [f|e|] eqn:Ea; simpl;
    try (intros [= <- <-]; repeat split; simpl; eauto).
  repeat (rewrite lookup_insert_eq; simpl).
  intros [= <- <-]. repeat split; simpl; eauto.
  intros db' Hne. now apply lookup_insert_ne.
Qed.

Lemma get_file_properties_frame_witness :
  work_loads (snd (get_file_properties serving "f1" idle)) = work_loads idle
  /\ multi_clients (snd (get_file_properties serving "f1" idle))
     = multi_clients idle.
Proof.
  destruct (get_file_properties_frame serving "f1" idle _ _
              (surjective_pairing _)) as (Hw & Hm & _).
  split; [exact Hw|exact Hm].
Defined.

(** ** The location of a file *)

(** X22.  [get_location] by cases.  A descriptor that is neither a chat
    photo nor a photo, whatever its type, is located as a document, and
    a photo as a photo, by media id, access hash, file reference and
    thumbnail size.  A chat photo is located through a peer: a user for
    a positive chat id; for a chat id that is zero or negative, a basic
    chat with the negated id when the chat access hash is 0, and a
    channel otherwise; [big] is set for the source [CHAT_PHOTO_BIG] only.
    The data center and the client index of the descriptor play no
    part. *)
Theorem get_location_cases (P : Primitives) (f : FileId) :
  (file_type f <> CHAT_PHOTO -> file_type f <> PHOTO ->
   get_location P f
   = InputDocumentFileLocation (media_id f) (access_hash f)
       (file_reference f) (thumbnail_size f))
  /\ (file_type f = PHOTO ->
      get_location P f
      = InputPhotoFileLocation (media_id f) (access_hash f)
          (file_reference f) (thumbnail_size f))
  /\ (file_type f = CHAT_PHOTO ->
      exists peer,
        get_location P f
        = InputPeerPhotoFileLocation peer (media_id f)
            (bool_decide (thumbnail_source f = CHAT_PHOTO_BIG))
        /\ (0 < chat_id f ->
            peer = InputPeerUser (chat_id f) (chat_access_hash f))
        /\ (chat_id f <= 0 -> chat_access_hash f = 0 ->
            peer = InputPeerChat (- chat_id f) /\ 0 <= - chat_id f)
        /\ (chat_id f <= 0 -> chat_access_hash f <> 0 ->
            peer = InputPeerChannel (get_channel_id P (chat_id f))
                     (chat_access_hash f)))
  /\ (forall dc idx,
        get_location P
          (mkFileId (file_type f) dc (media_id f) (access_hash f)
             (file_reference f) (thumbnail_size f) (thumbnail_source f)
             (chat_id f) (chat_access_hash f) idx)
        = get_location P f).
Proof.
  unfold get_location. repeat split.
  - intros H1 H2. destruct (file_type f); congruence.
  - intros ->. reflexivity.
  - intros ->. eexists. split; [reflexivity|]. repeat split.
    + intros H. destruct (Z.gtb_spec (chat_id f) 0); [reflexivity|lia].
    + destruct (Z.gtb_spec (chat_id f) 0); [lia|].
      rewrite H0. reflexivity.
    + lia.
    + intros H H0. destruct (Z.gtb_spec (chat_id f) 0); [lia|].
      destruct (Z.eqb_spec (chat_access_hash f) 0); [contradiction|].
      reflexivity.
Qed.

(** ** The offsets of the CDN fetches *)

Section CdnLoopOffsets.

Context (P : Primitives) (ms cdn : Session) (tok key iv : bytes)
  (fc lc pc cs : Z).

Lemma cdn_iter_advance (s : Z * Z) (t : list event)
  (rc : result (control (Z * Z))) :
  cdn_iter P ms cdn tok key iv fc lc pc cs s t rc ->
  forall s', rc = Return (Continue s') ->
    snd s' = snd s + Z.of_nat (length (yielded t)) * cs.
Proof.
  intros H. destruct H; try discriminate.
  - destruct rg; simpl in *; try contradiction; discriminate.
  - intros s' [= <-]. simpl. lia.
  - destruct rr as [[]|e|]; simpl in *; try contradiction; discriminate.
  - destruct rh; simpl in *; try contradiction; discriminate.
  - destruct H0; try discriminate. intros s' [= <-]. simpl. lia.
Qed.

(** Where a fetch event sits in the trace of an iteration followed by
    [t_rest], with what comes before it. *)
Lemma cdn_iter_locate_prefix (s : Z * Z) (t : list event)
  (rc : result (control (Z * Z))) (t_rest t1 t2 : list event) (s' : Session)
  (tk : bytes) (o l : Z) (rg : result upload_CdnFile) :
  cdn_iter P ms cdn tok key iv fc lc pc cs s t rc ->
  t ++ t_rest = t1 ++ EvGetCdnFile s' tk o l rg :: t2 ->
  (t1 = [] /\ s' = cdn /\ tk = tok /\ o = snd s /\ l = cs)
  \/ (exists t1', t1 = t ++ t1'
                  /\ t_rest = t1' ++ EvGetCdnFile s' tk o l rg :: t2).
Proof.
  intros H Ht.
  destruct (cdn_iter_head P ms cdn tok key iv fc lc pc cs _ _ _ H)
    as (rg0 & t0 & Hhead & Hno).
  rewrite Hhead in Ht |- *. destruct t1 as [|x t1]; simpl in Ht.
  - inversion Ht; subst. left. auto.
  - injection Ht as <- Ht. right.
    destruct (app_eq_skip cdn_fetch t0 t_rest t1 t2
                (EvGetCdnFile s' tk o l rg) Hno I Ht) as (t1' & -> & ->).
    exists t1'. auto.
Qed.

Lemma cdn_loop_offsets (s : Z * Z) (t : list event) (r : result unit) :
  loop_run (cdn_iter P ms cdn tok key iv fc lc pc cs) s t r ->
  forall t1 s' tk o l rg t2,
    t = t1 ++ EvGetCdnFile s' tk o l rg :: t2 ->
    s' = cdn /\ tk = tok /\ l = cs
    /\ o = snd s + Z.of_nat (length (yielded t1)) * cs.
Proof.
  induction 1 as [s|s t H|s t e H|s t H|s t s' t' r H Hl IH];
    intros t1 s0 tk o l rg t2 Ht.
  - destruct t1; discriminate.
  - rewrite <- (app_nil_r t) in Ht.
    destruct (cdn_iter_locate_prefix _ _ _ _ _ _ _ _ _ _ _ H Ht)
      as [(-> & -> & -> & -> & ->)|(t1' & _ & Hnil)];
      [simpl; repeat split; lia|destruct t1'; discriminate].
  - rewrite <- (app_nil_r t) in Ht.
    destruct (cdn_iter_locate_prefix _ _ _ _ _ _ _ _ _ _ _ H Ht)
      as [(-> & -> & -> & -> & ->)|(t1' & _ & Hnil)];
      [simpl; repeat split; lia|destruct t1'; discriminate].
  - rewrite <- (app_nil_r t) in Ht.
    destruct (cdn_iter_locate_prefix _ _ _ _ _ _ _ _ _ _ _ H Ht)
      as [(-> & -> & -> & -> & ->)|(t1' & _ & Hnil)];
      [simpl; repeat split; lia|destruct t1'; discriminate].
  - destruct (cdn_iter_locate_prefix _ _ _ _ _ _ _ _ _ _ _ H Ht)
      as [(-> & -> & -> & -> & ->)|(t1' & -> & Hrest)];
      [simpl; repeat split; lia|].
    destruct (IH _ _ _ _ _ _ _ Hrest) as (-> & -> & -> & ->).
    repeat split.
    rewrite (cdn_iter_advance _ _ _ H s' eq_refl).
    rewrite yielded_app, length_app. lia.
Qed.

End CdnLoopOffsets.

Lemma file_loop_no_cdn_fetch (ms : Session) (loc : Location)
  (fc lc pc cs : Z) (s : upload_File * Z * Z) (t : list event)
  (r : result unit) :
  loop_run (file_iter ms loc fc lc pc cs) s t r ->
  Forall (fun e => ~ cdn_fetch e) t.
Proof.
  assert (Hiter : forall s t rc,
             file_iter ms loc fc lc pc cs s t rc ->
             Forall (fun e => ~ cdn_fetch e) t).
  { intros s0 t0 rc H. destruct H; repeat constructor; auto. }
  induction 1; try (eapply Hiter; eassumption); [constructor|].
  apply Forall_app. split; [eapply Hiter; eassumption|assumption].
Qed.

(** X23.  In every run of [yield_file] each fetch from the CDN asks for
    [chunk_size] bytes at [offset] plus [chunk_size] times the number of
    chunks yielded before it: the offset advances with each chunk that
    is yielded and with nothing else, so that no part of the file is
    skipped, and a fetch is repeated at the same offset only where
    nothing was yielded in between. *)
Theorem yield_file_cdn_fetch_offsets (P : Primitives) (U : Upstream)
  (fuel : nat) (file_id : FileId) (offset fc lc pc cs : Z) (st : state)
  (r : result unit) (st' : state) :
  yield_file P U fuel file_id offset fc lc pc cs st = (r, st') ->
  exists t,
    trace st' = trace st ++ t
    /\ forall t1 s tk o l rg t2,
         t = t1 ++ EvGetCdnFile s tk o l rg :: t2 ->
         l = cs /\ o = offset + Z.of_nat (length (yielded t1)) * cs.
Proof.
  intros H. apply yield_file_shape in H as (t & Ht & Hshape).
  exists t. split; [exact Ht|].
  intros t1 s tk o l rg t2 Hdec.
  set (e := EvGetCdnFile s tk o l rg) in *.
  assert (Hnone : forall t0, Forall (fun e => ~ cdn_fetch e) t0 ->
            ~ In e t0).
  { intros t0 H0 Hin. rewrite List.Forall_forall in H0.
    apply (H0 e Hin). exact I. }
  assert (Hin : In e t).
  { rewrite Hdec. apply in_or_app. right. now left. }
  destruct Hshape as [Hs|(ms & ts & rg0 & tb & rb & t_fin & Heq & Hs & Hb & He)].
  { exfalso. apply (Hnone t); [apply session_no_fetch; exact Hs|exact Hin]. }
  assert (Hfin : Forall (fun e => ~ cdn_fetch e) t_fin).
  { eapply stream_end_no_fetch. exact He. }
  assert (Hquiet : Forall (fun e => ~ cdn_fetch e) tb -> False).
  { intros Hq. apply (Hnone t); [|exact Hin]. rewrite Heq.
    apply Forall_app. split; [apply session_no_fetch; exact Hs|].
    constructor; [auto|]. apply Forall_app. auto. }
  unfold body_shape in Hb.
  destruct rg0 as [[b|dc tok key iv]|e1|].
  - exfalso. apply Hquiet. eapply file_loop_no_cdn_fetch. exact Hb.
  - destruct Hb as [Hk|(t0 & cdn & t_loop & rl & t_end & -> & Hk & Hl & Hend)].
    { exfalso. apply Hquiet. apply setup_no_fetch. exact Hk. }
    assert (Hpre : Forall (fun e => ~ cdn_fetch e)
                     (ts ++ EvGetFile ms (get_location P file_id) offset cs
                              (Return (FileCdnRedirect dc tok key iv))
                           :: t0)).
    { apply Forall_app. split; [apply session_no_fetch; exact Hs|].
      constructor; [auto|]. apply setup_no_fetch. exact Hk. }
    assert (Hy : yielded
                   (ts ++ EvGetFile ms (get_location P file_id) offset cs
                            (Return (FileCdnRedirect dc tok key iv))
                         :: t0) = []).
    { rewrite yielded_app, (yielded_session _ Hs). simpl.
      apply yielded_session, setup_event_session. exact Hk. }
    assert (Heq' : t = (ts ++ EvGetFile ms (get_location P file_id) offset cs
                              (Return (FileCdnRedirect dc tok key iv))
                           :: t0)
                       ++ t_loop ++ t_end ++ t_fin).
    { rewrite Heq. rewrite <- ?app_assoc. simpl. rewrite <- ?app_assoc.
      reflexivity. }
    rewrite Heq' in Hdec.
    destruct (app_eq_skip cdn_fetch _ _ t1 t2 e Hpre I Hdec)
      as (t1' & -> & Hdec').
    assert (Hsuf : Forall (fun e => ~ cdn_fetch e) (t_end ++ t_fin)).
    { apply Forall_app. split; [|exact Hfin].
      destruct Hend as [(_ & -> & _)|(_ & -> & _)];
        repeat constructor; auto. }
    destruct (app_eq_skip_r cdn_fetch t_loop _ t1' t2 e Hsuf I Hdec')
      as (t2' & Hloop & _).
    destruct (cdn_loop_offsets P ms cdn tok key iv fc lc pc cs _ _ _ Hl
                _ _ _ _ _ _ _ Hloop) as (_ & _ & -> & ->).
    split; [reflexivity|]. rewrite yielded_app, Hy. reflexivity.
  - exfalso. apply Hquiet. destruct Hb as (-> & _). constructor.
  - exfalso. apply Hquiet. destruct Hb as (-> & _). constructor.
Qed.

Lemma yield_file_cdn_fetch_offsets_witness :
  exists t,
    trace (snd (yield_file demo_primitives cdn_reuploading 4 demo_file 0 0 4
                  2 4 idle))
    = trace idle ++ t
    /\ forall t1 s tk o l rg t2,
         t = t1 ++ EvGetCdnFile s tk o l rg :: t2 ->
         l = 4 /\ o = 0 + Z.of_nat (length (yielded t1)) * 4.
Proof.
  exact (yield_file_cdn_fetch_offsets demo_primitives cdn_reuploading 4
           demo_file 0 0 4 2 4 idle _ _ (surjective_pairing _)).
Defined.

(** * The upload handler

    ** Every run of the handler *)

Lemma store_and_reply_run (V : Config) (C : Collaborators) (m : Message)
  (h : list bot_event) (r : outcome unit) (h' : list bot_event) :
  store_and_reply V C m h = (r, h') ->
  exists t, h' = h ++ t /\ try_run V m t r.
Proof.
  unfold store_and_reply, bot_bind, call. cbv beta zeta.
  destruct (co_get_file_info C h m) as [info|e] eqn:E1.
  2:{ intros [= <- <-]. eexists. split; [reflexivity|]. constructor. }
  destruct (co_add_file C _ _) as [id|e] eqn:E2.
  2:{ intros [= <- <-]. rewrite <- ?app_assoc. simpl.
      eexists. split; [reflexivity|]. constructor. }
  destruct (co_get_file_ids C _ _ _) as [f|e] eqn:E3.
  2:{ intros [= <- <-]. rewrite <- ?app_assoc. simpl.
      eexists. split; [reflexivity|]. constructor. }
  destruct (co_gen_link C _ _ _ _) as [[markup text]|e] eqn:E4.
  2:{ intros [= <- <-]. rewrite <- ?app_assoc. simpl.
      eexists. split; [reflexivity|]. constructor. }
  intros [= <- <-]. rewrite <- ?app_assoc. simpl.
  eexists. split; [reflexivity|]. constructor.
Qed.

Lemma on_FloodWait_run (V : Config) (C : Collaborators) (m : Message)
  (value : Z) (h : list bot_event) (r : outcome unit)
  (h' : list bot_event) :
  on_FloodWait V C m value h = (r, h') ->
  exists t, h' = h ++ t /\ flood_run V m value t r.
Proof.
  unfold on_FloodWait, bot_bind, call. cbv beta zeta.
  destruct (co_sleep C _ _) as [[]|e] eqn:E1.
  2:{ intros [= <- <-]. rewrite <- ?app_assoc. simpl.
      eexists. split; [reflexivity|]. constructor. }
  intros [= <- <-]. rewrite <- ?app_assoc. simpl.
  eexists. split; [reflexivity|]. constructor.
Qed.

Lemma serve_run_intro (V : Config) (C : Collaborators) (m : Message)
  (h : list bot_event) (r : outcome unit) (h' : list bot_event) :
  serve V C m h = (r, h') ->
  exists t, h' = h ++ t /\ serve_run V m t r.
Proof.
  unfold serve, try_except_FloodWait.
  destruct (store_and_reply V C m h) as [rb h1] eqn:Eb.
  apply store_and_reply_run in Eb as (t & -> & Ht).
  destruct rb as [[]|[v|n]].
  - intros [= <- <-]. exists t. split; [reflexivity|].
    apply serve_run_plain; [exact Ht|discriminate].
  - intros H. apply on_FloodWait_run in H as (tf & -> & Hf).
    exists (t ++ tf). rewrite app_assoc. split; [reflexivity|].
    eapply serve_run_flood; eassumption.
  - intros [= <- <-]. exists t. split; [reflexivity|].
    apply serve_run_plain; [exact Ht|discriminate].
Qed.

Lemma private_receive_handler_run (V : Config) (C : Collaborators)
  (m : Message) (h : list bot_event) (r : outcome unit)
  (h' : list bot_event) :
  private_receive_handler V C m h = (r, h') ->
  exists t, h' = h ++ t /\ handler_run V m t r.
Proof.
  unfold private_receive_handler, bot_bind at 1, call at 1. cbv beta zeta.
  destruct (co_is_user_banned C h m (Language V m)) as [[|]|e] eqn:E1.
  1,3: intros [= <- <-]; eexists; (split; [reflexivity|]); constructor.
  unfold bot_bind at 1, call at 1. cbv beta zeta.
  destruct (co_is_user_exist C _ m) as [[]|e] eqn:E2.
  2:{ intros [= <- <-]. rewrite <- ?app_assoc. simpl.
      eexists. split; [reflexivity|]. constructor. }
  set (h2 := (h ++ _) ++ _).
  assert (Hh2 : h2 = h ++ [BIsUserBanned m (Language V m) (Done false);
                           BIsUserExist m (Done tt)]).
  { subst h2. now rewrite <- app_assoc. }
  clearbody h2.
  assert (Hjoin : forall hj rj hj',
            check_joined V C m (Language V m) hj = (rj, hj') ->
            exists t2 t3,
              hj' = hj ++ t2 ++ t3
              /\ ((exists x, check_run (Var_FORCE_UPDATES_CHANNEL V)
                               (BIsUserJoined m (Language V m)) t2 (Some x)
                             /\ t3 = [] /\ rj = x)
                  \/ (check_run (Var_FORCE_UPDATES_CHANNEL V)
                        (BIsUserJoined m (Language V m)) t2 None
                      /\ serve_run V m t3 rj))).
  { intros hj rj hj'. unfold check_joined.
    destruct (Var_FORCE_UPDATES_CHANNEL V) eqn:Ef.
    - unfold bot_bind, call. cbv beta zeta.
      destruct (co_is_user_joined C hj m (Language V m)) as [[|]|e] eqn:E3;
        simpl.
      + intros H. apply serve_run_intro in H as (t3 & -> & H3).
        eexists [_], t3. rewrite <- app_assoc.
        split; [reflexivity|]. right.
        split; [now apply check_run_yes|exact H3].
      + intros [= <- <-]. eexists [_], []. split; [reflexivity|]. left.
        eexists. split; [now apply check_run_no|auto].
      + intros [= <- <-]. eexists [_], []. split; [reflexivity|]. left.
        eexists. split; [now apply check_run_failed|auto].
    - intros H. apply serve_run_intro in H as (t3 & -> & H3).
      exists [], t3. split; [reflexivity|]. right.
      split; [now apply check_run_off|exact H3]. }
  unfold check_tos.
  assert (Hgo : forall hj t1,
            hj = h2 ++ t1 ->
            check_run (Var_TOS V) (BIsUserAcceptedTos m) t1 None ->
            check_joined V C m (Language V m) hj = (r, h') ->
            exists t, h' = h ++ t /\ handler_run V m t r).
  { intros hj t1 -> H1 H.
    apply Hjoin in H as (t2 & t3 & -> & [(x & H2 & -> & ->)|(H2 & H3)]).
    - eexists. rewrite Hh2, <- !app_assoc. simpl.
      split; [reflexivity|]. rewrite app_nil_r.
      eapply handler_run_join_stop; eassumption.
    - eexists. rewrite Hh2, <- !app_assoc. simpl.
      split; [reflexivity|].
      eapply handler_run_served; eassumption. }
  destruct (Var_TOS V) eqn:Et.
  - unfold bot_bind, call. cbv beta zeta.
    destruct (co_is_user_accepted_tos C h2 m) as [[|]|e] eqn:E3; simpl.
    + apply (Hgo _ [_] eq_refl). now apply check_run_yes.
    + intros [= <- <-]. eexists. rewrite Hh2, <- !app_assoc. simpl.
      split; [reflexivity|].
      apply handler_run_tos_stop. rewrite Et. now apply check_run_no.
    + intros [= <- <-]. eexists. rewrite Hh2, <- !app_assoc. simpl.
      split; [reflexivity|].
      apply handler_run_tos_stop. rewrite Et. now apply check_run_failed.
  - intros H. apply (Hgo h2 []); [now rewrite app_nil_r| |exact H].
    now apply check_run_off.
Qed.

Lemma try_run_events (V : Config) (m : Message) (t : list bot_event)
  (r : outcome unit) :
  try_run V m t r -> Forall (fun e => in_try e = true) t.
Proof. intros H. destruct H; repeat constructor. Qed.

Lemma flood_run_events (V : Config) (m : Message) (v : Z)
  (t : list bot_event) (r : outcome unit) :
  flood_run V m v t r ->
  Forall (fun e => in_try e = false /\ is_check e = false) t.
Proof. intros H. destruct H; repeat constructor. Qed.

Lemma serve_run_events (V : Config) (m : Message) (t : list bot_event)
  (r : outcome unit) :
  serve_run V m t r -> Forall (fun e => is_check e = false) t.
Proof.
  intros H. destruct H as [t r H _|t v tf r H Hf].
  - destruct H; repeat constructor.
  - apply Forall_app. split.
    + destruct H; repeat constructor.
    + eapply Forall_impl; [eapply flood_run_events; exact Hf|].
      intros e He. apply He.
Qed.

Lemma check_run_events (on : bool) (ev : outcome bool -> bot_event)
  (t : list bot_event) (o : option (outcome unit)) :
  check_run on ev t o ->
  (t = [] /\ on = false /\ o = None)
  \/ (on = true
      /\ exists a, t = [ev a]
                   /\ (o = None <-> a = Done true)
                   /\ (forall x, a = Failed x -> o = Some (Failed x))
                   /\ (a = Done false -> o = Some (Done tt))).
Proof.
  intros H. destruct H; [left; auto|right..]; (split; [assumption|]);
    eexists; (split; [reflexivity|]); repeat split; auto;
    try discriminate; congruence.
Qed.

(** The checks that were passed, and the rest of the run, when a call of
    the [try] is in the history. *)
Lemma handler_run_served_inv (V : Config) (m : Message)
  (t : list bot_event) (r : outcome unit) (e : bot_event) :
  handler_run V m t r -> In e t -> is_check e = false ->
  exists t1 t2 t3,
    t = BIsUserBanned m (Language V m) (Done false)
        :: BIsUserExist m (Done tt) :: t1 ++ t2 ++ t3
    /\ check_run (Var_TOS V) (BIsUserAcceptedTos m) t1 None
    /\ check_run (Var_FORCE_UPDATES_CHANNEL V)
         (BIsUserJoined m (Language V m)) t2 None
    /\ serve_run V m t3 r
    /\ In e t3.
Proof.
  intros Hr Hin Hk.
  assert (Hcheck : forall on ev t0 o,
            check_run on ev t0 o ->
            (forall a, is_check (ev a) = true) -> ~ In e t0).
  { intros on ev t0 o Hc Hev Hi.
    destruct Hc; simpl in Hi; try contradiction;
      destruct Hi as [<-|[]]; rewrite Hev in Hk; discriminate. }
  destruct Hr as [x| |x|t1 r H1|t1 t2 r H1 H2|t1 t2 t3 r H1 H2 H3];
    simpl in Hin.
  - destruct Hin as [<-|[]]. discriminate.
  - destruct Hin as [<-|[]]. discriminate.
  - destruct Hin as [<-|[<-|[]]]; discriminate.
  - destruct Hin as [<-|[<-|Hin]]; try discriminate.
    exfalso. eapply Hcheck; [exact H1|reflexivity|exact Hin].
  - destruct Hin as [<-|[<-|Hin]]; try discriminate.
    apply in_app_or in Hin as [Hin|Hin]; exfalso.
    + eapply Hcheck; [exact H1|reflexivity|exact Hin].
    + eapply Hcheck; [exact H2|reflexivity|exact Hin].
  - destruct Hin as [<-|[<-|Hin]]; try discriminate.
    apply in_app_or in Hin as [Hin|Hin];
      [exfalso; eapply Hcheck; [exact H1|reflexivity|exact Hin]|].
    apply in_app_or in Hin as [Hin|Hin];
      [exfalso; eapply Hcheck; [exact H2|reflexivity|exact Hin]|].
    exists t1, t2, t3. auto.
Qed.

(** ** Properties of the handler *)

(** X24.  The handler serves a message only after its checks.  In every
    run: a user found banned ends the run at once, normally; the checks
    of the terms of service and of the channel are called only when
    their settings are on; and a call of the body of the [try] (the file
    info, the database, the link, the reply) is made only after the ban
    check answered no, the registration of the user returned, and each
    check that is on answered yes. *)
Theorem handler_checks_first (V : Config) (C : Collaborators)
  (m : Message) (h : list bot_event) (r : outcome unit)
  (h' : list bot_event) :
  private_receive_handler V C m h = (r, h') ->
  exists t,
    h' = h ++ t
    /\ (In (BIsUserBanned m (Language V m) (Done true)) t ->
        t = [BIsUserBanned m (Language V m) (Done true)] /\ r = Done tt)
    /\ (Var_TOS V = false -> forall ra, ~ In (BIsUserAcceptedTos m ra) t)
    /\ (Var_FORCE_UPDATES_CHANNEL V = false ->
        forall lang ra, ~ In (BIsUserJoined m lang ra) t)
    /\ (forall e, In e t -> in_try e = true ->
        In (BIsUserBanned m (Language V m) (Done false)) t
        /\ In (BIsUserExist m (Done tt)) t
        /\ (Var_TOS V = true -> In (BIsUserAcceptedTos m (Done true)) t)
        /\ (Var_FORCE_UPDATES_CHANNEL V = true ->
            In (BIsUserJoined m (Language V m) (Done true)) t)).
Proof.
  intros H. apply private_receive_handler_run in H as (t & -> & Hr).
  exists t. split; [reflexivity|].
  assert (Hin_check : forall on ev t0 o e,
            check_run on ev t0 o -> In e t0 ->
            on = true /\ exists a, e = ev a).
  { intros on ev t0 o e Hc Hi.
    destruct Hc; simpl in Hi; try contradiction;
      destruct Hi as [<-|[]]; eauto. }
  assert (Hserve : forall t3 e, serve_run V m t3 r -> In e t3 ->
            is_check e = false).
  { intros t3 e H3 Hi. apply serve_run_events in H3.
    rewrite List.Forall_forall in H3. now apply H3. }
  split; [|split; [|split]].
  - intros Hin.
    destruct Hr as [x| |x|t1 r H1|t1 t2 r H1 H2|t1 t2 t3 r H1 H2 H3];
      simpl in Hin; auto.
    + destruct Hin as [[=]|[]].
    + destruct Hin as [[=]|[[=]|[]]].
    + destruct Hin as [[=]|[[=]|Hin]].
      destruct (Hin_check _ _ _ _ _ H1 Hin) as (_ & a & [=]).
    + destruct Hin as [[=]|[[=]|Hin]].
      apply in_app_or in Hin as [Hin|Hin].
      * destruct (Hin_check _ _ _ _ _ H1 Hin) as (_ & a & [=]).
      * destruct (Hin_check _ _ _ _ _ H2 Hin) as (_ & a & [=]).
    + destruct Hin as [[=]|[[=]|Hin]].
      apply in_app_or in Hin as [Hin|Hin];
        [destruct (Hin_check _ _ _ _ _ H1 Hin) as (_ & a & [=])|].
      apply in_app_or in Hin as [Hin|Hin];
        [destruct (Hin_check _ _ _ _ _ H2 Hin) as (_ & a & [=])|].
      specialize (Hserve _ _ H3 Hin). discriminate.
  - intros Hoff ra Hin.
    destruct Hr as [x| |x|t1 r H1|t1 t2 r H1 H2|t1 t2 t3 r H1 H2 H3];
      simpl in Hin.
    + destruct Hin as [[=]|[]].
    + destruct Hin as [[=]|[]].
    + destruct Hin as [[=]|[[=]|[]]].
    + destruct Hin as [[=]|[[=]|Hin]].
      destruct (Hin_check _ _ _ _ _ H1 Hin) as (Hon & _). congruence.
    + destruct Hin as [[=]|[[=]|Hin]].
      apply in_app_or in Hin as [Hin|Hin].
      * destruct (Hin_check _ _ _ _ _ H1 Hin) as (Hon & _). congruence.
      * destruct (Hin_check _ _ _ _ _ H2 Hin) as (_ & a & [=]).
    + destruct Hin as [[=]|[[=]|Hin]].
      apply in_app_or in Hin as [Hin|Hin];
        [destruct (Hin_check _ _ _ _ _ H1 Hin) as (Hon & _); congruence|].
      apply in_app_or in Hin as [Hin|Hin];
        [destruct (Hin_check _ _ _ _ _ H2 Hin) as (_ & a & [=])|].
      specialize (Hserve _ _ H3 Hin). discriminate.
  - intros Hoff lang ra Hin.
    destruct Hr as [x| |x|t1 r H1|t1 t2 r H1 H2|t1 t2 t3 r H1 H2 H3];
      simpl in Hin.
    + destruct Hin as [[=]|[]].
    + destruct Hin as [[=]|[]].
    + destruct Hin as [[=]|[[=]|[]]].
    + destruct Hin as [[=]|[[=]|Hin]].
      destruct (Hin_check _ _ _ _ _ H1 Hin) as (_ & a & [=]).
    + destruct Hin as [[=]|[[=]|Hin]].
      apply in_app_or in Hin as [Hin|Hin].
      * destruct (Hin_check _ _ _ _ _ H1 Hin) as (_ & a & [=]).
      * destruct (Hin_check _ _ _ _ _ H2 Hin) as (Hon & _). congruence.
    + destruct Hin as [[=]|[[=]|Hin]].
      apply in_app_or in Hin as [Hin|Hin];
        [destruct (Hin_check _ _ _ _ _ H1 Hin) as (_ & a & [=])|].
      apply in_app_or in Hin as [Hin|Hin];
        [destruct (Hin_check _ _ _ _ _ H2 Hin) as (Hon & _); congruence|].
      specialize (Hserve _ _ H3 Hin). discriminate.
  - intros e Hin Htry.
    assert (Hk : is_check e = false) by (destruct e; simpl in *; congruence).
    destruct (handler_run_served_inv V m t r e Hr Hin Hk)
      as (t1 & t2 & t3 & -> & H1 & H2 & H3 & _).
    split; [now left|]. split; [right; now left|]. split.
    + intros Hon.
      apply check_run_events in H1 as [(_ & Hoff & _)|(_ & a & -> & Ha & _)];
        [congruence|].
      rewrite (proj1 Ha eq_refl). right. right. now left.
    + intros Hon.
      apply check_run_events in H2 as [(_ & Hoff & _)|(_ & a & -> & Ha & _)];
        [congruence|].
      rewrite (proj1 Ha eq_refl). right. right.
      apply in_or_app. right. now left.
Qed.

Lemma handler_checks_first_witness :
  exists t,
    snd (private_receive_handler demo_config all_ok demo_message [])
    = [] ++ t
    /\ In (BIsUserAcceptedTos demo_message (Done true)) t.
Proof.
  destruct (handler_checks_first demo_config all_ok demo_message [] _ _
              (surjective_pairing _))
    as (t & Ht & _ & _ & _ & Hall).
  exists t. split; [exact Ht|].
  apply (Hall (BAddFile (<["ads" := PyBool true]> demo_info) (Done "id1")));
    [|reflexivity|reflexivity].
  simpl in Ht. subst t. vm_compute. auto 10.
Defined.

Lemma serve_run_try_part (V : Config) (m : Message) (t3 : list bot_event)
  (r : outcome unit) (e : bot_event) :
  serve_run V m t3 r -> In e t3 -> in_try e = true ->
  exists tb rb tf,
    t3 = tb ++ tf /\ try_run V m tb rb /\ In e tb
    /\ Forall (fun e => in_try e = false /\ is_check e = false) tf
    /\ ((forall v, rb <> Failed (FloodWaitOf v)) -> tf = [] /\ r = rb)
    /\ (forall v, rb = Failed (FloodWaitOf v) -> flood_run V m v tf r).
Proof.
  intros H Hin Htry. destruct H as [t r H Hn|t v tf r H Hf].
  - exists t, r, []. rewrite app_nil_r.
    split; [reflexivity|]. split; [exact H|]. split; [exact Hin|].
    split; [constructor|]. split; [auto|].
    intros v ->. exfalso. eapply Hn. reflexivity.
  - exists t, (Failed (FloodWaitOf v)), tf.
    pose proof (flood_run_events _ _ _ _ _ Hf) as Hev.
    split; [reflexivity|]. split; [exact H|]. split.
    { apply in_app_or in Hin as [Hin|Hin]; [exact Hin|].
      rewrite List.Forall_forall in Hev. destruct (Hev e Hin). congruence. }
    split; [exact Hev|]. split.
    { intros Hn. exfalso. eapply Hn. reflexivity. }
    intros v' [= <-]. exact Hf.
Qed.

(** X25.  What is stored is the file info of the message with its
    ["ads"] entry set to [True], whatever [get_file_info] had put there:
    in every run, the dict passed to [db.add_file] holds [True] under
    ["ads"] and agrees on every other key with the dict that
    [get_file_info] returned for the message. *)
Theorem handler_stores_ads (V : Config) (C : Collaborators)
  (m : Message) (h : list bot_event) (r : outcome unit)
  (h' : list bot_event) :
  private_receive_handler V C m h = (r, h') ->
  exists t,
    h' = h ++ t
    /\ forall info ra,
         In (BAddFile info ra) t ->
         info !! "ads" = Some (PyBool true)
         /\ exists info0,
              In (BGetFileInfo m (Done info0)) t
              /\ forall k, k <> "ads" -> info !! k = info0 !! k.
Proof.
  intros H. apply private_receive_handler_run in H as (t & -> & Hr).
  exists t. split; [reflexivity|].
  intros info ra Hin.
  destruct (handler_run_served_inv V m t r _ Hr Hin eq_refl)
    as (t1 & t2 & t3 & -> & _ & _ & H3 & Hin3).
  destruct (serve_run_try_part V m t3 r _ H3 Hin3 eq_refl)
    as (tb & rb & tf & -> & Hb & Hinb & _).
  assert (Hfound : exists info0,
            info = <["ads" := PyBool true]> info0
            /\ In (BGetFileInfo m (Done info0)) tb).
  { destruct Hb; simpl in Hinb;
      repeat match goal with
             | H : _ \/ _ |- _ => destruct H
             | H : False |- _ => destruct H
             | H : @eq bot_event _ _ |- _ =>
                 first [discriminate H | injection H as <- <-]
             end;
      eexists; (split; [reflexivity|]); simpl; auto. }
  destruct Hfound as (info0 & -> & Hin0).
  split; [apply lookup_insert_eq|].
  exists info0. split.
  - right. right. apply in_or_app. right. apply in_or_app. right.
    apply in_or_app. left. exact Hin0.
  - intros k Hk. now apply lookup_insert_ne.
Qed.

Lemma handler_stores_ads_witness :
  exists t,
    snd (private_receive_handler demo_config all_ok demo_message [])
    = [] ++ t
    /\ (<["ads" := PyBool true]> demo_info : file_info_dict) !! "ads"
       = Some (PyBool true).
Proof.
  destruct (handler_stores_ads demo_config all_ok demo_message [] _ _
              (surjective_pairing _))
    as (t & Ht & Hall).
  exists t. split; [exact Ht|].
  apply (Hall (<["ads" := PyBool true]> demo_info) (Done "id1")).
  simpl in Ht. subst t. vm_compute. auto 10.
Defined.

Lemma app_eq_mid {A : Type} (l1 l2 t1 t2 : list A) (x : A) :
  l1 ++ l2 = t1 ++ x :: t2 ->
  (exists t2', l1 = t1 ++ x :: t2' /\ t2 = t2' ++ l2)
  \/ (exists t1', t1 = l1 ++ t1' /\ l2 = t1' ++ x :: t2).
Proof.
  revert t1. induction l1 as [|y l1 IH]; intros t1 H; simpl in H.
  - right. exists t1. auto.
  - destruct t1 as [|z t1]; simpl in H; injection H as -> H.
    + left. exists l1. subst. auto.
    + destruct (IH _ H) as [(t2' & -> & ->)|(t1' & -> & ->)];
        [left|right]; eauto.
Qed.

(** A call that fails is the last of its block, and its exception is the
    outcome of the block. *)
Lemma try_run_failing (V : Config) (m : Message) (tb : list bot_event)
  (rb : outcome unit) :
  try_run V m tb rb ->
  forall ta e x tz,
    tb = ta ++ e :: tz -> raised e = Some x -> tz = [] /\ rb = Failed x.
Proof.
  intros H ta e x tz Ht Hx.
  destruct H;
    repeat (destruct ta as [|? ta]; simpl in Ht;
            [injection Ht as <- <-; simpl in Hx;
             first [discriminate Hx | injection Hx as <-; auto
                   | destruct rr; [discriminate Hx|injection Hx as <-; auto]]
            |injection Ht as _ Ht]);
    destruct ta; discriminate.
Qed.

Lemma flood_run_failing (V : Config) (m : Message) (v : Z)
  (tf : list bot_event) (r : outcome unit) :
  flood_run V m v tf r ->
  forall ta e x tz,
    tf = ta ++ e :: tz -> raised e = Some x -> tz = [] /\ r = Failed x.
Proof.
  intros H ta e x tz Ht Hx.
  destruct H;
    repeat (destruct ta as [|? ta]; simpl in Ht;
            [injection Ht as <- <-; simpl in Hx;
             first [discriminate Hx | injection Hx as <-; auto
                   | destruct rn; [discriminate Hx|injection Hx as <-; auto]]
            |injection Ht as _ Ht]);
    destruct ta; discriminate.
Qed.

(** A run is its checks, then, when they all let it through, the [try]
    statement. *)
Lemma handler_run_split (V : Config) (m : Message) (t : list bot_event)
  (r : outcome unit) :
  handler_run V m t r ->
  exists tc ts,
    t = tc ++ ts
    /\ Forall (fun e => is_check e = true) tc
    /\ ((ts = []
         /\ forall t1 e x t2,
              tc = t1 ++ e :: t2 -> raised e = Some x ->
              t2 = [] /\ r = Failed x)
        \/ (serve_run V m ts r /\ Forall (fun e => raised e = None) tc)).
Proof.
  assert (Hc : forall on ev t0 o,
            check_run on ev t0 o ->
            (forall a, is_check (ev a) = true) ->
            (forall a, raised (ev a) = raised_of a) ->
            Forall (fun e => is_check e = true) t0
            /\ (o = None -> Forall (fun e => raised e = None) t0)
            /\ (forall r0, o = Some r0 ->
                  forall t1 e x t2,
                    t0 = t1 ++ e :: t2 -> raised e = Some x ->
                    t1 = [] /\ t2 = [] /\ r0 = Failed x)).
  { intros on ev t0 o H Hk Hr. destruct H.
    - split; [constructor|]. split; [constructor|].
      intros r0 _ t1 e x t2 Ht. destruct t1; discriminate.
    - split; [repeat constructor; apply Hk|]. split; [discriminate|].
      intros r0 [= <-] t1 e0 x t2 Ht Hx.
      destruct t1 as [|? t1]; [|destruct t1; discriminate].
      injection Ht as <- <-. rewrite Hr in Hx. injection Hx as <-. auto.
    - split; [repeat constructor; apply Hk|]. split; [discriminate|].
      intros r0 [= <-] t1 e0 x t2 Ht Hx.
      destruct t1 as [|? t1]; [|destruct t1; discriminate].
      injection Ht as <- <-. rewrite Hr in Hx. discriminate.
    - split; [repeat constructor; apply Hk|].
      split; [intros _; repeat constructor; apply Hr|]. discriminate. }
  intros H.
  destruct H as [x| |x|t1 r H1|t1 t2 r H1 H2|t1 t2 t3 r H1 H2 H3].
  - eexists _, []. rewrite app_nil_r. split; [reflexivity|].
    split; [repeat constructor|]. left. split; [reflexivity|].
    intros t1 e y t2 Ht Hy.
    destruct t1 as [|? t1]; [|destruct t1; discriminate].
    injection Ht as <- <-. injection Hy as <-. auto.
  - eexists _, []. rewrite app_nil_r. split; [reflexivity|].
    split; [repeat constructor|]. left. split; [reflexivity|].
    intros t1 e y t2 Ht Hy.
    destruct t1 as [|? t1]; [|destruct t1; discriminate].
    injection Ht as <- <-. discriminate.
  - eexists _, []. rewrite app_nil_r. split; [reflexivity|].
    split; [repeat constructor|]. left. split; [reflexivity|].
    intros t1 e y t2 Ht Hy.
    destruct t1 as [|? t1]; [injection Ht as <- _; discriminate|].
    injection Ht as _ Ht.
    destruct t1 as [|? t1]; [|destruct t1; discriminate].
    injection Ht as <- <-. injection Hy as <-. auto.
  - destruct (Hc _ _ _ _ H1 (fun _ => eq_refl) (fun _ => eq_refl))
      as (Hk1 & _ & Hf1).
    eexists _, []. rewrite app_nil_r. split; [reflexivity|].
    split; [repeat constructor; exact Hk1|]. left. split; [reflexivity|].
    intros ta e y tz Ht Hy.
    destruct ta as [|? ta]; [injection Ht as <- _; discriminate|].
    injection Ht as _ Ht.
    destruct ta as [|? ta]; [injection Ht as <- _; discriminate|].
    injection Ht as _ Ht.
    destruct (Hf1 r eq_refl _ _ _ _ Ht Hy) as (_ & -> & ->). auto.
  - destruct (Hc _ _ _ _ H1 (fun _ => eq_refl) (fun _ => eq_refl))
      as (Hk1 & Hn1 & _).
    destruct (Hc _ _ _ _ H2 (fun _ => eq_refl) (fun _ => eq_refl))
      as (Hk2 & _ & Hf2).
    eexists _, []. rewrite app_nil_r. split; [reflexivity|].
    split; [repeat constructor; apply Forall_app; auto|].
    left. split; [reflexivity|].
    intros ta e y tz Ht Hy.
    destruct ta as [|? ta]; [injection Ht as <- _; discriminate|].
    injection Ht as _ Ht.
    destruct ta as [|? ta]; [injection Ht as <- _; discriminate|].
    injection Ht as _ Ht.
    destruct (app_eq_skip (fun e => raised e <> None) t1 t2 ta tz e)
      as (ta' & _ & Ht'); [|congruence|exact Ht|].
    { eapply Forall_impl; [exact (Hn1 eq_refl)|].
      intros e0 He0 Hne. congruence. }
    destruct (Hf2 r eq_refl _ _ _ _ Ht' Hy) as (_ & -> & ->). auto.
  - destruct (Hc _ _ _ _ H1 (fun _ => eq_refl) (fun _ => eq_refl))
      as (Hk1 & Hn1 & _).
    destruct (Hc _ _ _ _ H2 (fun _ => eq_refl) (fun _ => eq_refl))
      as (Hk2 & Hn2 & _).
    exists (BIsUserBanned m (Language V m) (Done false)
            :: BIsUserExist m (Done tt) :: t1 ++ t2), t3.
    split; [simpl; now rewrite <- app_assoc|].
    split; [repeat constructor; apply Forall_app; auto|].
    right. split; [exact H3|].
    repeat constructor. apply Forall_app. auto.
Qed.

Lemma handler_run_locate (V : Config) (m : Message) (t : list bot_event)
  (r : outcome unit) (t1 : list bot_event) (e : bot_event)
  (t2 : list bot_event) :
  handler_run V m t r ->
  t = t1 ++ e :: t2 ->
  is_check e = false ->
  exists tc t1' ts,
    t1 = tc ++ t1'
    /\ ts = t1' ++ e :: t2
    /\ Forall (fun e => is_check e = true) tc
    /\ serve_run V m ts r.
Proof.
  intros Hr Ht Hk.
  destruct (handler_run_split V m t r Hr) as (tc & ts & -> & Hc & Hcase).
  destruct (app_eq_skip (fun e => is_check e = false) tc ts t1 t2 e)
    as (t1' & -> & ->); [|exact Hk|exact Ht|].
  { eapply Forall_impl; [exact Hc|]. intros e0 He0. congruence. }
  destruct Hcase as [(Hnil & _)|(Hs & _)].
  { destruct t1'; discriminate. }
  exists tc, t1', (t1' ++ e :: t2). auto.
Qed.

(** X26.  A [FloodWait] raised by a call of the [try] is handled, and
    the user gets no reply.  In every run, a call of the [try] that
    raises [FloodWait] with value [v] is followed by exactly this: the
    line ["Sleeping for <v>s"] is printed, the handler sleeps [v]
    seconds, and then sends one notice to the bin channel, in Markdown,
    naming the value and the user; the outcome of the handler is the
    outcome of that last call, or the failure of the sleep. *)
Theorem handler_flood_wait (V : Config) (C : Collaborators)
  (m : Message) (h : list bot_event) (r : outcome unit)
  (h' : list bot_event) :
  private_receive_handler V C m h = (r, h') ->
  exists t,
    h' = h ++ t
    /\ forall t1 e v t2,
         t = t1 ++ e :: t2 ->
         in_try e = true ->
         raised e = Some (FloodWaitOf v) ->
         exists rs,
           t2 = BPrint ("Sleeping for " ++ str_of_Z v ++ "s")
                :: BSleep v rs
                :: match rs with
                   | Done _ =>
                       [BSendMessage (Var_BIN_CHANNEL V) (flood_notice v m)
                          true MARKDOWN r]
                   | Failed _ => []
                   end
           /\ (forall x, rs = Failed x -> r = Failed x).
Proof.
  intros H. apply private_receive_handler_run in H as (t & -> & Hr).
  exists t. split; [reflexivity|].
  intros t1 e v t2 Ht Htry Hv.
  assert (Hk : is_check e = false) by (destruct e; simpl in *; congruence).
  destruct (handler_run_locate V m t r t1 e t2 Hr Ht Hk)
    as (tc & t1' & ts & _ & H & _ & Hs).
  destruct Hs as [tb r Hb Hn|tb v0 tf r Hb Hf].
  - destruct (try_run_failing V m _ _ Hb _ _ _ _ H Hv) as (_ & ->).
    exfalso. eapply Hn. reflexivity.
  - destruct (app_eq_mid _ _ _ _ _ H) as [(t2' & -> & ->)|(t1'' & -> & ->)].
    + destruct (try_run_failing V m _ _ Hb _ _ _ _ eq_refl Hv)
        as (-> & [= <-]).
      simpl. destruct Hf.
      * exists (Failed e0). split; [reflexivity|].
        intros x [= <-]. reflexivity.
      * exists (Done tt). split; [reflexivity|]. discriminate.
    + exfalso. apply flood_run_events in Hf.
      rewrite List.Forall_forall in Hf.
      destruct (Hf e) as (Hno & _); [apply in_or_app; right; now left|].
      congruence.
Qed.

Lemma handler_flood_wait_witness :
  snd (private_receive_handler demo_config flooding demo_message [])
  = [BIsUserBanned demo_message (LangOf "en") (Done false);
     BIsUserExist demo_message (Done tt);
     BIsUserAcceptedTos demo_message (Done true);
     BIsUserJoined demo_message (LangOf "en") (Done true);
     BGetFileInfo demo_message (Done demo_info);
     BAddFile (<["ads" := PyBool true]> demo_info) (Failed (FloodWaitOf 7));
     BPrint ("Sleeping for " ++ str_of_Z 7 ++ "s");
     BSleep 7 (Done tt);
     BSendMessage (-1001234) (flood_notice 7 demo_message) true MARKDOWN
       (Done tt)]
  /\ exists rs,
       [BPrint ("Sleeping for " ++ str_of_Z 7 ++ "s");
        BSleep 7 (Done tt);
        BSendMessage (-1001234) (flood_notice 7 demo_message) true MARKDOWN
          (Done tt)]
       = BPrint ("Sleeping for " ++ str_of_Z 7 ++ "s")
         :: BSleep 7 rs
         :: match rs with
            | Done _ =>
                [BSendMessage (Var_BIN_CHANNEL demo_config)
                   (flood_notice 7 demo_message) true MARKDOWN
                   (fst (private_receive_handler demo_config flooding
                           demo_message []))]
            | Failed _ => []
            end
       /\ (forall x, rs = Failed x ->
           fst (private_receive_handler demo_config flooding demo_message [])
           = Failed x).
Proof.
  split; [reflexivity|].
  destruct (handler_flood_wait demo_config flooding demo_message [] _ _
              (surjective_pairing _))
    as (t & Ht & Hall).
  simpl in Ht. subst t.
  apply (Hall
    [BIsUserBanned demo_message (LangOf "en") (Done false);
     BIsUserExist demo_message (Done tt);
     BIsUserAcceptedTos demo_message (Done true);
     BIsUserJoined demo_message (LangOf "en") (Done true);
     BGetFileInfo demo_message (Done demo_info)]
    (BAddFile (<["ads" := PyBool true]> demo_info) (Failed (FloodWaitOf 7)))
    7); reflexivity.
Defined.

(** X27.  Every other exception ends the run and reaches the caller.  In
    every run, a call that raises is the last call of the run and its
    exception is the outcome of the handler, unless it is a call of the
    [try] raising [FloodWait]: so a [FloodWait] raised by one of the
    checks, which come before the [try], is not handled, and neither is
    one raised by the sleep or the notice of the [except] clause. *)
Theorem handler_raises (V : Config) (C : Collaborators)
  (m : Message) (h : list bot_event) (r : outcome unit)
  (h' : list bot_event) :
  private_receive_handler V C m h = (r, h') ->
  exists t,
    h' = h ++ t
    /\ forall t1 e x t2,
         t = t1 ++ e :: t2 ->
         raised e = Some x ->
         (in_try e = true -> forall v, x <> FloodWaitOf v) ->
         t2 = [] /\ r = Failed x.
Proof.
  intros H. apply private_receive_handler_run in H as (t & -> & Hr).
  exists t. split; [reflexivity|].
  intros t1 e x t2 Ht Hx Hnf.
  destruct (handler_run_split V m t r Hr) as (tc & ts & -> & Hc & Hcase).
  destruct Hcase as [(-> & Hstop)|(Hs & Hquiet)].
  { rewrite app_nil_r in Ht. eapply Hstop; eassumption. }
  destruct (app_eq_skip (fun e => raised e <> None) tc ts t1 t2 e)
    as (t1' & _ & H); [|congruence|exact Ht|].
  { eapply Forall_impl; [exact Hquiet|]. intros e0 He0 Hne. congruence. }
  destruct Hs as [tb r Hb Hn|tb v0 tf r Hb Hf].
  - eapply try_run_failing; eassumption.
  - destruct (app_eq_mid _ _ _ _ _ H) as [(t2' & Hb' & ->)|(t1'' & _ & Hf')].
    + exfalso.
      destruct (try_run_failing V m _ _ Hb _ _ _ _ Hb' Hx) as (_ & [= <-]).
      eapply Hnf; [|reflexivity].
      apply try_run_events in Hb. rewrite List.Forall_forall in Hb.
      apply Hb. rewrite Hb'. apply in_or_app. right. now left.
    + eapply flood_run_failing; eassumption.
Qed.

Lemma handler_raises_witness :
  private_receive_handler demo_config flooding_check demo_message []
  = (Failed (FloodWaitOf 3),
     [BIsUserBanned demo_message (LangOf "en") (Failed (FloodWaitOf 3))]).
Proof.
  destruct (handler_raises demo_config flooding_check demo_message [] _ _
              (surjective_pairing _))
    as (t & Ht & Hall).
  simpl in Ht. subst t.
  destruct (Hall []
              (BIsUserBanned demo_message (LangOf "en")
                 (Failed (FloodWaitOf 3)))
              (FloodWaitOf 3) [] eq_refl eq_refl) as (_ & Hr).
  { discriminate. }
  rewrite (surjective_pairing (private_receive_handler _ _ _ _)).
  rewrite Hr. reflexivity.
Defined.

(** X28.  A reply answers the message with the link made for the stored
    file.  In every run, a call of [reply_text] is on the message that
    was received, quoting it, in HTML, without preview, and comes right
    after these calls, each of which returned: [get_file_info] of the
    message, [db.add_file] of its info, [get_file_ids] for the id the
    database returned, with [False] for its client, and [gen_link] for
    the message and that id, whose text and markup are the ones
    replied.  Before them come the checks only; and unless the reply
    itself raises [FloodWait], it is the last call and its outcome is the
    outcome of the handler. *)
Theorem handler_reply (V : Config) (C : Collaborators)
  (m : Message) (h : list bot_event) (r : outcome unit)
  (h' : list bot_event) :
  private_receive_handler V C m h = (r, h') ->
  exists t,
    h' = h ++ t
    /\ forall tm text pm dp mk q rr,
         In (BReplyText tm text pm dp mk q rr) t ->
         tm = m /\ pm = HTML /\ dp = true /\ q = true
         /\ exists t0 info id f t_after,
              t = t0
                  ++ [BGetFileInfo m (Done info);
                      BAddFile (<["ads" := PyBool true]> info) (Done id);
                      BGetFileIds false id (Done f);
                      BGenLink m id
                        [StreamBot_username V; StreamBot_fname V]
                        (Done (mk, text));
                      BReplyText m text HTML true mk true rr]
                  ++ t_after
              /\ Forall (fun e => is_check e = true) t0
              /\ ((forall v, rr <> Failed (FloodWaitOf v)) ->
                  t_after = [] /\ r = rr).
Proof.
  intros H. apply private_receive_handler_run in H as (t & -> & Hr).
  exists t. split; [reflexivity|].
  intros tm text pm dp mk q rr Hin.
  apply in_split in Hin as (t1 & t2 & Ht).
  destruct (handler_run_locate V m t r t1 _ t2 Hr Ht eq_refl)
    as (tc & t1' & ts & -> & Hts & Hc & Hs).
  assert (Hin : In (BReplyText tm text pm dp mk q rr) ts).
  { rewrite Hts. apply in_or_app. right. now left. }
  destruct (serve_run_try_part V m ts r _ Hs Hin eq_refl)
    as (tb & rb & tf & Hsplit & Hb & Hinb & _ & Hplain & _).
  assert (Hshape : tm = m /\ pm = HTML /\ dp = true /\ q = true
                   /\ rb = rr
                   /\ exists info id f,
                        tb = [BGetFileInfo m (Done info);
                              BAddFile (<["ads" := PyBool true]> info)
                                (Done id);
                              BGetFileIds false id (Done f);
                              BGenLink m id
                                [StreamBot_username V; StreamBot_fname V]
                                (Done (mk, text));
                              BReplyText m text HTML true mk true rr]).
  { destruct Hb; simpl in Hinb;
      repeat match goal with
             | H : _ \/ _ |- _ => destruct H
             | H : False |- _ => destruct H
             | H : @eq bot_event _ _ |- _ =>
                 first [discriminate H | injection H as <- <- <- <- <- <- <-]
             end.
    repeat (split; [reflexivity|]). eauto. }
  destruct Hshape as (-> & -> & -> & -> & -> & info & id & f & ->).
  repeat (split; [reflexivity|]).
  exists tc, info, id, f, tf. split.
  - rewrite Ht, <- app_assoc, <- Hts, Hsplit. reflexivity.
  - split; [exact Hc|exact Hplain].
Qed.

Lemma handler_reply_witness :
  fst (private_receive_handler demo_config all_ok demo_message [])
  = Done tt.
Proof.
  destruct (handler_reply demo_config all_ok demo_message [] _ _
              (surjective_pairing _))
    as (t & Ht & Hall).
  simpl in Ht. subst t.
  destruct (Hall demo_message "link" HTML true (MarkupOf "keyboard") true
              (Done tt))
    as (_ & _ & _ & _ & t0 & info & id & f & t_after & _ & _ & Hlast).
  { vm_compute. auto 12. }
  apply Hlast. discriminate.
Defined.
